(** * rla-verifier: a shallow embedding of [utils.py] and [audits.py]

    The Python sources are embedded as executable Rocq functions.

    - Python [int] is [Z].  The [votes] column of a pandas table is an
      [int64] array: the sums that [groupby(...).sum()] computes over it
      wrap around modulo 2^64, and [to_dict()] hands the wrapped values
      over as Python integers.
    - Python [float] and [decimal.Decimal] values are exact rationals [Q]:
      every arithmetic operation is the mathematical one, the rounding of
      binary floats (53 bits) and of the decimal context (28 digits) is not
      part of the model, nor is the overflow of the decimal exponent.
      The concrete inputs of the counterexamples below are chosen so that
      the values they end with are small dyadic rationals, which the
      Python types represent exactly.
    - A [dict] is an association list in insertion order; iteration follows
      the list, [d[k]] is the first binding of [k].
    - Exceptions are values of [exn]; a computation that may raise returns
      a [result].
    - [ballot_polling_SPRT] updates the dict-of-dicts [T] in place: the
      model returns the store as it is left by the call together with the
      outcome (returned maximum p-value, or the exception raised).  The
      rows of [T] are distinct objects, as the three constructors build
      them. *)

From Stdlib Require Import ZArith QArith Qpower List String Bool Lia Lqa.
From Stdlib Require Import Permutation Sorting.Sorted.
Import ListNotations.

Local Open Scope Z_scope.

(* ================================================================== *)
(** * Python runtime                                                    *)
(* ================================================================== *)

Module Py.

Inductive exn : Type :=
| KeyError
| ValueError
| ZeroDivisionError        (* int / int with a zero divisor *)
| DecimalDivisionByZero    (* decimal.DivisionByZero *)
| DecimalInvalidOperation  (* decimal.InvalidOperation *)
| DecimalInfinity.         (* not an exception, see [decimal_pow] *)

Inductive result (A : Type) : Type :=
| Ok (a : A)
| Raise (e : exn).
Arguments Ok {A} a.
Arguments Raise {A} e.

Definition bind {A B : Type} (m : result A) (k : A -> result B) : result B :=
  match m with
  | Ok a => k a
  | Raise e => Raise e
  end.

Fixpoint mapM {A B : Type} (f : A -> result B) (l : list A) : result (list B) :=
  match l with
  | [] => Ok []
  | x :: l' =>
      bind (f x) (fun y => bind (mapM f l') (fun ys => Ok (y :: ys)))
  end.

Fixpoint foldM {A S : Type} (f : S -> A -> result S) (l : list A) (s : S) : result S :=
  match l with
  | [] => Ok s
  | x :: l' => bind (f s x) (foldM f l')
  end.

(** Keys of dictionaries: types with a decidable equality. *)
Class Hashable (K : Type) := key_eq_dec : forall x y : K, {x = y} + {x <> y}.

#[export] Instance string_Hashable : Hashable string := string_dec.
#[export] Instance Z_Hashable : Hashable Z := Z.eq_dec.
#[export] Instance pair_Hashable {A B : Type} `{Hashable A} `{Hashable B} :
  Hashable (A * B).
Proof.
  intros [a b] [a' b'].
  destruct (key_eq_dec a a') as [->|Ha]; [|right; congruence].
  destruct (key_eq_dec b b') as [->|Hb]; [left; reflexivity|right; congruence].
Defined.

Definition dict (K V : Type) : Type := list (K * V).

Definition keys {K V : Type} (d : dict K V) : list K := map fst d.

(** [d[k]] *)
Fixpoint getitem {K V : Type} `{Hashable K} (d : dict K V) (k : K) : result V :=
  match d with
  | [] => Raise KeyError
  | (k', v) :: d' => if key_eq_dec k k' then Ok v else getitem d' k
  end.

(** [d[k] = v]: an existing key keeps its position. *)
Fixpoint setitem {K V : Type} `{Hashable K} (d : dict K V) (k : K) (v : V) : dict K V :=
  match d with
  | [] => [(k, v)]
  | (k', v') :: d' =>
      if key_eq_dec k k' then (k', v) :: d' else (k', v') :: setitem d' k v
  end.

(** [k in l] *)
Definition contains {K : Type} `{Hashable K} (l : list K) (k : K) : bool :=
  if in_dec key_eq_dec k l then true else false.

(** Values that Python can order with [<] and [<=]. *)
Class PyOrd (V : Type) := py_leb : V -> V -> bool.

#[export] Instance Z_PyOrd : PyOrd Z := Z.leb.
#[export] Instance Q_PyOrd : PyOrd Q := Qle_bool.
#[export] Instance string_PyOrd : PyOrd string := String.leb.

(** The order is total and transitive on the values a dictionary of
    votes holds (integers, and quotients of integers). *)
Class PyOrdLaws (V : Type) `{PyOrd V} := {
  py_leb_total : forall x y : V, py_leb x y = true \/ py_leb y x = true;
  py_leb_trans : forall x y z : V,
      py_leb x y = true -> py_leb y z = true -> py_leb x z = true
}.

#[export] Instance Z_PyOrdLaws : PyOrdLaws Z.
Proof.
  split; unfold py_leb, Z_PyOrd.
  - intros x y. rewrite !Z.leb_le. lia.
  - intros x y z. rewrite !Z.leb_le. lia.
Qed.

#[export] Instance Q_PyOrdLaws : PyOrdLaws Q.
Proof.
  split; unfold py_leb, Q_PyOrd.
  - intros x y. rewrite !Qle_bool_iff.
    destruct (Qlt_le_dec x y) as [Hlt|Hle];
      [left; apply Qlt_le_weak, Hlt|right; exact Hle].
  - intros x y z. rewrite !Qle_bool_iff. apply Qle_trans.
Qed.

(** The stable insertion used by both sort directions: [x], which comes
    from the left of everything already in [l], goes in front of the
    first element it may precede. *)
Fixpoint insert_by {A : Type} (before : A -> A -> bool) (x : A) (l : list A) : list A :=
  match l with
  | [] => [x]
  | y :: l' => if before x y then x :: y :: l' else y :: insert_by before x l'
  end.

Definition stable_sort {A : Type} (before : A -> A -> bool) (l : list A) : list A :=
  fold_right (insert_by before) [] l.

(** [sorted(l, key=key)]: stable, ascending. *)
Definition sorted {A V : Type} `{PyOrd V} (key : A -> V) (l : list A) : list A :=
  stable_sort (fun x y => py_leb (key x) (key y)) l.

(** [sorted(l, key=key, reverse=True)]: descending, elements with equal
    keys keep their original order. *)
Definition sorted_reverse {A V : Type} `{PyOrd V} (key : A -> V) (l : list A) : list A :=
  stable_sort (fun x y => py_leb (key y) (key x)) l.

(** [sorted(l, key=key, reverse=True)] for a key function that may raise:
    Python computes the key of every element once, before sorting. *)
Definition sorted_reverse_M {A V : Type} `{PyOrd V}
  (key : A -> result V) (l : list A) : result (list A) :=
  bind (mapM (fun x => bind (key x) (fun k => Ok (x, k))) l)
       (fun decorated => Ok (map fst (sorted_reverse snd decorated))).

(** [l[:n]] and [l[n:]] for an arbitrary integer [n]. *)
Definition slice_index {A : Type} (n : Z) (l : list A) : nat :=
  if n <? 0 then Z.to_nat (Z.of_nat (List.length l) + n) else Z.to_nat n.

Definition slice_to {A : Type} (n : Z) (l : list A) : list A :=
  firstn (slice_index n l) l.

Definition slice_from {A : Type} (n : Z) (l : list A) : list A :=
  skipn (slice_index n l) l.

(** [range(n)] *)
Definition range (n : Z) : list Z := map Z.of_nat (seq 0 (Z.to_nat n)).

(** [sum(l)] on integers. *)
Definition sum (l : list Z) : Z := fold_left Z.add l 0.

(** [a < b] on numbers. *)
Definition Qltb (a b : Q) : bool := negb (Qle_bool b a).

(** [max(a, b)]: the first argument unless the second is larger. *)
Definition max2 (a b : Q) : Q := if Qltb a b then b else a.

(** [max(l)] on a list of integers; [ValueError] on the empty list. *)
Definition max_list (l : list Z) : result Z :=
  match l with
  | [] => Raise ValueError
  | x :: l' => Ok (fold_left Z.max l' x)
  end.

(** [min(l)] on a list of integers; [ValueError] on the empty list. *)
Definition min_list (l : list Z) : result Z :=
  match l with
  | [] => Raise ValueError
  | x :: l' => Ok (fold_left Z.min l' x)
  end.

(** [a / b] on integers (true division). *)
Definition truediv (a b : Z) : result Q :=
  if b =? 0 then Raise ZeroDivisionError else Ok (inject_Z a / inject_Z b)%Q.

(** [a / b] on [Decimal]s under the default context, which traps
    [DivisionByZero] and [InvalidOperation].  The quotient is the exact
    one; Python rounds it to 28 significant digits, which the model
    leaves out. *)
Definition decimal_div (a b : Q) : result Q :=
  if Qeq_bool b 0 then
    if Qeq_bool a 0 then Raise DecimalInvalidOperation
    else Raise DecimalDivisionByZero
  else Ok (a / b)%Q.

(** [x ** n] for a [Decimal] [x] and an integer [n]: [0 ** 0] is an
    invalid operation.  For a negative [n], [0 ** n] is the special value
    [Infinity] in Python; rationals have no such value, the model stops
    there with [DecimalInfinity], and the statements below that depend on
    exponents take them from recounts without negative entries.  The
    power is the exact one: in Python a result below the exponent range
    of the context becomes 0 or a subnormal number (Underflow is not
    trapped) and a result above it raises [Overflow], so that the
    program can raise where this function returns.  The general
    statements below hold whether a call returns or raises, or are about
    the calls that return, or about calls that compute no power. *)
Definition decimal_pow (x : Q) (n : Z) : result Q :=
  if Qeq_bool x 0 then
    if n =? 0 then Raise DecimalInvalidOperation
    else if n <? 0 then Raise DecimalInfinity
    else Ok 0%Q
  else Ok (x ^ n)%Q.

End Py.

Export Py.

Declare Scope py_scope.
Notation "x <- m ;; k" := (Py.bind m (fun x => k))
  (at level 61, m at next level, right associativity) : py_scope.
Local Open Scope py_scope.

(* ================================================================== *)
(** * utils.py                                                          *)
(* ================================================================== *)

Module Utils.

(** [get_W_L_sets(vote_count, n_winners)]; the values are integers for
    candidates and quotients for the pseudo-candidates of the
    proportional method. *)
Definition get_W_L_sets {K V : Type} `{PyOrd V}
  (vote_count : dict K V) (n_winners : Z) : list K * list K :=
  let tuples := vote_count in
  let sorted_tuples := sorted_reverse snd tuples in
  let W := map fst (slice_to n_winners sorted_tuples) in
  let L := map fst (slice_from n_winners sorted_tuples) in
  (W, L).

Definition d (s : Z) : Z := s + 1.

Definition t {K : Type} `{Hashable K} (p : K) (vote_count : dict K Z) : result Z :=
  getitem vote_count p.

Definition p {K : Type} `{Hashable K} (party : K) (vote_count : dict K Z) (s : Z)
  : result Q :=
  v <- t party vote_count ;; truediv v (d s).

Definition e {K : Type} `{Hashable K} (p : K) (reported recount : dict K Z)
  : result Z :=
  a <- t p reported ;; b <- t p recount ;; Ok (a - b).

(** [gamma(p, q, vote_count, Sw, Sl)]; the product of the two floats is
    converted to a [Decimal]. *)
Definition gamma (p q : string) (vote_count : dict string Z)
  (Sw Sl : option (dict string Z)) : result Q :=
  let Sw := match Sw with None => [(p, 0)] | Some Sw => Sw end in
  let Sl := match Sl with None => [(q, 0)] | Some Sl => Sl end in
  tp <- t p vote_count ;;
  tp' <- t p vote_count ;;
  tq <- t q vote_count ;;
  y1 <- truediv tp (tp' + tq) ;;
  sp <- getitem Sw p ;;
  sq <- getitem Sl q ;;
  sp' <- getitem Sw p ;;
  y2 <- truediv (d sp + d sq) (d sp') ;;
  Ok (y1 * y2)%Q.

(** The ballot-polling statistic: winner -> loser -> inverse p-value. *)
Definition Tmatrix : Type := dict string (dict string Q).

(** [T[winner][loser]] *)
Definition T_get (T : Tmatrix) (winner loser : string) : result Q :=
  row <- getitem T winner ;; getitem row loser.

(** The right-hand side [y1 ** recount[winner] * y2 ** recount[loser]]
    with [y1] and [y2] the two likelihood ratios. *)
Definition sprt_factor (vote_count recount : dict string Z)
  (Sw Sl : option (dict string Z)) (winner loser : string) : result Q :=
  y1 <- gamma winner loser vote_count Sw Sl ;;
  y2 <- gamma loser winner vote_count Sl Sw ;;
  rw <- getitem recount winner ;;
  a <- decimal_pow y1 rw ;;
  rl <- getitem recount loser ;;
  b <- decimal_pow y2 rl ;;
  Ok (a * b)%Q.

(** The value that the guarded statement
    [if T[winner][loser] < 1 / risk_limit: T[winner][loser] *= ...]
    leaves in the cell. *)
Definition sprt_update (vote_count recount : dict string Z) (risk_limit : Q)
  (Sw Sl : option (dict string Z)) (winner loser : string) (tv : Q) : result Q :=
  thr <- decimal_div 1 risk_limit ;;
  if Qltb tv thr then
    f <- sprt_factor vote_count recount Sw Sl winner loser ;;
    Ok (tv * f)%Q
  else Ok tv.

(** One iteration of the inner loop: the cell as stored afterwards and
    the running [max_p_value], or the exception raised.  An exception in
    the guarded update leaves the cell as it was; the division
    [1 / T[winner][loser]] comes after the store. *)
Definition sprt_cell (vote_count recount : dict string Z) (risk_limit : Q)
  (Sw Sl : option (dict string Z)) (winner loser : string) (tv max_p_value : Q)
  : Q * result Q :=
  match sprt_update vote_count recount risk_limit Sw Sl winner loser tv with
  | Raise ex => (tv, Raise ex)
  | Ok tv' => (tv', pv <- decimal_div 1 tv' ;; Ok (max2 max_p_value pv))
  end.

(** [for loser in T[winner]: ...] *)
Fixpoint sprt_row (vote_count recount : dict string Z) (risk_limit : Q)
  (Sw Sl : option (dict string Z)) (winner : string)
  (row : dict string Q) (max_p_value : Q) : dict string Q * result Q :=
  match row with
  | [] => ([], Ok max_p_value)
  | (loser, tv) :: rest =>
      match sprt_cell vote_count recount risk_limit Sw Sl winner loser tv max_p_value with
      | (tv', Raise ex) => ((loser, tv') :: rest, Raise ex)
      | (tv', Ok m) =>
          let (rest', r) :=
            sprt_row vote_count recount risk_limit Sw Sl winner rest m in
          ((loser, tv') :: rest', r)
      end
  end.

(** [for winner in T: ...] *)
Fixpoint sprt_rows (vote_count recount : dict string Z) (risk_limit : Q)
  (Sw Sl : option (dict string Z)) (T : Tmatrix) (max_p_value : Q)
  : Tmatrix * result Q :=
  match T with
  | [] => ([], Ok max_p_value)
  | (winner, row) :: rest =>
      match sprt_row vote_count recount risk_limit Sw Sl winner row max_p_value with
      | (row', Raise ex) => ((winner, row') :: rest, Raise ex)
      | (row', Ok m) =>
          let (rest', r) := sprt_rows vote_count recount risk_limit Sw Sl rest m in
          ((winner, row') :: rest', r)
      end
  end.

(** [ballot_polling_SPRT(vote_count, recount, T, risk_limit, Sw, Sl)]: the
    first component is the object [T] after the call, the second is the
    returned [max_p_value] (the returned [T] is that same object). *)
Definition ballot_polling_SPRT (vote_count recount : dict string Z)
  (T : Tmatrix) (risk_limit : Q) (Sw Sl : option (dict string Z))
  : Tmatrix * result Q :=
  sprt_rows vote_count recount risk_limit Sw Sl T 0%Q.

(** The quotient [x / y] computed for a pair [(pw, pl)] in [MICRO]. *)
Definition MICRO_term (reported table_report recount W L : dict string Z)
  (pw pl : string) : result Q :=
  sl <- getitem L pl ;;
  ew <- e pw table_report recount ;;
  sw <- getitem W pw ;;
  el <- e pl table_report recount ;;
  let x := d sl * ew - d sw * el in
  sl' <- getitem L pl ;;
  rw <- getitem reported pw ;;
  sw' <- getitem W pw ;;
  rl <- getitem reported pl ;;
  let y := d sl' * rw - d sw' * rl in
  truediv x y.

(** [MICRO(reported, table_report, recount, W, L)]; [W] and [L] are the
    dictionaries [Sw] and [Sl] of the audit, iterated by key. *)
Definition MICRO (reported table_report recount W L : dict string Z) : result Q :=
  foldM (fun micro pw =>
           foldM (fun micro pl =>
                    if key_eq_dec pw pl then Ok micro
                    else
                      q <- MICRO_term reported table_report recount W L pw pl ;;
                      Ok (max2 micro q))
                 (keys L) micro)
        (keys W) 0%Q.

(** [if not Sw: Sw = {w: 0 for w in Wp}]: [not Sw] holds for [None] and
    for the empty dictionary. *)
Definition default_S (o : option (dict string Z)) (ids : list string) : dict string Z :=
  match o with
  | Some (binding :: rest) => binding :: rest
  | Some [] | None => map (fun w => (w, 0)) ids
  end.

(** The quotient [curr_u] computed for a pair [(w, l)]. *)
Definition MICRO_upper_bound_term (reported Sw Sl : dict string Z)
  (w l : string) : result Q :=
  sl <- getitem Sl l ;;
  sw <- getitem Sw w ;;
  sl' <- getitem Sl l ;;
  rw <- getitem reported w ;;
  sw' <- getitem Sw w ;;
  rl <- getitem reported l ;;
  truediv (d sl + d sw) (d sl' * rw - d sw' * rl).

(** [MICRO_upper_bound(reported, Wp, Lp, Sw, Sl)] *)
Definition MICRO_upper_bound (reported : dict string Z) (Wp Lp : list string)
  (Sw Sl : option (dict string Z)) : result Q :=
  let Sw := default_S Sw Wp in
  let Sl := default_S Sl Lp in
  foldM (fun u w =>
           foldM (fun u l =>
                    if key_eq_dec w l then Ok u
                    else
                      curr_u <- MICRO_upper_bound_term reported Sw Sl w l ;;
                      Ok (max2 u curr_u))
                 Lp u)
        Wp 0%Q.

End Utils.

(* ================================================================== *)
(** * audits.py                                                         *)
(* ================================================================== *)

Module Audits.
Import Utils.

(** ** The tables handed over by pandas

    A [DataFrame] is the list of its rows; a missing [party] is [None]
    (NaN).  [groupby(col).sum()['votes'].to_dict()] drops the rows whose
    key is missing and lists the groups by ascending key.  The column
    [votes] has dtype [int64]: a sum of its values is kept in
    [-2^63, 2^63) by wrapping around, without any error. *)

Record Row : Type := {
  table : string;
  candidate : string;
  party : option string;
  votes : Z
}.

Definition DataFrame : Type := list Row.

Definition by_candidate (r : Row) : option string := Some (candidate r).

(** The [int64] that holds [z] modulo 2^64 (two's complement). *)
Definition int64 (z : Z) : Z := (z + 2 ^ 63) mod 2 ^ 64 - 2 ^ 63.

(** The running [int64] sum of the group [k] takes in [v] (a value of
    the column is an [int64] already: [int64 v] is [v] for it). *)
Fixpoint add_votes (k : string) (v : Z) (acc : dict string Z) : dict string Z :=
  match acc with
  | [] => [(k, int64 v)]
  | (k', v') :: acc' =>
      if key_eq_dec k k' then (k', int64 (v' + v)) :: acc'
      else (k', v') :: add_votes k v acc'
  end.

Definition group_votes (col : Row -> option string) (df : DataFrame) : dict string Z :=
  fold_left (fun acc r =>
               match col r with
               | Some k => add_votes k (votes r) acc
               | None => acc
               end) df [].

Definition groupby_sum (col : Row -> option string) (df : DataFrame) : dict string Z :=
  sorted fst (group_votes col df).

(** [df['party'] = df['party'].fillna('')] *)
Definition fillna_party (df : DataFrame) : DataFrame :=
  map (fun r => {| table := table r; candidate := candidate r;
                   party := Some (match party r with Some q => q | None => EmptyString end);
                   votes := votes r |}) df.

(** [df[df['party'] == party]] *)
Definition rows_of_party (df : DataFrame) (q : string) : DataFrame :=
  filter (fun r => match party r with
                   | Some q' => if key_eq_dec q' q then true else false
                   | None => false
                   end) df.

(** [Series.unique()]: the distinct values in order of first appearance. *)
Definition unique (l : list string) : list string :=
  fold_left (fun acc c => if contains acc c then acc else acc ++ [c]) l [].

(** ** Audit, Plurality, SuperMajority *)

Inductive AuditType : Type := BALLOTPOLLING | COMPARISON.

Inductive Statistic : Type :=
| Matrix (T : Tmatrix)   (* ballot-polling: the dict of dicts *)
| Beta (beta : Q).       (* batch-comparison: a number *)

(** Which class supplies [_vote_count_transform]. *)
Inductive AuditClass : Type := PluralityClass | SuperMajorityClass.

Record Audit : Type := {
  class_of : AuditClass;
  risk_limit : Q;
  audit_type : AuditType;
  n_winners : Z;
  vote_count : dict string Z;
  T : Statistic;
  Sw : option (dict string Z);
  Sl : option (dict string Z);
  candidates : list string;
  max_p_value : Q;
  preliminary : DataFrame;
  recount_df : DataFrame;
  W : list string;
  L : list string
}.

Definition is_ballot_polling (at' : AuditType) : bool :=
  match at' with BALLOTPOLLING => true | COMPARISON => false end.

(** [Plurality.__init__] *)
Definition Plurality_init (risk_limit : Q) (audit_type : AuditType) (n_winners : Z)
  (preliminary recount : DataFrame) : Audit :=
  let vote_count := groupby_sum by_candidate preliminary in
  let (W, L) := get_W_L_sets vote_count n_winners in
  {| class_of := PluralityClass;
     risk_limit := risk_limit;
     audit_type := audit_type;
     n_winners := n_winners;
     vote_count := vote_count;
     T := if is_ballot_polling audit_type
          then Matrix (map (fun winner =>
                              (winner, map (fun loser => (loser, 1%Q)) L)) W)
          else Beta 1%Q;
     Sw := Some (map (fun w => (w, 0)) W);
     Sl := Some (map (fun l => (l, 0)) L);
     candidates := keys vote_count;
     max_p_value := 1%Q;
     preliminary := preliminary;
     recount_df := recount;
     W := W;
     L := L |}.

(** [SuperMajority.__init__]: the parent constructor is called with the
    literal 1 for [n_winners]. *)
Definition SuperMajority_init (risk_limit : Q) (audit_type : AuditType)
  (preliminary recount : DataFrame) : Audit :=
  let self := Plurality_init risk_limit audit_type 1 preliminary recount in
  {| class_of := SuperMajorityClass;
     risk_limit := Audits.risk_limit self;
     audit_type := Audits.audit_type self;
     n_winners := n_winners self;
     vote_count := vote_count self;
     T := if is_ballot_polling audit_type
          then Matrix [("w"%string, [("l"%string, 1%Q)])]
          else Beta 1%Q;
     Sw := Some [("w"%string, 0)];
     Sl := Some [("l"%string, 0)];
     candidates := candidates self;
     max_p_value := max_p_value self;
     preliminary := Audits.preliminary self;
     recount_df := recount_df self;
     W := W self;
     L := L self |}.

(** [SuperMajority._vote_count_transform(self, vote_count)] *)
Definition SuperMajority_vote_count_transform (self : Audit)
  (vote_count : dict string Z) : result (dict string Z) :=
  let candidates := keys (Audits.vote_count self) in
  candidates <- sorted_reverse_M (fun c => getitem (Audits.vote_count self) c)
                                 candidates ;;
  let W := slice_to (n_winners self) candidates in
  let L := slice_from (n_winners self) candidates in
  w <- mapM (fun c => getitem vote_count c) W ;;
  l <- mapM (fun c => getitem vote_count c) L ;;
  Ok [("w"%string, sum w); ("l"%string, sum l)].

(** [self._vote_count_transform], resolved by class. *)
Definition vote_count_transform (self : Audit) (vote_count : dict string Z)
  : result (dict string Z) :=
  match class_of self with
  | PluralityClass => Ok vote_count
  | SuperMajorityClass => SuperMajority_vote_count_transform self vote_count
  end.

(** [self._vote_recount_transform]: the identity in [Audit], and
    [self._vote_count_transform(recount)] in [SuperMajority]. *)
Definition vote_recount_transform (self : Audit) (recount : dict string Z)
  : result (dict string Z) :=
  match class_of self with
  | PluralityClass => Ok recount
  | SuperMajorityClass => vote_count_transform self recount
  end.

(** [Audit._ballot_polling(self, recount, T)]: no store is touched when a
    transform raises. *)
Definition ballot_polling (self : Audit) (recount : dict string Z) (T : Tmatrix)
  : Tmatrix * result Q :=
  match vote_count_transform self (vote_count self) with
  | Raise ex => (T, Raise ex)
  | Ok transformed_count =>
      match vote_recount_transform self recount with
      | Raise ex => (T, Raise ex)
      | Ok transformed_recount =>
          ballot_polling_SPRT transformed_count transformed_recount T
                              (risk_limit self) (Sw self) (Sl self)
      end
  end.

(** The ballot-polling branch of [Audit.verify], up to the assignment of
    the returned pair to [self.T] and [self.max_p_value]. *)
Definition verify_ballot_polling (self : Audit) (T : Tmatrix) : Tmatrix * result Q :=
  let recount := groupby_sum by_candidate (recount_df self) in
  ballot_polling self recount T.

(** ** DHondt *)

Definition PseudoCandidate : Type := (string * Z)%type.

Record DHondt : Type := {
  dh_risk_limit : Q;
  dh_audit_type : AuditType;
  dh_n_winners : Z;
  dh_preliminary : DataFrame;
  dh_vote_count : dict string Z;
  dh_candidates : list string;
  dh_parties : list string;
  dh_party_members : dict string string;
  dh_members_per_party : dict string (list string);
  dh_pseudo_vote_count : dict PseudoCandidate Q;
  dh_W : list PseudoCandidate;
  dh_L : list PseudoCandidate;
  dh_winning_candidates : list string;
  dh_Sw : dict string Z;
  dh_Sl : dict string Z;
  dh_Wp : list string;
  dh_Lp : list string;
  dh_T : Statistic;
  dh_Tp : dict string Audit
}.

(** [list(p.sort_values('votes', ascending=False)['candidate'].unique())]
    for the rows [p] of one party (the order pandas gives to rows with
    equal votes is not fixed by its default sort; the stable one is used
    here). *)
Definition members_of (df : DataFrame) (q : string) : list string :=
  unique (map candidate (sorted_reverse votes (rows_of_party df q))).

(** The entries [(p, i): utils.p(p, vote_count, i)] contributed by a party. *)
Definition pseudo_of_party (vote_count : dict string Z)
  (members_per_party : dict string (list string)) (n_winners : Z) (q : string)
  : result (dict PseudoCandidate Q) :=
  if key_eq_dec q EmptyString then Ok []
  else
    members <- getitem members_per_party q ;;
    mapM (fun i => v <- p q vote_count i ;; Ok ((q, i), v))
         (range (Z.min n_winners (Z.of_nat (List.length members)))).

(** [{(p, i): ... for p in self.parties if p for i in range(...)}] *)
Definition pseudo_vote_count (vote_count : dict string Z)
  (members_per_party : dict string (list string)) (n_winners : Z)
  (parties : list string) : result (dict PseudoCandidate Q) :=
  groups <- mapM (pseudo_of_party vote_count members_per_party n_winners) parties ;;
  Ok (List.concat groups).

(** [[i for p, i in W if p == party]] *)
Definition indexes_of (X : list PseudoCandidate) (q : string) : list Z :=
  map snd (filter (fun x => if key_eq_dec (fst x) q then true else false) X).

(** [any([p == party for p, i in W])] *)
Definition holds_seat (W : list PseudoCandidate) (q : string) : bool :=
  existsb (fun x => if key_eq_dec (fst x) q then true else false) W.

(** [max([i for p, i in W if p == party]) + 1] *)
Definition seats (W : list PseudoCandidate) (q : string) : result Z :=
  m <- max_list (indexes_of W q) ;; Ok (m + 1).

(** The loop that fills [self.winning_candidates]. *)
Definition winning_candidates (parties : list string)
  (members_per_party : dict string (list string)) (W : list PseudoCandidate)
  : result (list string) :=
  foldM (fun acc q =>
           if holds_seat W q then
             n <- seats W q ;;
             members <- getitem members_per_party q ;;
             Ok (acc ++ slice_to n members)
           else Ok acc)
        parties [].

(** The loops that fill [self.Sw] and [self.Sl]. *)
Definition seat_bound (pick : list Z -> result Z) (X : list PseudoCandidate)
  (parties : list string) : result (dict string Z) :=
  foldM (fun acc q =>
           match indexes_of X q with
           | [] => Ok acc
           | i :: rest => m <- pick (i :: rest) ;; Ok (setitem acc q m)
           end)
        parties [].

(** The loops that fill [self.Wp] and [self.Lp]. *)
Definition parties_in (X : list PseudoCandidate) : list string :=
  fold_left (fun acc x => if contains acc (fst x) then acc else acc ++ [fst x]) X [].

(** [DHondt.__init__] *)
Definition DHondt_init (risk_limit : Q) (audit_type : AuditType) (n_winners : Z)
  (preliminary recount : DataFrame) : result DHondt :=
  let preliminary := fillna_party preliminary in
  let vote_count := groupby_sum party preliminary in
  let candidate_count := groupby_sum by_candidate preliminary in
  let candidates := keys candidate_count in
  let parties := keys vote_count in
  let members_per_party := map (fun q => (q, members_of preliminary q)) parties in
  let party_members :=
    fold_left (fun acc q =>
                 fold_left (fun acc c => setitem acc c q) (members_of preliminary q) acc)
              parties [] in
  pvc <- pseudo_vote_count vote_count members_per_party n_winners parties ;;
  let (W, L) := get_W_L_sets pvc n_winners in
  wc <- winning_candidates parties members_per_party W ;;
  Sw <- seat_bound max_list W parties ;;
  Sl <- seat_bound min_list L parties ;;
  let Wp := parties_in W in
  let Lp := parties_in L in
  Tp <- mapM (fun q =>
                n <- seats W q ;;
                Ok (q, Plurality_init risk_limit audit_type n
                                      (rows_of_party preliminary q) recount))
             Wp ;;
  Ok {| dh_risk_limit := risk_limit;
        dh_audit_type := audit_type;
        dh_n_winners := n_winners;
        dh_preliminary := preliminary;
        dh_vote_count := vote_count;
        dh_candidates := candidates;
        dh_parties := parties;
        dh_party_members := party_members;
        dh_members_per_party := members_per_party;
        dh_pseudo_vote_count := pvc;
        dh_W := W;
        dh_L := L;
        dh_winning_candidates := wc;
        dh_Sw := Sw;
        dh_Sl := Sl;
        dh_Wp := Wp;
        dh_Lp := Lp;
        dh_T := if is_ballot_polling audit_type
                then Matrix (map (fun winner =>
                       (winner,
                        map (fun loser => (loser, 1%Q))
                            (filter (fun loser =>
                                       if key_eq_dec winner loser then false else true)
                                    Lp))) Wp)
                else Beta 1%Q;
        dh_Tp := Tp |}.

End Audits.

(* ================================================================== *)
(** * Vocabulary of the properties                                      *)
(* ================================================================== *)

Module Props.
Import Utils Audits.

(** Every cell of the matrix is strictly positive. *)
Definition all_positive (T : Tmatrix) : Prop :=
  Forall (fun row => Forall (fun cell => (0 < snd cell)%Q) (snd row)) T.

(** No cell of the matrix is negative. *)
Definition all_nonneg (T : Tmatrix) : Prop :=
  Forall (fun row => Forall (fun cell => (0 <= snd cell)%Q) (snd row)) T.

(** A mapping to non-negative integers. *)
Definition nonneg {K : Type} (m : dict K Z) : Prop :=
  Forall (fun binding => 0 <= snd binding) m.

(** Seat indexes, when given, are non-negative. *)
Definition nonneg_seats (S : option (dict string Z)) : Prop :=
  match S with
  | None => True
  | Some m => nonneg m
  end.

(** The votes of the table are not negative and their total fits in an
    [int64]: no sum that pandas computes over rows of the table wraps. *)
Definition fits_int64 (df : Audits.DataFrame) : Prop :=
  (forall r, In r df -> 0 <= Audits.votes r) /\
  sum (map Audits.votes df) < 2 ^ 63.

(** The arguments of one call of [ballot_polling_SPRT] besides [T]. *)
Record Call : Type := {
  call_vote_count : dict string Z;
  call_recount : dict string Z;
  call_risk_limit : Q;
  call_Sw : option (dict string Z);
  call_Sl : option (dict string Z)
}.

Definition run_call (c : Call) (T : Tmatrix) : Tmatrix * result Q :=
  ballot_polling_SPRT (call_vote_count c) (call_recount c) T
                      (call_risk_limit c) (call_Sw c) (call_Sl c).

(** [calls_return T cs T']: the calls [cs], made one after the other on the
    matrix [T], all return, and leave the matrix [T']. *)
Inductive calls_return : Tmatrix -> list Call -> Tmatrix -> Prop :=
| calls_nil : forall T, calls_return T [] T
| calls_cons : forall T c cs T1 m T',
    run_call c T = (T1, Ok m) ->
    calls_return T1 cs T' ->
    calls_return T (c :: cs) T'.

(** The matrix left by the calls [cs], made one after the other on the
    object [T], whether they return or raise. *)
Definition after_calls (T : Tmatrix) (cs : list Call) : Tmatrix :=
  fold_left (fun T c => fst (run_call c T)) cs T.

(** The cell [c'] is the cell [c] of the row of [w] after a guarded
    update that was followed by a successful [1 / T[winner][loser]]. *)
Definition cell_updated (vote_count recount : dict string Z) (risk_limit : Q)
  (Sw Sl : option (dict string Z)) (w : string) (c c' : string * Q) : Prop :=
  fst c' = fst c /\
  sprt_update vote_count recount risk_limit Sw Sl w (fst c) (snd c) = Ok (snd c') /\
  ~ (snd c' == 0)%Q.

(** The seat index of [k] is 0: [S] is absent ([gamma] then uses 0) or
    maps [k] to 0, as in the plurality audits. *)
Definition zero_seat (S : option (dict string Z)) (k : string) : Prop :=
  match S with
  | None => True
  | Some m => getitem m k = Ok 0
  end.

(** [m[k]] where it is defined, and 0 elsewhere. *)
Definition get0 (m : dict string Z) (k : string) : Z :=
  match getitem m k with
  | Ok v => v
  | Raise _ => 0
  end.

Definition has_key (m : dict string Z) (k : string) : Prop :=
  exists v, getitem m k = Ok v.

(** The ids of [lb] other than [a]. *)
Definition others (a : string) (lb : list string) : list string :=
  filter (fun b => if key_eq_dec a b then false else true) lb.

(** The pairs of distinct ids, first id from [la], second from [lb]. *)
Definition distinct_pairs (la lb : list string) : list (string * string) :=
  flat_map (fun a => map (pair a) (others a lb)) la.

(** The shape shared by the loops of [MICRO] and [MICRO_upper_bound]: a
    running maximum over the pairs of distinct ids of a term that may
    raise. *)
Definition inner_loop (term : string -> string -> result Q)
  (a : string) (lb : list string) (s : Q) : result Q :=
  foldM (fun s b =>
           if key_eq_dec a b then Ok s else q <- term a b ;; Ok (max2 s q))
        lb s.

Definition max_loop (term : string -> string -> result Q)
  (la lb : list string) (s : Q) : result Q :=
  foldM (fun s a => inner_loop term a lb s) la s.

(** [m] is the maximum of the numbers [qs]. *)
Definition is_max_of (m : Q) (qs : list Q) : Prop :=
  (exists q, In q qs /\ (m == q)%Q) /\ (forall q, In q qs -> (q <= m)%Q).

(** Following the specification of [tableMicro], with its [d(s) = s + 1]
    written out: the numerator uses the totals of the table, the
    denominator the totals of the contest. *)
Definition micro_x (tableReported tableRecount Sw Sl : dict string Z)
  (w l : string) : Z :=
  (get0 Sl l + 1) * (get0 tableReported w - get0 tableRecount w)
  - (get0 Sw w + 1) * (get0 tableReported l - get0 tableRecount l).

Definition micro_y (contestReported Sw Sl : dict string Z) (w l : string) : Z :=
  (get0 Sl l + 1) * get0 contestReported w
  - (get0 Sw w + 1) * get0 contestReported l.

(** The ratio [x / y] of a pair exists: the ids have totals in the three
    mappings and the denominator is not zero. *)
Definition micro_defined (contestReported tableReported tableRecount Sw Sl : dict string Z)
  (w l : string) : Prop :=
  has_key tableReported w /\ has_key tableRecount w /\
  has_key tableReported l /\ has_key tableRecount l /\
  has_key contestReported w /\ has_key contestReported l /\
  micro_y contestReported Sw Sl w l <> 0.

Definition micro_ratio (contestReported tableReported tableRecount Sw Sl : dict string Z)
  (w l : string) : Q :=
  (inject_Z (micro_x tableReported tableRecount Sw Sl w l)
   / inject_Z (micro_y contestReported Sw Sl w l))%Q.

(** The ids of a pair have seat indexes and contest totals. *)
Definition bound_keys (reported Sw Sl : dict string Z) (w l : string) : Prop :=
  has_key Sw w /\ has_key Sl l /\ has_key reported w /\ has_key reported l.

(** The per-pair term of the contest bound. *)
Definition bound_term (reported Sw Sl : dict string Z) (w l : string) : Q :=
  (inject_Z (Utils.d (get0 Sl l) + Utils.d (get0 Sw w))
   / inject_Z (micro_y reported Sw Sl w l))%Q.

(** Following the specification of the super-majority collapse when it is
    read as ranking the candidates afresh: the two buckets of a mapping,
    the ranking being taken from that same mapping. *)
Definition collapse_fresh (n_winners : Z) (m : dict string Z) : dict string Z :=
  let (W, L) := Utils.get_W_L_sets m n_winners in
  [("w"%string, sum (map (get0 m) W)); ("l"%string, sum (map (get0 m) L))].

(** The entries of a party with [v] votes and [k] pseudo-candidates. *)
Definition pseudo_entries (q : string) (v k : Z) : dict Audits.PseudoCandidate Q :=
  map (fun i => ((q, i), (inject_Z v / inject_Z (Utils.d i))%Q)) (range k).

(** The pseudo-candidates of a list of parties, party after party; the
    party with the empty name has none. *)
Definition pseudo_table (vote_count : dict string Z) (size : string -> Z)
  (parties : list string) : dict Audits.PseudoCandidate Q :=
  flat_map (fun q => if key_eq_dec q EmptyString then []
                     else pseudo_entries q (get0 vote_count q) (size q))
           parties.

(** Two pseudo-candidates of the same party come by increasing index. *)
Definition index_order (a b : Audits.PseudoCandidate) : Prop :=
  fst a = fst b -> snd a < snd b.

(** The rows whose key in column [col] is [k]. *)
Definition in_group (col : Audits.Row -> option string) (k : string)
  (r : Audits.Row) : bool :=
  match col r with
  | Some k' => if key_eq_dec k' k then true else false
  | None => false
  end.

(** The row has no party: the field is missing or holds the empty name. *)
Definition no_party (r : Audits.Row) : bool :=
  match Audits.party r with
  | None => true
  | Some q => if key_eq_dec q EmptyString then true else false
  end.

End Props.

(* ================================================================== *)
(** * utils.py and audits.py: the remaining functions                   *)
(* ================================================================== *)

Module UtilsRest.
Import Utils.

(** [for loser in T[winner]: if T[winner][loser] < 1 / alpha: return False] *)
Fixpoint validate_row (row : dict string Q) (alpha : Q) : result bool :=
  match row with
  | [] => Ok true
  | (loser, tv) :: rest =>
      thr <- decimal_div 1 alpha ;;
      if Qltb tv thr then Ok false else validate_row rest alpha
  end.

(** [validate_ballot_polling(T, alpha)], with the [Decimal] risk limit of
    the audits for [alpha]. *)
Fixpoint validate_ballot_polling (T : Tmatrix) (alpha : Q) : result bool :=
  match T with
  | [] => Ok true
  | (winner, row) :: rest =>
      ok <- validate_row row alpha ;;
      if ok then validate_ballot_polling rest alpha else Ok false
  end.

(** [a / b] on Python floats. *)
Definition float_div (a b : Q) : result Q :=
  if Qeq_bool b 0 then Raise ZeroDivisionError else Ok (a / b)%Q.

(** [batch_comparison_SPRT(reported_count, table_report, table_recount, W,
    L, um, U, gamma)] on Python floats [um], [U] and [gamma]. *)
Definition batch_comparison_SPRT
  (reported_count table_report table_recount W L : dict string Z)
  (um U gamma : Q) : result Q :=
  micro <- MICRO reported_count table_report table_recount W L ;;
  Dm <- float_div micro um ;;
  let num := (gamma * (1 - Dm))%Q in
  inv <- float_div 1 U ;;
  q <- float_div num (1 - inv) ;;
  Ok (q + 1 - gamma)%Q.

End UtilsRest.

Module AuditsRest.
Import Utils Audits.

(** The statement [accum_recount[candidate] += recount[candidate]]: the
    dictionary after it, or [KeyError] when the candidate has no entry. *)
Definition add_to (accum recount : dict string Z) (candidate : string)
  : result (dict string Z) :=
  cur <- getitem accum candidate ;;
  v <- getitem recount candidate ;;
  Ok (setitem accum candidate (cur + v)).

(** The ballot-polling branch of [Audit._update_accum_recount]: the
    dictionary [accum_recount] is updated in place, so it is returned as
    the call leaves it together with the outcome. *)
Fixpoint update_accum_loop (recount : dict string Z) (candidates : list string)
  (accum : dict string Z) : dict string Z * result unit :=
  match candidates with
  | [] => (accum, Ok tt)
  | candidate :: rest =>
      match add_to accum recount candidate with
      | Raise ex => (accum, Raise ex)
      | Ok accum' => update_accum_loop recount rest accum'
      end
  end.

Definition update_accum_recount (accum_recount recount : dict string Z)
  : dict string Z * result unit :=
  update_accum_loop recount (keys recount) accum_recount.

(** One iteration of the loop of [DHondt._vote_recount_transform]. *)
Definition recount_step (party_members : dict string string)
  (recount : dict string Z) (transformed : dict string Z) (candidate : string)
  : result (dict string Z) :=
  q <- getitem party_members candidate ;;
  let transformed :=
    if contains (keys transformed) q then transformed else setitem transformed q 0 in
  cur <- getitem transformed q ;;
  v <- getitem recount candidate ;;
  Ok (setitem transformed q (cur + v)).

(** [DHondt._vote_recount_transform(self, recount)] *)
Definition DHondt_vote_recount_transform (self : DHondt) (recount : dict string Z)
  : result (dict string Z) :=
  foldM (recount_step (dh_party_members self) recount) (keys recount) [].

End AuditsRest.

(** Vocabulary of the further properties. *)
Module MoreProps.
Import Utils Audits Props.

(** The cells of the matrix, row after row. *)
Definition cells (T : Tmatrix) : list (string * Q) := flat_map snd T.

(** The p-value [1 / T[winner][loser]] of a cell. *)
Definition p_value (cell : string * Q) : Q := (1 / snd cell)%Q.

(** The winners of the matrix, each with the losers of its row. *)
Definition shape (T : Tmatrix) : list (string * list string) :=
  map (fun row => (fst row, keys (snd row))) T.

(** The cell has reached the threshold [1 / alpha]. *)
Definition at_threshold (alpha : Q) (cell : string * Q) : Prop :=
  exists thr, decimal_div 1 alpha = Ok thr /\ (thr <= snd cell)%Q.

(** The candidates of [l] that [party_members] sends to party [q]. *)
Definition members_in (party_members : dict string string) (q : string)
  (l : list string) : list string :=
  filter (fun c => match getitem party_members c with
                   | Ok q' => if key_eq_dec q' q then true else false
                   | Raise _ => false
                   end) l.

(** The party of a row once [fillna('')] has been applied. *)
Definition party_or_empty (r : Row) : string :=
  match party r with
  | Some q => q
  | None => EmptyString
  end.

End MoreProps.

(* ================================================================== *)
(** * Reasoning about computations that may raise                       *)
(* ================================================================== *)

Lemma bind_Ok {A B : Type} (m : result A) (k : A -> result B) (y : B) :
  Py.bind m k = Ok y -> exists x, m = Ok x /\ k x = Ok y.
Proof.
  destruct m as [x|ex]; simpl; [|discriminate]. intros Hk. exists x. auto.
Qed.

(** [inv_bind H] splits a hypothesis [x <- m ;; ... = Ok y] into the
    successful steps it is made of. *)
Ltac inv_bind H :=
  repeat match type of H with
         | Py.bind _ _ = Ok _ =>
             let x := fresh "x" in
             let Hx := fresh "Hx" in
             apply bind_Ok in H; destruct H as [x [Hx H]]
         end.

Lemma getitem_In {K V : Type} `{Hashable K} (m : dict K V) (k : K) (v : V) :
  getitem m k = Ok v -> In (k, v) m.
Proof.
  induction m as [|[k0 v0] m IH]; simpl; [discriminate|].
  destruct (key_eq_dec k k0) as [->|Hne].
  - intros Heq. injection Heq as ->. left. reflexivity.
  - intros Hget. right. apply IH, Hget.
Qed.

(* ================================================================== *)
(** * The ballot-polling statistic                                      *)
(* ================================================================== *)

Section SPRT.
Import Utils Audits Props.

Variables (vote_count recount : dict string Z) (risk_limit : Q).
Variables (Sw Sl : option (dict string Z)).

Local Abbreviation update := (sprt_update vote_count recount risk_limit Sw Sl).
Local Abbreviation cell := (sprt_cell vote_count recount risk_limit Sw Sl).
Local Abbreviation row_loop := (sprt_row vote_count recount risk_limit Sw Sl).
Local Abbreviation rows_loop := (sprt_rows vote_count recount risk_limit Sw Sl).

(** What a cell can hold after the loop body ran on it. *)
Lemma sprt_cell_store (w l : string) (tv m : Q) :
  fst (cell w l tv m) = tv \/ update w l tv = Ok (fst (cell w l tv m)).
Proof.
  unfold sprt_cell. destruct (update w l tv) as [tv'|ex]; simpl; auto.
Qed.

Lemma sprt_cell_ok (w l : string) (tv m tv' m' : Q) :
  cell w l tv m = (tv', Ok m') ->
  update w l tv = Ok tv' /\ ~ (tv' == 0)%Q.
Proof.
  unfold sprt_cell. destruct (update w l tv) as [v|ex]; [|discriminate].
  intros Heq. injection Heq as <- Hm. split; [reflexivity|].
  unfold decimal_div in Hm. destruct (Qeq_bool v 0) eqn:Hz.
  - destruct (Qeq_bool 1 0); discriminate.
  - apply Qeq_bool_neq. exact Hz.
Qed.

(** A cell is looked up by its key before and after the inner loop. *)
Lemma sprt_row_get (w l : string) (row : dict string Q) (m v : Q) :
  getitem row l = Ok v ->
  exists v', getitem (fst (row_loop w row m)) l = Ok v' /\
             (v' = v \/ update w l v = Ok v').
Proof.
  revert m. induction row as [|[l0 tv] rest IH]; intros m; simpl; [discriminate|].
  intros Hget.
  pose proof (sprt_cell_store w l0 tv m) as Hstore.
  destruct (cell w l0 tv m) as [tv' [m'|ex]] eqn:Hcell; simpl in Hstore.
  - specialize (IH m').
    destruct (row_loop w rest m') as [rest' r]; simpl in *.
    destruct (key_eq_dec l l0) as [->|Hne].
    + injection Hget as <-. exists tv'. split; [reflexivity|].
      destruct Hstore; auto.
    + apply IH, Hget.
  - simpl. destruct (key_eq_dec l l0) as [->|Hne].
    + injection Hget as <-. exists tv'. split; [reflexivity|].
      destruct Hstore; auto.
    + exists v. auto.
Qed.

Lemma sprt_rows_get (T : Tmatrix) (w l : string) (m v : Q) :
  T_get T w l = Ok v ->
  exists v', T_get (fst (rows_loop T m)) w l = Ok v' /\
             (v' = v \/ update w l v = Ok v').
Proof.
  unfold T_get. revert m.
  induction T as [|[w0 row] rest IH]; intros m; simpl; [discriminate|].
  intros Hget.
  pose proof (sprt_row_get w0 l row m v) as Hrow.
  destruct (row_loop w0 row m) as [row' [m'|ex]] eqn:Hloop; simpl in Hrow.
  - specialize (IH m').
    destruct (rows_loop rest m') as [rest' r]; simpl in *.
    destruct (key_eq_dec w w0) as [->|Hne]; simpl in *; auto.
  - simpl. destruct (key_eq_dec w w0) as [->|Hne]; simpl in *; auto.
    exists v. auto.
Qed.

(** When the loops run to the end, every cell went through the update and
    through the division [1 / T[winner][loser]]. *)
Local Abbreviation updated := (cell_updated vote_count recount risk_limit Sw Sl).

Lemma sprt_row_ok (w : string) (row row' : dict string Q) (m m' : Q) :
  row_loop w row m = (row', Ok m') -> Forall2 (updated w) row row'.
Proof.
  revert m row'. induction row as [|[l0 tv] rest IH]; intros m row'; simpl.
  - intros Heq. injection Heq as <- _. constructor.
  - destruct (cell w l0 tv m) as [tv' [m1|ex]] eqn:Hcell; [|discriminate].
    destruct (row_loop w rest m1) as [rest' r] eqn:Hrest.
    intros Heq. injection Heq as <- ->.
    apply sprt_cell_ok in Hcell. constructor.
    + unfold cell_updated. simpl. tauto.
    + eapply IH. exact Hrest.
Qed.

Lemma sprt_rows_ok (T T' : Tmatrix) (m m' : Q) :
  rows_loop T m = (T', Ok m') ->
  Forall2 (fun r r' => fst r' = fst r /\ Forall2 (updated (fst r)) (snd r) (snd r'))
          T T'.
Proof.
  revert m T'. induction T as [|[w0 row] rest IH]; intros m T'; simpl.
  - intros Heq. injection Heq as <- _. constructor.
  - destruct (row_loop w0 row m) as [row' [m1|ex]] eqn:Hrow; [|discriminate].
    destruct (rows_loop rest m1) as [rest' r] eqn:Hrest.
    intros Heq. injection Heq as <- ->.
    constructor.
    + simpl. split; [reflexivity|]. eapply sprt_row_ok. exact Hrow.
    + eapply IH. exact Hrest.
Qed.

End SPRT.

(** ** Arithmetic of the likelihood ratios *)

Lemma truediv_nonneg (a b : Z) (q : Q) :
  0 <= a -> 0 <= b -> truediv a b = Ok q -> (0 <= q)%Q.
Proof.
  intros Ha Hb. unfold truediv. destruct (b =? 0) eqn:Hz; [discriminate|].
  intros Heq. injection Heq as <-. apply Z.eqb_neq in Hz.
  apply Qle_shift_div_l.
  - unfold Qlt. simpl. lia.
  - rewrite Qmult_0_l. unfold Qle. simpl. lia.
Qed.

Lemma getitem_nonneg {K : Type} `{Hashable K} (m : dict K Z) (k : K) (v : Z) :
  Props.nonneg m -> getitem m k = Ok v -> 0 <= v.
Proof.
  intros Hm Hget. apply getitem_In in Hget.
  unfold Props.nonneg in Hm. rewrite Forall_forall in Hm.
  apply (Hm _ Hget).
Qed.

Lemma seat_nonneg (S : option (dict string Z)) (k : string) (v : Z) :
  Props.nonneg_seats S ->
  getitem (match S with Some m => m | None => [(k, 0)] end) k = Ok v -> 0 <= v.
Proof.
  destruct S as [m|]; simpl.
  - apply getitem_nonneg.
  - intros _. destruct (key_eq_dec k k); [|congruence].
    intros Heq. injection Heq as <-. lia.
Qed.

Lemma gamma_nonneg (a b : string) (vc : dict string Z)
  (S1 S2 : option (dict string Z)) (y : Q) :
  Props.nonneg vc -> Props.nonneg_seats S1 -> Props.nonneg_seats S2 ->
  Utils.gamma a b vc S1 S2 = Ok y -> (0 <= y)%Q.
Proof.
  intros Hvc H1 H2 Hg. unfold Utils.gamma, Utils.t in Hg.
  inv_bind Hg. injection Hg as <-.
  pose proof (getitem_nonneg _ _ _ Hvc Hx).
  pose proof (getitem_nonneg _ _ _ Hvc Hx0).
  pose proof (getitem_nonneg _ _ _ Hvc Hx1).
  pose proof (seat_nonneg _ _ _ H1 Hx3).
  pose proof (seat_nonneg _ _ _ H2 Hx4).
  pose proof (seat_nonneg _ _ _ H1 Hx5).
  apply Qmult_le_0_compat.
  - eapply truediv_nonneg; [| |exact Hx2]; lia.
  - eapply truediv_nonneg; [| |exact Hx6]; unfold Utils.d; lia.
Qed.

Lemma decimal_pow_nonneg (x : Q) (n : Z) (y : Q) :
  (0 <= x)%Q -> decimal_pow x n = Ok y -> (0 <= y)%Q.
Proof.
  intros Hx. unfold decimal_pow. destruct (Qeq_bool x 0).
  - destruct (n =? 0); [discriminate|]. destruct (n <? 0); [discriminate|].
    intros Heq. injection Heq as <-. apply Qle_refl.
  - intros Heq. injection Heq as <-. apply Qpower_0_le, Hx.
Qed.

Lemma sprt_factor_nonneg (vc rc : dict string Z) (S1 S2 : option (dict string Z))
  (w l : string) (f : Q) :
  Props.nonneg vc -> Props.nonneg_seats S1 -> Props.nonneg_seats S2 ->
  Utils.sprt_factor vc rc S1 S2 w l = Ok f -> (0 <= f)%Q.
Proof.
  intros Hvc H1 H2 Hf. unfold Utils.sprt_factor in Hf.
  inv_bind Hf. injection Hf as <-.
  apply Qmult_le_0_compat.
  - eapply decimal_pow_nonneg; [|exact Hx2].
    exact (gamma_nonneg _ _ _ _ _ _ Hvc H1 H2 Hx).
  - eapply decimal_pow_nonneg; [|exact Hx4].
    exact (gamma_nonneg _ _ _ _ _ _ Hvc H2 H1 Hx0).
Qed.

(** The guarded update, case by case. *)
Lemma sprt_update_cases (vc rc : dict string Z) (alpha : Q)
  (S1 S2 : option (dict string Z)) (w l : string) (v v' : Q) :
  Utils.sprt_update vc rc alpha S1 S2 w l v = Ok v' ->
  ~ (alpha == 0)%Q /\
  ((Qltb v (1 / alpha) = false /\ v' = v) \/
   (Qltb v (1 / alpha) = true /\
    exists f, Utils.sprt_factor vc rc S1 S2 w l = Ok f /\ v' = (v * f)%Q)).
Proof.
  unfold Utils.sprt_update, decimal_div.
  destruct (Qeq_bool alpha 0) eqn:Hz.
  - destruct (Qeq_bool 1 0); discriminate.
  - simpl. apply Qeq_bool_neq in Hz. intros Hup. split; [exact Hz|].
    destruct (Qltb v (1 / alpha)).
    + right. split; [reflexivity|].
      destruct (Utils.sprt_factor vc rc S1 S2 w l) as [f|]; [|discriminate].
      injection Hup as <-. exists f. auto.
    + left. injection Hup as <-. auto.
Qed.

Lemma sprt_update_positive (vc rc : dict string Z) (alpha : Q)
  (S1 S2 : option (dict string Z)) (w l : string) (v v' : Q) :
  Props.nonneg vc -> Props.nonneg_seats S1 -> Props.nonneg_seats S2 ->
  (0 < v)%Q ->
  Utils.sprt_update vc rc alpha S1 S2 w l v = Ok v' ->
  ~ (v' == 0)%Q -> (0 < v')%Q.
Proof.
  intros Hvc H1 H2 Hv Hup Hnz.
  apply sprt_update_cases in Hup. destruct Hup as [_ [[_ ->]|[_ [f [Hf ->]]]]].
  - exact Hv.
  - apply sprt_factor_nonneg in Hf; auto.
    destruct (Qle_lt_or_eq _ _ Hf) as [Hpos|Hzero].
    + apply Qmult_lt_0_compat; assumption.
    + exfalso. apply Hnz. rewrite <- Hzero. ring.
Qed.

(** ** Properties of [ballot_polling_SPRT] *)

Section SPRT_claims.
Import Utils Audits Props.
Local Open Scope string_scope.

(** C2. A cell that has reached the threshold is frozen: if
    [T[w][l] >= 1 / risk_limit] before a call of [ballot_polling_SPRT],
    the object [T] holds the same value in that cell after the call,
    whatever the vote count, the recount and the seat indexes are, and
    whether the call returns or raises. *)
Theorem C2_frozen_entry_unchanged
  (vote_count recount : dict string Z) (T : Tmatrix) (risk_limit : Q)
  (Sw Sl : option (dict string Z)) (w l : string) (v thr : Q) :
  T_get T w l = Ok v ->
  decimal_div 1 risk_limit = Ok thr ->
  (thr <= v)%Q ->
  T_get (fst (ballot_polling_SPRT vote_count recount T risk_limit Sw Sl)) w l = Ok v.
Proof.
  intros Hget Hthr Hle. unfold ballot_polling_SPRT.
  destruct (sprt_rows_get vote_count recount risk_limit Sw Sl T w l 0%Q v Hget)
    as [v' [Hget' [->|Hup]]]; [exact Hget'|].
  rewrite Hget'. f_equal.
  unfold sprt_update in Hup. rewrite Hthr in Hup. simpl in Hup.
  assert (Hfrozen : Qltb v thr = false).
  { unfold Qltb. apply negb_false_iff, Qle_bool_iff, Hle. }
  rewrite Hfrozen in Hup. congruence.
Qed.

Lemma C2_frozen_entry_unchanged_witness :
  let T := [("a", [("b", 4%Q)])] in
  T_get T "a" "b" = Ok 4%Q /\
  decimal_div 1 (1 # 2) = Ok 2%Q /\
  (2 <= 4)%Q /\
  T_get (fst (ballot_polling_SPRT [("a", 3); ("b", 1)] [("a", 5); ("b", 7)] T
                                  (1 # 2) None None)) "a" "b" = Ok 4%Q.
Proof.
  assert (H1 : T_get [("a", [("b", 4%Q)])] "a" "b" = Ok 4%Q) by reflexivity.
  assert (H2 : decimal_div 1 (1 # 2) = Ok 2%Q) by reflexivity.
  assert (H3 : (2 <= 4)%Q) by (unfold Qle; simpl; lia).
  split; [exact H1|]. split; [exact H2|]. split; [exact H3|].
  exact (C2_frozen_entry_unchanged [("a", 3); ("b", 1)] [("a", 5); ("b", 7)] _
           (1 # 2) None None "a" "b" 4%Q 2%Q H1 H2 H3).
Defined.

(** C1, as stated, fails: with preliminary counts a = 3, b = 1, a recount
    of one ballot for the loser b and none for the winner a, and risk
    limit 1/2, the call returns and takes [T["a"]["b"]] from 1 down to
    1/2. *)
Lemma C1_counterexample :
  let vote_count := [("a", 3); ("b", 1)] in
  let recount := [("a", 0); ("b", 1)] in
  let T := [("a", [("b", 1%Q)])] in
  nonneg vote_count /\ nonneg recount /\
  T_get T "a" "b" = Ok 1%Q /\
  exists T' m v',
    ballot_polling_SPRT vote_count recount T (1 # 2)
                        (Some [("a", 0)]) (Some [("b", 0)]) = (T', Ok m) /\
    T_get T' "a" "b" = Ok v' /\ (v' < 1)%Q.
Proof.
  cbv zeta. split; [|split; [|split]].
  - repeat constructor; simpl; lia.
  - repeat constructor; simpl; lia.
  - reflexivity.
  - eexists. eexists. eexists. split; [vm_compute; reflexivity|].
    split; [vm_compute; reflexivity|]. unfold Qlt. simpl. lia.
Qed.

(** C1, amended. After a call of [ballot_polling_SPRT] with a recount
    without negative entries, the cell [T[w][l]] is at least its previous
    value, provided that previous value is not negative and the factor [gamma(w, l) ** recount[w] * gamma(l, w) **
    recount[l]] by which a cell below the threshold is multiplied is at
    least 1 whenever it is defined. *)
Theorem C1_entry_grows_when_factor_at_least_1
  (vote_count recount : dict string Z) (T : Tmatrix) (risk_limit : Q)
  (Sw Sl : option (dict string Z)) (w l : string) (v : Q) :
  nonneg recount ->
  T_get T w l = Ok v ->
  (0 <= v)%Q ->
  (forall f, sprt_factor vote_count recount Sw Sl w l = Ok f -> (1 <= f)%Q) ->
  exists v',
    T_get (fst (ballot_polling_SPRT vote_count recount T risk_limit Sw Sl)) w l
    = Ok v' /\ (v <= v')%Q.
Proof.
  intros _ Hget Hv Hf. unfold ballot_polling_SPRT.
  destruct (sprt_rows_get vote_count recount risk_limit Sw Sl T w l 0%Q v Hget)
    as [v' [Hget' Hcases]].
  exists v'. split; [exact Hget'|].
  destruct Hcases as [->|Hup]; [apply Qle_refl|].
  apply sprt_update_cases in Hup.
  destruct Hup as [_ [[_ ->]|[_ [f [Hfac ->]]]]]; [apply Qle_refl|].
  specialize (Hf f Hfac).
  setoid_replace v with (v * 1)%Q at 1 by ring.
  rewrite !(Qmult_comm v). apply Qmult_le_compat_r; assumption.
Qed.

Lemma C1_entry_grows_when_factor_at_least_1_witness :
  exists v',
    T_get (fst (ballot_polling_SPRT [("a", 3); ("b", 1)] [("a", 1); ("b", 0)]
                                    [("a", [("b", 1%Q)])] (1 # 2)
                                    (Some [("a", 0)]) (Some [("b", 0)])))
          "a" "b" = Ok v' /\ (1 <= v')%Q.
Proof.
  apply (C1_entry_grows_when_factor_at_least_1
           [("a", 3); ("b", 1)] [("a", 1); ("b", 0)] [("a", [("b", 1%Q)])]
           (1 # 2) (Some [("a", 0)]) (Some [("b", 0)]) "a" "b" 1%Q).
  - repeat constructor; simpl; lia.
  - reflexivity.
  - unfold Qle. simpl. lia.
  - intros f Hf. vm_compute in Hf. injection Hf as <-. unfold Qle. simpl. lia.
Defined.

(** C3, as stated, fails: a plurality ballot-polling audit of two
    candidates with 3 and 1 votes whose recount table is the preliminary
    table itself ends its single call with [T["a"]["b"]] = 27/16. *)
Lemma C3_counterexample :
  let rows := [ {| table := "t1"; candidate := "a"; party := None; votes := 3 |};
                {| table := "t1"; candidate := "b"; party := None; votes := 1 |} ] in
  let self := Plurality_init (1 # 2) BALLOTPOLLING 1 rows rows in
  groupby_sum by_candidate (recount_df self) = vote_count self /\
  Audits.T self = Matrix [("a", [("b", 1%Q)])] /\
  exists T' m v',
    verify_ballot_polling self [("a", [("b", 1%Q)])] = (T', Ok m) /\
    T_get T' "a" "b" = Ok v' /\ (v' == 27 # 16)%Q /\ ~ (v' == 1)%Q.
Proof.
  cbv zeta. split; [reflexivity|]. split; [reflexivity|].
  eexists. eexists. eexists. split; [vm_compute; reflexivity|].
  split; [vm_compute; reflexivity|].
  split; [reflexivity|]. unfold Qeq. simpl. lia.
Qed.

Lemma zero_seat_get (S : option (dict string Z)) (k : string) (s : Z) :
  zero_seat S k ->
  getitem (match S with Some m => m | None => [(k, 0)] end) k = Ok s -> s = 0.
Proof.
  destruct S as [m|]; simpl.
  - congruence.
  - intros _. destruct (key_eq_dec k k); congruence.
Qed.

Lemma gamma_tie (a b : string) (vc : dict string Z) (S1 S2 : option (dict string Z))
  (n : Z) (y : Q) :
  getitem vc a = Ok n -> getitem vc b = Ok n ->
  zero_seat S1 a -> zero_seat S2 b ->
  gamma a b vc S1 S2 = Ok y -> (y == 1)%Q.
Proof.
  intros Ha Hb H1 H2 Hg. unfold gamma, t in Hg. inv_bind Hg. injection Hg as <-.
  assert (x = n) by congruence. assert (x0 = n) by congruence.
  assert (x1 = n) by congruence. subst x x0 x1.
  apply (zero_seat_get _ _ _ H1) in Hx3, Hx5. apply (zero_seat_get _ _ _ H2) in Hx4.
  subst x3 x4 x5.
  unfold truediv in Hx2, Hx6. simpl in Hx6. injection Hx6 as <-.
  destruct (n + n =? 0)%Z eqn:Hz; [discriminate|]. injection Hx2 as <-.
  apply Z.eqb_neq in Hz.
  rewrite inject_Z_plus. field.
  intros Hq. apply Hz.
  assert (Hn : (inject_Z n == 0)%Q).
  { setoid_replace (inject_Z n) with ((inject_Z n + inject_Z n) / 2)%Q by field.
    rewrite Hq. reflexivity. }
  unfold Qeq in Hn. simpl in Hn. lia.
Qed.

Lemma decimal_pow_1 (y : Q) (n : Z) (a : Q) :
  (y == 1)%Q -> decimal_pow y n = Ok a -> (a == 1)%Q.
Proof.
  intros Hy. unfold decimal_pow.
  assert (Hnz : Qeq_bool y 0 = false).
  { destruct (Qeq_bool y 0) eqn:Hz; [|reflexivity].
    apply Qeq_bool_eq in Hz. rewrite Hz in Hy. discriminate Hy. }
  rewrite Hnz. intros Heq. injection Heq as <-. rewrite Hy. apply Qpower_1.
Qed.

(** C3, amended. In a ballot-polling call whose recount is the
    preliminary count (a count without negative entries), a cell that
    holds 1 still holds 1 afterwards for
    every winner and loser with equal preliminary counts and seat index 0
    (nothing of the kind holds for the other pairs: the cell of the
    counterexample above ends at 27/16). *)
Theorem C3_tied_pair_stays_at_1
  (vote_count : dict string Z) (T : Tmatrix) (risk_limit : Q)
  (Sw Sl : option (dict string Z)) (w l : string) (n : Z) :
  nonneg vote_count ->
  T_get T w l = Ok 1%Q ->
  getitem vote_count w = Ok n ->
  getitem vote_count l = Ok n ->
  zero_seat Sw w ->
  zero_seat Sl l ->
  exists v',
    T_get (fst (ballot_polling_SPRT vote_count vote_count T risk_limit Sw Sl)) w l
    = Ok v' /\ (v' == 1)%Q.
Proof.
  intros _ Hget Hw Hl Hsw Hsl. unfold ballot_polling_SPRT.
  destruct (sprt_rows_get vote_count vote_count risk_limit Sw Sl T w l 0%Q 1%Q Hget)
    as [v' [Hget' Hcases]].
  exists v'. split; [exact Hget'|].
  destruct Hcases as [->|Hup]; [reflexivity|].
  apply sprt_update_cases in Hup.
  destruct Hup as [_ [[_ ->]|[_ [f [Hfac ->]]]]]; [reflexivity|].
  unfold sprt_factor in Hfac. inv_bind Hfac. injection Hfac as <-.
  apply (gamma_tie _ _ _ _ _ _ _ Hw Hl Hsw Hsl) in Hx.
  apply (gamma_tie _ _ _ _ _ _ _ Hl Hw Hsl Hsw) in Hx0.
  apply (decimal_pow_1 _ _ _ Hx) in Hx2.
  apply (decimal_pow_1 _ _ _ Hx0) in Hx4.
  rewrite Hx2, Hx4. ring.
Qed.

Lemma C3_tied_pair_stays_at_1_witness :
  exists v',
    T_get (fst (ballot_polling_SPRT [("a", 2); ("b", 2)] [("a", 2); ("b", 2)]
                                    [("a", [("b", 1%Q)])] (1 # 2)
                                    (Some [("a", 0)]) (Some [("b", 0)])))
          "a" "b" = Ok v' /\ (v' == 1)%Q.
Proof.
  apply (C3_tied_pair_stays_at_1 [("a", 2); ("b", 2)] [("a", [("b", 1%Q)])]
           (1 # 2) (Some [("a", 0)]) (Some [("b", 0)]) "a" "b" 2);
    try reflexivity.
  repeat constructor; simpl; lia.
Defined.

Lemma call_keeps_positive (c : Call) (T T' : Tmatrix) (m : Q) :
  nonneg (call_vote_count c) -> nonneg_seats (call_Sw c) -> nonneg_seats (call_Sl c) ->
  all_positive T -> run_call c T = (T', Ok m) -> all_positive T'.
Proof.
  intros Hvc Hsw Hsl Hpos Hrun. unfold run_call, ballot_polling_SPRT in Hrun.
  apply sprt_rows_ok in Hrun. unfold all_positive in *.
  induction Hrun as [|[w row] [w' row'] T T' [_ Hrow] _ IH]; [constructor|].
  inversion Hpos as [|? ? Hrowpos Hrest]; subst. constructor; [|apply IH, Hrest].
  simpl in *. clear IH Hrest Hpos.
  induction Hrow as [|[l v] [l' v'] row row' [_ [Hup Hnz]] _ IH]; [constructor|].
  inversion Hrowpos as [|? ? Hv Hrest]; subst. constructor; [|apply IH, Hrest].
  simpl in *.
  exact (sprt_update_positive _ _ _ _ _ _ _ _ _ Hvc Hsw Hsl Hv Hup Hnz).
Qed.

Lemma sprt_update_nonneg (vc rc : dict string Z) (alpha : Q)
  (S1 S2 : option (dict string Z)) (w l : string) (v v' : Q) :
  nonneg vc -> nonneg_seats S1 -> nonneg_seats S2 ->
  (0 <= v)%Q ->
  sprt_update vc rc alpha S1 S2 w l v = Ok v' -> (0 <= v')%Q.
Proof.
  intros Hvc H1 H2 Hv Hup.
  apply sprt_update_cases in Hup. destruct Hup as [_ [[_ ->]|[_ [f [Hf ->]]]]].
  - exact Hv.
  - apply Qmult_le_0_compat; [exact Hv|].
    exact (sprt_factor_nonneg _ _ _ _ _ _ _ Hvc H1 H2 Hf).
Qed.

Lemma sprt_row_nonneg (vc rc : dict string Z) (alpha : Q)
  (S1 S2 : option (dict string Z)) (w : string) (row : dict string Q) :
  nonneg vc -> nonneg_seats S1 -> nonneg_seats S2 ->
  Forall (fun cell => (0 <= snd cell)%Q) row ->
  forall m, Forall (fun cell => (0 <= snd cell)%Q)
                   (fst (sprt_row vc rc alpha S1 S2 w row m)).
Proof.
  intros Hvc H1 H2. induction row as [|[l tv] rest IH]; intros Hrow m.
  - constructor.
  - inversion Hrow as [|? ? Htv Hrest]; subst. simpl in Htv.
    cbn [sprt_row]. unfold sprt_cell.
    destruct (sprt_update vc rc alpha S1 S2 w l tv) as [tv'|ex] eqn:Hup.
    + pose proof (sprt_update_nonneg _ _ _ _ _ _ _ _ _ Hvc H1 H2 Htv Hup) as Htv'.
      destruct (decimal_div 1 tv') as [pv|ex]; cbn [Py.bind].
      * specialize (IH Hrest (max2 m pv)).
        destruct (sprt_row vc rc alpha S1 S2 w rest (max2 m pv)) as [rest' r].
        constructor; [exact Htv'|exact IH].
      * constructor; [exact Htv'|exact Hrest].
    + constructor; [exact Htv|exact Hrest].
Qed.

Lemma sprt_rows_nonneg (vc rc : dict string Z) (alpha : Q)
  (S1 S2 : option (dict string Z)) (T : Tmatrix) :
  nonneg vc -> nonneg_seats S1 -> nonneg_seats S2 ->
  all_nonneg T ->
  forall m, all_nonneg (fst (sprt_rows vc rc alpha S1 S2 T m)).
Proof.
  intros Hvc H1 H2. unfold all_nonneg.
  induction T as [|[w row] rest IH]; intros Hall m; [constructor|].
  inversion Hall as [|? ? Hrow Hrest]; subst. simpl in Hrow. cbn [sprt_rows].
  pose proof (sprt_row_nonneg vc rc alpha S1 S2 w row Hvc H1 H2 Hrow m) as Hrow'.
  destruct (sprt_row vc rc alpha S1 S2 w row m) as [row' [m1|ex]].
  - specialize (IH Hrest m1).
    destruct (sprt_rows vc rc alpha S1 S2 rest m1) as [rest' r].
    constructor; [exact Hrow'|exact IH].
  - constructor; [exact Hrow'|exact Hrest].
Qed.

Lemma call_keeps_nonneg (c : Call) (T : Tmatrix) :
  nonneg (call_vote_count c) -> nonneg_seats (call_Sw c) -> nonneg_seats (call_Sl c) ->
  all_nonneg T -> all_nonneg (fst (run_call c T)).
Proof.
  intros Hvc Hsw Hsl Hall. unfold run_call, ballot_polling_SPRT.
  apply sprt_rows_nonneg; assumption.
Qed.

(** C9, as stated, fails: with one vote for a and none for b, and a
    recount of one ballot each, the likelihood ratio of the loser is 0.
    The statement [T[winner][loser] *= ...] stores 0 in the cell, then
    [1 / T[winner][loser]] raises, and the object [T] keeps the 0. *)
Lemma C9_counterexample :
  let vote_count := [("a", 1); ("b", 0)] in
  let recount := [("a", 1); ("b", 1)] in
  let T := [("a", [("b", 1%Q)])] in
  all_positive T /\ nonneg vote_count /\ nonneg recount /\
  ballot_polling_SPRT vote_count recount T (1 # 2) None None
  = ([("a", [("b", 0%Q)])], Raise DecimalDivisionByZero) /\
  ~ all_positive (fst (ballot_polling_SPRT vote_count recount T (1 # 2) None None)).
Proof.
  cbv zeta. split; [repeat constructor|].
  split; [repeat constructor; simpl; lia|].
  split; [repeat constructor; simpl; lia|].
  split; [vm_compute; reflexivity|].
  intros Hpos. vm_compute in Hpos.
  inversion Hpos as [|? ? Hrow _]; subst.
  inversion Hrow as [|? ? Hcell _]; subst.
  discriminate Hcell.
Qed.

(** C9, amended. With vote counts, recounts and seat indexes that are not
    negative, no cell of the matrix is negative after any sequence of
    calls of [ballot_polling_SPRT], whether they return or raise, when no
    cell was negative before; and starting from strictly positive cells
    (the constructors fill the matrix with 1), every cell is strictly
    positive after any sequence of calls that all return.  A call that
    raises may leave 0 in a cell. *)
Theorem C9_cells_never_negative_positive_on_return
  (T : Tmatrix) (calls : list Call) :
  Forall (fun c => nonneg (call_vote_count c) /\ nonneg (call_recount c) /\
                   nonneg_seats (call_Sw c) /\ nonneg_seats (call_Sl c)) calls ->
  (all_nonneg T -> all_nonneg (after_calls T calls)) /\
  (all_positive T -> forall T', calls_return T calls T' -> all_positive T').
Proof.
  intros Hcalls. split.
  - revert T. induction Hcalls as [|c cs [Hvc [_ [Hsw Hsl]]] _ IH]; intros T Hall.
    + exact Hall.
    + cbn [after_calls fold_left]. apply IH.
      apply call_keeps_nonneg; assumption.
  - intros Hpos T' Hrun. induction Hrun as [|T c cs T1 m T' Hcall _ IH].
    + exact Hpos.
    + inversion Hcalls as [|? ? [Hvc [_ [Hsw Hsl]]] Hrest]; subst.
      apply IH; [exact Hrest|].
      eapply call_keeps_positive; eauto.
Qed.

Lemma C9_cells_never_negative_positive_on_return_witness :
  let c1 := {| call_vote_count := [("a", 3); ("b", 1)];
               call_recount := [("a", 1); ("b", 1)];
               call_risk_limit := (1 # 2)%Q;
               call_Sw := Some [("a", 0)]; call_Sl := Some [("b", 0)] |} in
  let c2 := {| call_vote_count := [("a", 3); ("b", 1)];
               call_recount := [("a", 2); ("b", 0)];
               call_risk_limit := (1 # 2)%Q;
               call_Sw := Some [("a", 0)]; call_Sl := Some [("b", 0)] |} in
  let c3 := {| call_vote_count := [("a", 1); ("b", 0)];
               call_recount := [("a", 1); ("b", 1)];
               call_risk_limit := (1 # 2)%Q;
               call_Sw := None; call_Sl := None |} in
  let T := [("a", [("b", 1%Q)])] in
  all_nonneg (after_calls T [c3; c1]) /\
  all_positive (fst (run_call c2 (fst (run_call c1 T)))).
Proof.
  intros c1 c2 c3 T. split.
  - apply (C9_cells_never_negative_positive_on_return T [c3; c1]).
    + repeat constructor; simpl; lia.
    + repeat constructor. simpl. unfold Qle. simpl. lia.
  - apply (proj2 (C9_cells_never_negative_positive_on_return T [c1; c2]
                    ltac:(repeat constructor; simpl; lia))).
    + repeat constructor.
    + eapply calls_cons; [vm_compute; reflexivity|].
      eapply calls_cons; [vm_compute; reflexivity|].
      vm_compute. apply calls_nil.
Defined.

(** A loser without votes makes the call raise: its likelihood ratio is 0,
    so either [0 ** 0] is refused, or the cell is set to 0 and the division
    [1 / T[winner][loser]] that follows the store is refused. *)
Example zero_vote_loser_raises :
  ballot_polling_SPRT [("a", 1); ("b", 0)] [("a", 1); ("b", 0)]
                      [("a", [("b", 1%Q)])] (1 # 2) None None
  = ([("a", [("b", 1%Q)])], Raise DecimalInvalidOperation) /\
  snd (ballot_polling_SPRT [("a", 1); ("b", 0)] [("a", 1); ("b", 1)]
                           [("a", [("b", 1%Q)])] (1 # 2) None None)
  = Raise DecimalDivisionByZero.
Proof. split; reflexivity. Qed.

End SPRT_claims.

(* ================================================================== *)
(** * Nested loops that keep a running maximum                          *)
(* ================================================================== *)

Lemma max2_cases (a b : Q) :
  (max2 a b = a /\ (b <= a)%Q) \/ (max2 a b = b /\ (a <= b)%Q).
Proof.
  unfold max2, Qltb. destruct (Qle_bool b a) eqn:Hle; simpl.
  - left. split; [reflexivity|]. apply Qle_bool_iff, Hle.
  - right. split; [reflexivity|].
    destruct (Qlt_le_dec a b) as [Hlt|Hge]; [apply Qlt_le_weak, Hlt|].
    apply Qle_bool_iff in Hge. congruence.
Qed.

Lemma is_max_of_step (m s q : Q) (qs : list Q) :
  Props.is_max_of m (max2 s q :: qs) -> Props.is_max_of m (s :: q :: qs).
Proof.
  intros [[c [Hin Hc]] Hub]. split.
  - destruct Hin as [<-|Hin].
    + destruct (max2_cases s q) as [[Heq _]|[Heq _]]; rewrite Heq in Hc.
      * exists s. simpl. auto.
      * exists q. simpl. auto.
    + exists c. simpl. auto.
  - clear c Hin Hc. intros c' [Heq|[Heq|Hin]]; subst.
    + eapply Qle_trans; [|apply Hub; left; reflexivity].
      destruct (max2_cases c' q) as [[-> _]|[-> Hle]]; [apply Qle_refl|exact Hle].
    + eapply Qle_trans; [|apply Hub; left; reflexivity].
      destruct (max2_cases s c') as [[-> Hle]|[-> _]]; [exact Hle|apply Qle_refl].
    + apply Hub. right. exact Hin.
Qed.

Lemma is_max_of_chain (m1 m s : Q) (l1 l2 : list Q) :
  Props.is_max_of m1 (s :: l1) -> Props.is_max_of m (m1 :: l2) ->
  Props.is_max_of m (s :: l1 ++ l2).
Proof.
  intros [[c1 [Hin1 Hc1]] Hub1] [[c [Hin Hc]] Hub]. split.
  - destruct Hin as [<-|Hin].
    + exists c1. split.
      * destruct Hin1 as [<-|Hin1]; [left; reflexivity|].
        right. apply in_or_app. left. exact Hin1.
      * rewrite Hc. exact Hc1.
    + exists c. split; [|exact Hc]. right. apply in_or_app. right. exact Hin.
  - assert (Hm1 : (m1 <= m)%Q) by (apply Hub; left; reflexivity).
    intros q [Heq|Hq].
    + eapply Qle_trans; [|exact Hm1]. apply Hub1. left. exact Heq.
    + apply in_app_or in Hq. destruct Hq as [Hq|Hq].
      * eapply Qle_trans; [|exact Hm1]. apply Hub1. right. exact Hq.
      * apply Hub. right. exact Hq.
Qed.

Section MaxLoop.

Variable term : string -> string -> result Q.

Local Abbreviation inner_loop := (Props.inner_loop term).
Local Abbreviation max_loop := (Props.max_loop term).
Local Abbreviation others := Props.others.

Lemma inner_loop_cons (a b : string) (lb : list string) (s : Q) :
  inner_loop a (b :: lb) s =
  if key_eq_dec a b then inner_loop a lb s
  else q <- term a b ;; inner_loop a lb (max2 s q).
Proof.
  unfold Props.inner_loop. simpl. destruct (key_eq_dec a b); [reflexivity|].
  destruct (term a b); reflexivity.
Qed.

Lemma max_loop_cons (a : string) (la lb : list string) (s : Q) :
  max_loop (a :: la) lb s = (m <- inner_loop a lb s ;; max_loop la lb m).
Proof. reflexivity. Qed.

Lemma is_max_of_single (s : Q) : Props.is_max_of s [s].
Proof.
  split.
  - exists s. split; [left; reflexivity|reflexivity].
  - intros q [<-|[]]. apply Qle_refl.
Qed.

Lemma inner_loop_ok (r : string -> string -> Q) (a : string) (lb : list string) (s : Q) :
  (forall b, In b lb -> a <> b -> term a b = Ok (r a b)) ->
  exists m, inner_loop a lb s = Ok m /\
            Props.is_max_of m (s :: map (r a) (others a lb)).
Proof.
  revert s. induction lb as [|b lb IH]; intros s Hterm.
  - exists s. split; [reflexivity|apply is_max_of_single].
  - rewrite inner_loop_cons. unfold Props.others. simpl.
    destruct (key_eq_dec a b) as [->|Hne].
    + apply IH. intros b' Hb'. apply Hterm. right. exact Hb'.
    + rewrite (Hterm b (or_introl eq_refl) Hne). simpl.
      destruct (IH (max2 s (r a b))) as [m [Hm Hmax]].
      { intros b' Hb'. apply Hterm. right. exact Hb'. }
      exists m. split; [exact Hm|]. apply is_max_of_step, Hmax.
Qed.

Lemma max_loop_ok (r : string -> string -> Q) (la lb : list string) (s : Q) :
  (forall a b, In a la -> In b lb -> a <> b -> term a b = Ok (r a b)) ->
  exists m, max_loop la lb s = Ok m /\
            Props.is_max_of m (s :: map (fun ab => r (fst ab) (snd ab))
                                        (Props.distinct_pairs la lb)).
Proof.
  revert s. induction la as [|a la IH]; intros s Hterm.
  - exists s. split; [reflexivity|apply is_max_of_single].
  - destruct (inner_loop_ok r a lb s) as [m1 [Hm1 Hmax1]].
    { intros b Hb. apply Hterm; [left; reflexivity|exact Hb]. }
    rewrite max_loop_cons, Hm1. simpl.
    destruct (IH m1) as [m [Hm Hmax]].
    { intros a' b Ha'. apply Hterm. right. exact Ha'. }
    exists m. split; [exact Hm|].
    rewrite map_app, map_map. simpl.
    eapply is_max_of_chain; [exact Hmax1|exact Hmax].
Qed.

(** An exception of the loops is the exception of the term of a pair of
    distinct ids. *)
Lemma inner_loop_raise (a : string) (lb : list string) (s : Q) (ex : exn) :
  inner_loop a lb s = Raise ex ->
  exists b, In b lb /\ a <> b /\ term a b = Raise ex.
Proof.
  revert s. induction lb as [|b lb IH]; intros s; [discriminate|].
  rewrite inner_loop_cons.
  destruct (key_eq_dec a b) as [->|Hne].
  - intros Hr. destruct (IH _ Hr) as [b' [Hb' Hrest]]. exists b'. simpl. tauto.
  - destruct (term a b) as [q|ex'] eqn:Hterm; simpl.
    + intros Hr. destruct (IH _ Hr) as [b' [Hb' Hrest]]. exists b'. simpl. tauto.
    + intros Heq. injection Heq as ->. exists b. simpl. tauto.
Qed.

Lemma max_loop_raise (la lb : list string) (s : Q) (ex : exn) :
  max_loop la lb s = Raise ex ->
  exists a b, In a la /\ In b lb /\ a <> b /\ term a b = Raise ex.
Proof.
  revert s. induction la as [|a la IH]; intros s; [discriminate|].
  rewrite max_loop_cons.
  destruct (inner_loop a lb s) as [m1|ex'] eqn:Hinner; simpl.
  - intros Hr. destruct (IH _ Hr) as [a' [b [Ha' Hrest]]].
    exists a', b. simpl. tauto.
  - intros Heq. injection Heq as ->.
    destruct (inner_loop_raise _ _ _ _ Hinner) as [b Hb]. exists a, b. simpl. tauto.
Qed.

(** When the loops return, the term of every pair of distinct ids was
    computed. *)
Lemma inner_loop_returns (a : string) (lb : list string) (s m : Q) :
  inner_loop a lb s = Ok m ->
  forall b, In b lb -> a <> b -> exists q, term a b = Ok q.
Proof.
  revert s. induction lb as [|b lb IH]; intros s; [intros _ ? []|].
  rewrite inner_loop_cons.
  destruct (key_eq_dec a b) as [->|Hne].
  - intros Hr b' [<-|Hb'] Hne'; [congruence|]. eapply IH; eauto.
  - destruct (term a b) as [q|ex'] eqn:Hterm; simpl; [|discriminate].
    intros Hr b' [<-|Hb'] Hne'; [eauto|]. eapply IH; eauto.
Qed.

Lemma max_loop_returns (la lb : list string) (s m : Q) :
  max_loop la lb s = Ok m ->
  forall a b, In a la -> In b lb -> a <> b -> exists q, term a b = Ok q.
Proof.
  revert s. induction la as [|a la IH]; intros s; [intros _ ? ? []|].
  rewrite max_loop_cons.
  destruct (inner_loop a lb s) as [m1|ex'] eqn:Hinner; simpl; [|discriminate].
  intros Hr a' b [<-|Ha'] Hb Hne.
  - eapply inner_loop_returns; eauto.
  - eapply IH; eauto.
Qed.

End MaxLoop.

(* ================================================================== *)
(** * MICRO and its upper bound                                         *)
(* ================================================================== *)

Section MICRO_claims.
Import Utils Props.
Local Open Scope string_scope.

Lemma get0_of (m : dict string Z) (k : string) (v : Z) :
  getitem m k = Ok v -> get0 m k = v.
Proof. unfold get0. intros ->. reflexivity. Qed.

Lemma getitem_of_key {K V : Type} `{Hashable K} (m : dict K V) (k : K) :
  In k (keys m) -> exists v, getitem m k = Ok v.
Proof.
  induction m as [|[k0 v0] m IH]; simpl; [intros []|].
  intros Hin. destruct (key_eq_dec k k0) as [->|Hne]; [eauto|].
  destruct Hin as [Heq|Hin]; [congruence|]. apply IH, Hin.
Qed.

(** [use_keys] turns every [has_key m k] of the context into the value
    found, recorded both for [getitem] and for [get0]. *)
Ltac use_keys :=
  repeat match goal with
         | H : has_key ?m ?k |- _ =>
             let v := fresh "v" in
             let Hv := fresh "Hv" in
             let H0 := fresh "H0" in
             destruct H as [v Hv];
             pose proof (get0_of m k v Hv) as H0
         end.

Lemma MICRO_term_defined (reported table_report recount W L : dict string Z)
  (w l : string) :
  In w (keys W) -> In l (keys L) ->
  micro_defined reported table_report recount W L w l ->
  MICRO_term reported table_report recount W L w l
  = Ok (micro_ratio reported table_report recount W L w l).
Proof.
  intros Hw Hl [H1 [H2 [H3 [H4 [H5 [H6 Hy]]]]]].
  apply getitem_of_key in Hw, Hl. fold (has_key W w) in Hw. fold (has_key L l) in Hl.
  unfold micro_ratio, micro_x. unfold micro_y in *. use_keys.
  unfold MICRO_term, e, t.
  repeat match goal with H : getitem _ _ = Ok _ |- _ => rewrite H; clear H end.
  simpl. unfold truediv.
  repeat match goal with H : get0 _ _ = _ |- _ => rewrite H in *; clear H end.
  destruct (_ =? 0)%Z eqn:Hz; [apply Z.eqb_eq in Hz; contradiction|].
  reflexivity.
Qed.

(** C5. Whenever the ratio [x / y] exists for every pair of a winner [w]
    and a loser [l] with distinct ids (the ids have totals in the contest
    and table mappings and [y] is not zero), [MICRO] returns the maximum
    of 0 and of these ratios, where
    [x = d(Sl[l]) * (tableReported[w] - tableRecount[w])
         - d(Sw[w]) * (tableReported[l] - tableRecount[l])] uses the
    totals of the table and
    [y = d(Sl[l]) * contestReported[w] - d(Sw[w]) * contestReported[l]]
    the totals of the contest, with [d(s) = s + 1] (the definitions
    [micro_x] and [micro_y] of the ratio spell [s + 1] out). *)
Theorem C5_MICRO_is_max_of_ratios
  (contestReported tableReported tableRecount Sw Sl : dict string Z) :
  (forall w l, In w (keys Sw) -> In l (keys Sl) -> w <> l ->
               micro_defined contestReported tableReported tableRecount Sw Sl w l) ->
  exists m,
    MICRO contestReported tableReported tableRecount Sw Sl = Ok m /\
    is_max_of m
      (0%Q :: map (fun wl => micro_ratio contestReported tableReported tableRecount
                                         Sw Sl (fst wl) (snd wl))
                  (distinct_pairs (keys Sw) (keys Sl))).
Proof.
  intros Hdef.
  change (MICRO contestReported tableReported tableRecount Sw Sl)
    with (max_loop (MICRO_term contestReported tableReported tableRecount Sw Sl)
                   (keys Sw) (keys Sl) 0%Q).
  apply max_loop_ok. intros w l Hw Hl Hne.
  apply MICRO_term_defined; auto.
Qed.

Lemma C5_MICRO_is_max_of_ratios_witness :
  let contestReported := [("a", 60); ("b", 40); ("c", 26)] in
  let tableReported := [("a", 6); ("b", 4); ("c", 1)] in
  let tableRecount := [("a", 5); ("b", 5); ("c", 1)] in
  let Sw := [("a", 1)] in
  let Sl := [("b", 0); ("c", 2)] in
  exists m,
    MICRO contestReported tableReported tableRecount Sw Sl = Ok m /\
    is_max_of m
      (0%Q :: map (fun wl => micro_ratio contestReported tableReported tableRecount
                                         Sw Sl (fst wl) (snd wl))
                  (distinct_pairs (keys Sw) (keys Sl))) /\
    (m == 3 # 128)%Q.
Proof.
  intros contestReported tableReported tableRecount Sw Sl.
  destruct (C5_MICRO_is_max_of_ratios contestReported tableReported tableRecount Sw Sl)
    as [m [Hm Hmax]].
  - intros w l [<-|[]] [<-|[<-|[]]] _;
      (repeat split; try (eexists; reflexivity); vm_compute; discriminate).
  - exists m. split; [exact Hm|]. split; [exact Hmax|].
    vm_compute in Hm. injection Hm as <-. reflexivity.
Defined.

Lemma MICRO_upper_bound_term_cases (reported Sw Sl : dict string Z) (w l : string) :
  bound_keys reported Sw Sl w l ->
  MICRO_upper_bound_term reported Sw Sl w l
  = if (micro_y reported Sw Sl w l =? 0)%Z then Raise ZeroDivisionError
    else Ok (bound_term reported Sw Sl w l).
Proof.
  intros [H1 [H2 [H3 H4]]]. unfold bound_term, micro_y. use_keys.
  unfold MICRO_upper_bound_term.
  repeat match goal with H : getitem _ _ = Ok _ |- _ => rewrite H; clear H end.
  simpl. unfold truediv.
  repeat match goal with H : get0 _ _ = _ |- _ => rewrite H in *; clear H end.
  reflexivity.
Qed.

(** C6, as stated, fails: for a winner with 1 reported vote and a loser
    with 2 the denominator is -1, and [MICRO_upper_bound] returns 0
    without raising. *)
Lemma C6_counterexample :
  let reported := [("w", 1); ("l", 2)] in
  micro_y reported (default_S None ["w"]) (default_S None ["l"]) "w" "l" = -1 /\
  MICRO_upper_bound reported ["w"] ["l"] None None = Ok 0%Q.
Proof. split; reflexivity. Qed.

(** C6, amended. When the ids of every pair of a winner and a loser with
    distinct ids have seat indexes and reported totals,
    [MICRO_upper_bound] raises [ZeroDivisionError] whenever some pair has
    the denominator [d(Sl[l]) * reported[w] - d(Sw[w]) * reported[l]]
    equal to zero, and returns otherwise: the value returned is the
    maximum of 0 and of the terms of all pairs, so that the negative term
    of a pair with a negative denominator is silently absorbed. *)
Theorem C6_bound_raises_exactly_on_zero_denominator
  (reported : dict string Z) (Wp Lp : list string) (Sw Sl : option (dict string Z)) :
  (forall w l, In w Wp -> In l Lp -> w <> l ->
               bound_keys reported (default_S Sw Wp) (default_S Sl Lp) w l) ->
  ((exists w l, In w Wp /\ In l Lp /\ w <> l /\
                micro_y reported (default_S Sw Wp) (default_S Sl Lp) w l = 0) ->
   MICRO_upper_bound reported Wp Lp Sw Sl = Raise ZeroDivisionError) /\
  ((forall w l, In w Wp -> In l Lp -> w <> l ->
                micro_y reported (default_S Sw Wp) (default_S Sl Lp) w l <> 0) ->
   exists u,
     MICRO_upper_bound reported Wp Lp Sw Sl = Ok u /\
     is_max_of u
       (0%Q :: map (fun wl => bound_term reported (default_S Sw Wp) (default_S Sl Lp)
                                         (fst wl) (snd wl))
                   (distinct_pairs Wp Lp))).
Proof.
  intros Hkeys.
  change (MICRO_upper_bound reported Wp Lp Sw Sl)
    with (max_loop (MICRO_upper_bound_term reported (default_S Sw Wp) (default_S Sl Lp))
                   Wp Lp 0%Q).
  set (term := MICRO_upper_bound_term reported (default_S Sw Wp) (default_S Sl Lp)).
  split.
  - intros [w [l [Hw [Hl [Hne Hzero]]]]].
    destruct (max_loop term Wp Lp 0%Q) as [u|ex] eqn:Hloop.
    + destruct (max_loop_returns term _ _ _ _ Hloop w l Hw Hl Hne) as [q Hq].
      unfold term in Hq.
      rewrite (MICRO_upper_bound_term_cases _ _ _ _ _ (Hkeys w l Hw Hl Hne)) in Hq.
      rewrite Hzero in Hq. discriminate Hq.
    + destruct (max_loop_raise term _ _ _ _ Hloop) as [w' [l' [Hw' [Hl' [Hne' Hr]]]]].
      unfold term in Hr.
      rewrite (MICRO_upper_bound_term_cases _ _ _ _ _ (Hkeys w' l' Hw' Hl' Hne')) in Hr.
      destruct (_ =? 0)%Z; congruence.
  - intros Hnz. apply max_loop_ok. intros w l Hw Hl Hne. unfold term.
    rewrite (MICRO_upper_bound_term_cases _ _ _ _ _ (Hkeys w l Hw Hl Hne)).
    destruct (_ =? 0)%Z eqn:Hz; [|reflexivity].
    apply Z.eqb_eq in Hz. exfalso. exact (Hnz w l Hw Hl Hne Hz).
Qed.

Lemma C6_bound_raises_exactly_on_zero_denominator_witness :
  MICRO_upper_bound [("w", 2); ("l", 2)] ["w"] ["l"] None None
  = Raise ZeroDivisionError.
Proof.
  apply (C6_bound_raises_exactly_on_zero_denominator
           [("w", 2); ("l", 2)] ["w"] ["l"] None None).
  - intros w l [<-|[]] [<-|[]] _. repeat split; eexists; reflexivity.
  - exists "w", "l". repeat split; simpl; auto. discriminate.
Defined.

End MICRO_claims.

(* ================================================================== *)
(** * Sorting and slicing                                               *)
(* ================================================================== *)

Section SortFacts.

Context {A : Type}.
Variable before : A -> A -> bool.

Lemma insert_by_perm (x : A) (l : list A) :
  Permutation (insert_by before x l) (x :: l).
Proof.
  induction l as [|y l IH]; simpl; [apply Permutation_refl|].
  destruct (before x y); [apply Permutation_refl|].
  eapply perm_trans; [apply perm_skip, IH|apply perm_swap].
Qed.

Lemma stable_sort_perm (l : list A) : Permutation (stable_sort before l) l.
Proof.
  induction l as [|x l IH]; simpl; [constructor|].
  eapply perm_trans; [apply insert_by_perm|apply perm_skip, IH].
Qed.

(** Stability: two elements leave the sort in their original order unless
    the test forbids that order. *)
Lemma insert_by_stable (P : A -> A -> Prop) (x : A) (l : list A) :
  Forall (P x) l ->
  StronglySorted (fun a b => P a b \/ before b a = false) l ->
  StronglySorted (fun a b => P a b \/ before b a = false) (insert_by before x l).
Proof.
  intros Hx Hsorted. induction Hsorted as [|y l Hl IH Hy]; simpl.
  - repeat constructor.
  - inversion Hx as [|? ? Hxy Hxl]; subst.
    destruct (before x y) eqn:Hb.
    + constructor; [constructor; assumption|].
      constructor; [left; exact Hxy|].
      eapply Forall_impl; [|exact Hxl]. intros z Hz. left. exact Hz.
    + constructor; [apply IH, Hxl|].
      eapply Permutation_Forall; [apply Permutation_sym, insert_by_perm|].
      constructor; [right; exact Hb|exact Hy].
Qed.

Lemma stable_sort_stable (P : A -> A -> Prop) (l : list A) :
  StronglySorted P l ->
  StronglySorted (fun a b => P a b \/ before b a = false) (stable_sort before l).
Proof.
  intros Hl. induction Hl as [|x l Hl IH Hx]; simpl; [constructor|].
  apply insert_by_stable; [|exact IH].
  eapply Permutation_Forall; [apply Permutation_sym, stable_sort_perm|exact Hx].
Qed.

Hypothesis before_total : forall x y, before x y = true \/ before y x = true.
Hypothesis before_trans :
  forall x y z, before x y = true -> before y z = true -> before x z = true.

Lemma insert_by_sorted (x : A) (l : list A) :
  StronglySorted (fun a b => before a b = true) l ->
  StronglySorted (fun a b => before a b = true) (insert_by before x l).
Proof.
  intros Hsorted. induction Hsorted as [|y l Hl IH Hy]; simpl.
  - repeat constructor.
  - destruct (before x y) eqn:Hb.
    + constructor; [constructor; assumption|].
      constructor; [exact Hb|].
      eapply Forall_impl; [|exact Hy]. intros z Hz. exact (before_trans _ _ _ Hb Hz).
    + constructor; [exact IH|].
      eapply Permutation_Forall; [apply Permutation_sym, insert_by_perm|].
      constructor; [|exact Hy].
      destruct (before_total x y) as [Hxy|Hyx]; [congruence|exact Hyx].
Qed.

Lemma stable_sort_sorted (l : list A) :
  StronglySorted (fun a b => before a b = true) (stable_sort before l).
Proof.
  induction l as [|x l IH]; simpl; [constructor|]. apply insert_by_sorted, IH.
Qed.

End SortFacts.

Lemma StronglySorted_app_inv {A : Type} (R : A -> A -> Prop) (l1 l2 : list A) :
  StronglySorted R (l1 ++ l2) ->
  forall x y, In x l1 -> In y l2 -> R x y.
Proof.
  induction l1 as [|a l1 IH]; simpl; intros Hs x y Hx Hy; [contradiction|].
  apply StronglySorted_inv in Hs. destruct Hs as [Hs Ha].
  destruct Hx as [<-|Hx].
  - rewrite Forall_forall in Ha. apply Ha, in_or_app. right. exact Hy.
  - eapply IH; eauto.
Qed.

Lemma NoDup_app_disjoint {A : Type} (l1 l2 : list A) :
  NoDup (l1 ++ l2) -> forall a, In a l1 -> ~ In a l2.
Proof.
  induction l1 as [|x l1 IH]; simpl; intros Hnd a Ha; [contradiction|].
  inversion Hnd as [|? ? Hx Hnd']; subst. destruct Ha as [<-|Ha].
  - intros Hin. apply Hx, in_or_app. right. exact Hin.
  - apply IH; assumption.
Qed.

Lemma sorted_reverse_perm {A V : Type} `{PyOrd V} (key : A -> V) (l : list A) :
  Permutation (sorted_reverse key l) l.
Proof. apply stable_sort_perm. Qed.

Lemma sorted_reverse_sorted {A V : Type} `{PyOrdLaws V} (key : A -> V) (l : list A) :
  StronglySorted (fun a b => py_leb (key b) (key a) = true) (sorted_reverse key l).
Proof.
  apply (stable_sort_sorted (fun x y => py_leb (key y) (key x))).
  - intros x y. destruct (py_leb_total (key x) (key y)); auto.
  - intros x y z Hxy Hyz. exact (py_leb_trans _ _ _ Hyz Hxy).
Qed.

Lemma In_getitem {K V : Type} `{Hashable K} (m : dict K V) (k : K) (v : V) :
  NoDup (keys m) -> In (k, v) m -> getitem m k = Ok v.
Proof.
  induction m as [|[k0 v0] m IH]; simpl; [intros _ []|].
  intros Hnd Hin. inversion Hnd as [|? ? Hnotin Hnd']; subst.
  destruct (key_eq_dec k k0) as [->|Hne].
  - destruct Hin as [Heq|Hin]; [congruence|].
    exfalso. apply Hnotin. apply (in_map fst) in Hin. exact Hin.
  - destruct Hin as [Heq|Hin]; [congruence|]. apply IH; assumption.
Qed.

(** The two slices split the list; for [0 <= n <= len(l)] the first has
    [n] elements. *)
Lemma slices_split {A : Type} (n : Z) (l : list A) :
  slice_to n l ++ slice_from n l = l.
Proof. apply firstn_skipn. Qed.

Lemma slice_to_length {A : Type} (n : Z) (l : list A) :
  0 <= n <= Z.of_nat (List.length l) -> Z.of_nat (List.length (slice_to n l)) = n.
Proof.
  intros Hn. unfold slice_to, slice_index.
  destruct (n <? 0) eqn:Hneg; [apply Z.ltb_lt in Hneg; lia|].
  rewrite length_firstn. lia.
Qed.

(* ================================================================== *)
(** * The winner and loser sets                                         *)
(* ================================================================== *)

Section Partition.
Import Utils Props.

(** C7. For a vote count (a dictionary: its keys are distinct) and
    [1 <= n_winners <= len(vote_count)], [get_W_L_sets] returns [W] and
    [L] without repetitions and without a common id, whose ids together
    are exactly the keys of the vote count, with [n_winners] ids in [W],
    and every id of [W] has at least as many votes as every id of [L]
    ([vl <= vw] in Python's order on the values: integers for candidates,
    quotients for pseudo-candidates). *)
Theorem C7_get_W_L_sets_partition
  {K V : Type} `{Hashable K} `{PyOrdLaws V}
  (vote_count : dict K V) (n_winners : Z) (W L : list K) :
  NoDup (keys vote_count) ->
  1 <= n_winners <= Z.of_nat (List.length vote_count) ->
  get_W_L_sets vote_count n_winners = (W, L) ->
  NoDup W /\ NoDup L /\
  (forall k, In k W -> ~ In k L) /\
  (forall k, In k W \/ In k L <-> In k (keys vote_count)) /\
  Z.of_nat (List.length W) = n_winners /\
  (forall w l vw vl,
      In w W -> In l L ->
      getitem vote_count w = Ok vw -> getitem vote_count l = Ok vl ->
      py_leb vl vw = true).
Proof.
  intros Hnd Hn Hget. unfold get_W_L_sets in Hget. injection Hget as <- <-.
  set (sorted_tuples := sorted_reverse snd vote_count).
  assert (Hperm : Permutation sorted_tuples vote_count)
    by apply sorted_reverse_perm.
  assert (Hsplit : map fst (slice_to n_winners sorted_tuples)
                   ++ map fst (slice_from n_winners sorted_tuples)
                   = keys sorted_tuples).
  { unfold keys. rewrite <- map_app, slices_split. reflexivity. }
  assert (Hkeys : Permutation (keys sorted_tuples) (keys vote_count))
    by (apply Permutation_map, Hperm).
  assert (Hnd' : NoDup (keys sorted_tuples)).
  { eapply Permutation_NoDup; [apply Permutation_sym, Hkeys|exact Hnd]. }
  rewrite <- Hsplit in Hnd'.
  split; [exact (NoDup_app_remove_r _ _ Hnd')|].
  split; [exact (NoDup_app_remove_l _ _ Hnd')|].
  split; [exact (NoDup_app_disjoint _ _ Hnd')|].
  split; [|split].
  - intros k. rewrite <- in_app_iff, Hsplit. split; intros Hin.
    + eapply Permutation_in; [exact Hkeys|exact Hin].
    + eapply Permutation_in; [apply Permutation_sym, Hkeys|exact Hin].
  - rewrite length_map. apply slice_to_length.
    rewrite (Permutation_length Hperm). lia.
  - intros w l vw vl Hw Hl Hvw Hvl.
    apply in_map_iff in Hw. destruct Hw as [[w' vw'] [Hw' Hw]].
    apply in_map_iff in Hl. destruct Hl as [[l' vl'] [Hl' Hl]].
    simpl in Hw', Hl'. subst w' l'.
    pose proof (sorted_reverse_sorted snd vote_count) as Hsorted.
    fold sorted_tuples in Hsorted.
    rewrite <- (slices_split n_winners sorted_tuples) in Hsorted.
    pose proof (StronglySorted_app_inv _ _ _ Hsorted _ _ Hw Hl) as Hle.
    simpl in Hle.
    assert (Hwin : In (w, vw') vote_count).
    { eapply Permutation_in; [exact Hperm|].
      rewrite <- (slices_split n_winners sorted_tuples).
      apply in_or_app. left. exact Hw. }
    assert (Hlin : In (l, vl') vote_count).
    { eapply Permutation_in; [exact Hperm|].
      rewrite <- (slices_split n_winners sorted_tuples).
      apply in_or_app. right. exact Hl. }
    apply (In_getitem _ _ _ Hnd) in Hwin, Hlin.
    assert (vw' = vw) by congruence. assert (vl' = vl) by congruence.
    subst. exact Hle.
Qed.

Local Open Scope string_scope.

Lemma C7_get_W_L_sets_partition_witness :
  let vote_count := [("a", 10); ("b", 30); ("c", 30); ("d", 5)] in
  let W := ["b"; "c"] in
  let L := ["a"; "d"] in
  NoDup W /\ NoDup L /\
  (forall k, In k W -> ~ In k L) /\
  (forall k, In k W \/ In k L <-> In k (keys vote_count)) /\
  Z.of_nat (List.length W) = 2 /\
  (forall w l vw vl,
      In w W -> In l L ->
      getitem vote_count w = Ok vw -> getitem vote_count l = Ok vl ->
      (vl <=? vw)%Z = true).
Proof.
  intros vote_count W L.
  apply (C7_get_W_L_sets_partition (V := Z) vote_count 2 W L).
  - repeat constructor; simpl; intuition discriminate.
  - simpl. lia.
  - reflexivity.
Defined.

End Partition.

(* ================================================================== *)
(** * Tables and their groupings                                        *)
(* ================================================================== *)

Section Tables.
Import Utils Audits Props.

Lemma add_votes_keys_in (k : string) (v : Z) (acc : dict string Z) (k' : string) :
  In k' (keys (add_votes k v acc)) <-> k' = k \/ In k' (keys acc).
Proof.
  induction acc as [|[k0 v0] acc IH]; simpl.
  - intuition.
  - destruct (key_eq_dec k k0) as [->|Hne]; simpl; [intuition|].
    rewrite IH. intuition.
Qed.

Lemma add_votes_NoDup (k : string) (v : Z) (acc : dict string Z) :
  NoDup (keys acc) -> NoDup (keys (add_votes k v acc)).
Proof.
  induction acc as [|[k0 v0] acc IH]; simpl; intros Hnd.
  - repeat constructor. intros [].
  - inversion Hnd as [|? ? Hk0 Hnd']; subst.
    destruct (key_eq_dec k k0) as [->|Hne]; simpl.
    + constructor; assumption.
    + constructor; [|apply IH, Hnd'].
      rewrite add_votes_keys_in. intros [Heq|Hin]; [congruence|contradiction].
Qed.

Lemma group_votes_NoDup (col : Row -> option string) (df : DataFrame) :
  NoDup (keys (group_votes col df)).
Proof.
  unfold group_votes.
  assert (Hgen : forall acc, NoDup (keys acc) ->
            NoDup (keys (fold_left (fun acc r =>
                                      match col r with
                                      | Some k => add_votes k (votes r) acc
                                      | None => acc
                                      end) df acc))).
  { induction df as [|r df IH]; simpl; intros acc Hacc; [exact Hacc|].
    apply IH. destruct (col r); [apply add_votes_NoDup, Hacc|exact Hacc]. }
  apply Hgen. constructor.
Qed.

Lemma groupby_sum_perm (col : Row -> option string) (df : DataFrame) :
  Permutation (groupby_sum col df) (group_votes col df).
Proof. apply stable_sort_perm. Qed.

Lemma groupby_sum_NoDup (col : Row -> option string) (df : DataFrame) :
  NoDup (keys (groupby_sum col df)).
Proof.
  eapply Permutation_NoDup; [|apply (group_votes_NoDup col df)].
  apply Permutation_sym, Permutation_map, groupby_sum_perm.
Qed.

End Tables.

(* ================================================================== *)
(** * The super-majority collapse                                       *)
(* ================================================================== *)

Section SuperMajority_claims.
Import Utils Audits Props.

Lemma mapM_ext_in {A B : Type} (f g : A -> result B) (l : list A) :
  (forall x, In x l -> f x = g x) -> mapM f l = mapM g l.
Proof.
  induction l as [|x l IH]; simpl; intros Hext; [reflexivity|].
  rewrite (Hext x (or_introl eq_refl)), IH; [reflexivity|].
  intros y Hy. apply Hext. right. exact Hy.
Qed.

(** Decorating the keys of a dictionary with their values gives back its
    items. *)
Lemma decorate_keys {K V : Type} `{Hashable K} (m : dict K V) :
  NoDup (keys m) ->
  mapM (fun c => k <- getitem m c ;; Ok (c, k)) (keys m) = Ok m.
Proof.
  induction m as [|[k0 v0] m IH]; simpl; intros Hnd; [reflexivity|].
  inversion Hnd as [|? ? Hk0 Hnd']; subst.
  destruct (key_eq_dec k0 k0) as [_|Hne]; [|congruence]. simpl.
  rewrite (mapM_ext_in _ (fun c => k <- getitem m c ;; Ok (c, k))).
  - rewrite (IH Hnd'). reflexivity.
  - intros c Hc. destruct (key_eq_dec c k0) as [->|Hne]; [contradiction|reflexivity].
Qed.

Lemma slice_to_map {A B : Type} (f : A -> B) (n : Z) (l : list A) :
  slice_to n (map f l) = map f (slice_to n l).
Proof.
  unfold slice_to, slice_index. rewrite length_map. apply firstn_map.
Qed.

Lemma slice_from_map {A B : Type} (f : A -> B) (n : Z) (l : list A) :
  slice_from n (map f l) = map f (slice_from n l).
Proof.
  unfold slice_from, slice_index. rewrite length_map. apply skipn_map.
Qed.

Lemma mapM_getitem (m : dict string Z) (l : list string) :
  (forall c, In c l -> has_key m c) ->
  mapM (fun c => getitem m c) l = Ok (map (get0 m) l).
Proof.
  induction l as [|c l IH]; simpl; intros Hkeys; [reflexivity|].
  destruct (Hkeys c (or_introl eq_refl)) as [v Hv].
  unfold get0 at 1. rewrite Hv. simpl.
  rewrite IH; [reflexivity|]. intros c' Hc'. apply Hkeys. right. exact Hc'.
Qed.

(** The ranking computed by the transform is the one of [get_W_L_sets] on
    the preliminary vote count of the audit. *)
Lemma SuperMajority_transform_ranking (self : Audit) (m : dict string Z) :
  NoDup (keys (vote_count self)) ->
  SuperMajority_vote_count_transform self m =
  (let (W, L) := get_W_L_sets (vote_count self) (n_winners self) in
   w <- mapM (fun c => getitem m c) W ;;
   l <- mapM (fun c => getitem m c) L ;;
   Ok [("w"%string, sum w); ("l"%string, sum l)]).
Proof.
  intros Hnd. unfold SuperMajority_vote_count_transform, sorted_reverse_M.
  rewrite (decorate_keys _ Hnd). simpl.
  unfold get_W_L_sets. rewrite slice_to_map, slice_from_map. reflexivity.
Qed.

Lemma Plurality_init_fields (risk_limit : Q) (audit_type : AuditType) (n : Z)
  (preliminary recount : DataFrame) :
  let self := Plurality_init risk_limit audit_type n preliminary recount in
  n_winners self = n /\
  vote_count self = groupby_sum by_candidate preliminary /\
  candidates self = keys (groupby_sum by_candidate preliminary).
Proof.
  unfold Plurality_init.
  destruct (get_W_L_sets (groupby_sum by_candidate preliminary) n) as [W L].
  simpl. auto.
Qed.

(** C8, as stated, fails on the ranking: for a preliminary count a = 5,
    b = 3 and a recount a = 1, b = 4 the transform returns [w = 1, l = 4]
    (the buckets of the preliminary ranking), whereas a ranking taken
    from the recount would give [w = 4, l = 1]. *)
Lemma C8_counterexample :
  let rows := [ {| table := "t1"%string; candidate := "a"%string;
                   party := None; votes := 5 |};
                {| table := "t1"%string; candidate := "b"%string;
                   party := None; votes := 3 |} ] in
  let self := SuperMajority_init (1 # 10) BALLOTPOLLING rows [] in
  let recount := [("a"%string, 1); ("b"%string, 4)] in
  vote_recount_transform self recount = Ok [("w"%string, 1); ("l"%string, 4)] /\
  collapse_fresh (n_winners self) recount = [("w"%string, 4); ("l"%string, 1)] /\
  vote_recount_transform self recount
  <> Ok (collapse_fresh (n_winners self) recount).
Proof.
  cbv zeta. split; [reflexivity|]. split; [reflexivity|].
  vm_compute. discriminate.
Qed.

(** C8, amended. A [SuperMajority] audit has [n_winners = 1]; its recount
    transform is its vote-count transform; and that transform maps a
    mapping defined on the candidates to [{'w': ..., 'l': ...}] where
    ['w'] is the sum, in the mapping passed in, of the [n_winners]
    candidates ranked first by the PRELIMINARY vote count of the audit,
    and ['l'] the sum of the others: the sums are recomputed from the
    mapping passed in, the ranking is not. *)
Theorem C8_collapse_over_preliminary_ranking
  (risk_limit : Q) (audit_type : AuditType) (preliminary recount : DataFrame)
  (m : dict string Z) :
  let self := SuperMajority_init risk_limit audit_type preliminary recount in
  (forall c, In c (candidates self) -> has_key m c) ->
  n_winners self = 1 /\
  vote_recount_transform self m = vote_count_transform self m /\
  let (W, L) := get_W_L_sets (vote_count self) (n_winners self) in
  vote_count_transform self m
  = Ok [("w"%string, sum (map (get0 m) W)); ("l"%string, sum (map (get0 m) L))].
Proof.
  intros self Hkeys.
  destruct (Plurality_init_fields risk_limit audit_type 1 preliminary recount)
    as [Hn [Hvc' Hcand']].
  assert (Hn1 : n_winners self = 1) by exact Hn.
  assert (Hvc : vote_count self = groupby_sum by_candidate preliminary)
    by exact Hvc'.
  assert (Hcand : candidates self = keys (vote_count self)).
  { rewrite Hvc. exact Hcand'. }
  split; [exact Hn1|]. split; [reflexivity|].
  assert (Hnd : NoDup (keys (vote_count self))).
  { rewrite Hvc. apply groupby_sum_NoDup. }
  change (vote_count_transform self m)
    with (SuperMajority_vote_count_transform self m).
  rewrite (SuperMajority_transform_ranking self m Hnd).
  destruct (get_W_L_sets (vote_count self) (n_winners self)) as [W L] eqn:HWL.
  assert (Hsub : forall c, In c W \/ In c L -> In c (keys (vote_count self))).
  { unfold get_W_L_sets in HWL. injection HWL as <- <-. intros c Hc.
    rewrite <- in_app_iff, <- map_app, slices_split in Hc.
    eapply Permutation_in; [|exact Hc].
    apply Permutation_map, sorted_reverse_perm. }
  rewrite !mapM_getitem; [reflexivity| |];
    intros c Hc; apply Hkeys; rewrite Hcand; apply Hsub; auto.
Qed.

Lemma C8_collapse_over_preliminary_ranking_witness :
  let rows := [ {| table := "t1"%string; candidate := "a"%string;
                   party := None; votes := 5 |};
                {| table := "t1"%string; candidate := "b"%string;
                   party := None; votes := 3 |};
                {| table := "t2"%string; candidate := "c"%string;
                   party := None; votes := 1 |} ] in
  let self := SuperMajority_init (1 # 10) BALLOTPOLLING rows [] in
  let m := [("a"%string, 1); ("b"%string, 4); ("c"%string, 2)] in
  n_winners self = 1 /\
  vote_recount_transform self m = vote_count_transform self m /\
  let (W, L) := get_W_L_sets (vote_count self) (n_winners self) in
  vote_count_transform self m
  = Ok [("w"%string, sum (map (get0 m) W)); ("l"%string, sum (map (get0 m) L))].
Proof.
  intros rows self m.
  apply (C8_collapse_over_preliminary_ranking (1 # 10) BALLOTPOLLING rows [] m).
  intros c [<-|[<-|[<-|[]]]]; eexists; reflexivity.
Defined.

End SuperMajority_claims.

(* ================================================================== *)
(** * The proportional method                                           *)
(* ================================================================== *)

Section DHondt_construction.
Import Utils Audits Props.

Lemma getitem_tabulate {V : Type} (f : string -> V) (l : list string) (q : string) :
  In q l -> getitem (map (fun q => (q, f q)) l) q = Ok (f q).
Proof.
  induction l as [|q0 l IH]; simpl; [intros []|].
  intros Hin. destruct (key_eq_dec q q0) as [->|Hne]; [reflexivity|].
  destruct Hin as [Heq|Hin]; [congruence|]. apply IH, Hin.
Qed.

Lemma range_spec (n i : Z) : In i (range n) <-> 0 <= i < n.
Proof.
  unfold range. rewrite in_map_iff. split.
  - intros [k [<- Hk]]. apply in_seq in Hk. lia.
  - intros Hi. exists (Z.to_nat i). split; [lia|]. apply in_seq. lia.
Qed.

Lemma mapM_total {A B : Type} (f : A -> result B) (g : A -> B) (l : list A) :
  (forall x, In x l -> f x = Ok (g x)) -> mapM f l = Ok (map g l).
Proof.
  induction l as [|x l IH]; simpl; intros Hf; [reflexivity|].
  rewrite (Hf x (or_introl eq_refl)). simpl.
  rewrite IH; [reflexivity|]. intros y Hy. apply Hf. right. exact Hy.
Qed.

Lemma pseudo_of_party_closed (vote_count : dict string Z) (size : string -> list string)
  (parties : list string) (n : Z) (q : string) :
  In q parties -> In q (keys vote_count) ->
  pseudo_of_party vote_count (map (fun q => (q, size q)) parties) n q
  = Ok (if key_eq_dec q EmptyString then []
        else pseudo_entries q (get0 vote_count q)
                            (Z.min n (Z.of_nat (List.length (size q))))).
Proof.
  intros Hq Hkey. unfold pseudo_of_party.
  destruct (key_eq_dec q EmptyString) as [_|Hne]; [reflexivity|].
  rewrite (getitem_tabulate size parties q Hq). simpl.
  apply getitem_of_key in Hkey. destruct Hkey as [v Hv].
  unfold pseudo_entries. rewrite (get0_of _ _ _ Hv).
  apply mapM_total. intros i Hi. apply range_spec in Hi.
  unfold p, t. rewrite Hv. simpl. unfold truediv, d.
  destruct (i + 1 =? 0) eqn:Hz; [apply Z.eqb_eq in Hz; lia|reflexivity].
Qed.

Lemma pseudo_vote_count_closed (vote_count : dict string Z)
  (size : string -> list string) (parties : list string) (n : Z) :
  (forall q, In q parties -> In q (keys vote_count)) ->
  forall sub, incl sub parties ->
  pseudo_vote_count vote_count (map (fun q => (q, size q)) parties) n sub
  = Ok (pseudo_table vote_count
          (fun q => Z.min n (Z.of_nat (List.length (size q)))) sub).
Proof.
  intros Hkeys sub Hsub. unfold pseudo_vote_count, pseudo_table.
  rewrite (mapM_total _
    (fun q => if key_eq_dec q EmptyString then []
              else pseudo_entries q (get0 vote_count q)
                     (Z.min n (Z.of_nat (List.length (size q)))))).
  - simpl. rewrite flat_map_concat_map. reflexivity.
  - intros q Hq. apply pseudo_of_party_closed; auto.
Qed.

End DHondt_construction.

Section DHondt_totality.
Import Utils Audits Props.

Lemma foldM_total {A S : Type} (f : S -> A -> result S) (l : list A) :
  (forall s x, In x l -> exists s', f s x = Ok s') ->
  forall s, exists s', foldM f l s = Ok s'.
Proof.
  induction l as [|x l IH]; simpl; intros Hf s; [eauto|].
  destruct (Hf s x (or_introl eq_refl)) as [s1 Hs1]. rewrite Hs1. simpl.
  apply IH. intros s' y Hy. apply Hf. right. exact Hy.
Qed.

Lemma contains_spec {K : Type} `{Hashable K} (l : list K) (k : K) :
  contains l k = true <-> In k l.
Proof.
  unfold contains. destruct (in_dec key_eq_dec k l); split; auto; discriminate.
Qed.

Lemma parties_in_acc (X : list PseudoCandidate) (acc : list string) :
  let out := fold_left (fun acc x => if contains acc (fst x) then acc
                                     else acc ++ [fst x]) X acc in
  (forall q, In q out <-> In q acc \/ In q (map fst X)) /\
  (NoDup acc -> NoDup out).
Proof.
  revert acc. induction X as [|x X IH]; intros acc; simpl.
  - split; [intuition|auto].
  - destruct (contains acc (fst x)) eqn:Hc.
    + apply contains_spec in Hc. destruct (IH acc) as [Hin Hnd].
      split; [|exact Hnd]. intros q. rewrite Hin. intuition (subst; auto).
    + destruct (IH (acc ++ [fst x])) as [Hin Hnd]. split.
      * intros q. rewrite Hin, in_app_iff. simpl. intuition.
      * intros Hacc. apply Hnd. apply NoDup_app; [exact Hacc|repeat constructor; intros []|].
        intros a Ha [<-|[]]. apply contains_spec in Ha. congruence.
Qed.

Lemma parties_in_spec (X : list PseudoCandidate) (q : string) :
  In q (parties_in X) <-> In q (map fst X).
Proof.
  unfold parties_in. destruct (parties_in_acc X []) as [Hin _].
  rewrite Hin. simpl. intuition.
Qed.

Lemma parties_in_NoDup (X : list PseudoCandidate) : NoDup (parties_in X).
Proof.
  unfold parties_in. destruct (parties_in_acc X []) as [_ Hnd].
  apply Hnd. constructor.
Qed.

Lemma indexes_of_In (X : list PseudoCandidate) (q : string) (i : Z) :
  In i (indexes_of X q) <-> In (q, i) X.
Proof.
  unfold indexes_of. rewrite in_map_iff. split.
  - intros [[q' i'] [Hi Hin]]. apply filter_In in Hin. destruct Hin as [Hin Hq].
    simpl in *. destruct (key_eq_dec q' q); [|discriminate]. subst. exact Hin.
  - intros Hin. exists (q, i). split; [reflexivity|]. apply filter_In.
    split; [exact Hin|]. simpl. destruct (key_eq_dec q q); congruence.
Qed.

Lemma holds_seat_spec (W : list PseudoCandidate) (q : string) :
  holds_seat W q = true <-> In q (map fst W).
Proof.
  unfold holds_seat. rewrite existsb_exists, in_map_iff. split.
  - intros [x [Hx Hq]]. exists x. destruct (key_eq_dec (fst x) q); [auto|discriminate].
  - intros [x [Hq Hx]]. exists x. split; [exact Hx|].
    destruct (key_eq_dec (fst x) q); congruence.
Qed.

Lemma seats_total (W : list PseudoCandidate) (q : string) :
  In q (map fst W) -> exists k, seats W q = Ok k.
Proof.
  intros Hq. apply in_map_iff in Hq. destruct Hq as [[q' i] [Heq Hin]].
  simpl in Heq. subst q'. apply indexes_of_In in Hin.
  unfold seats. destruct (indexes_of W q) as [|j js]; [contradiction|].
  simpl. eauto.
Qed.

Lemma winning_candidates_total (parties : list string) (size : string -> list string)
  (W : list PseudoCandidate) :
  exists wc,
    winning_candidates parties (map (fun q => (q, size q)) parties) W = Ok wc.
Proof.
  unfold winning_candidates.
  set (mpp := map (fun q => (q, size q)) parties).
  assert (Hgen : forall sub, incl sub parties -> forall acc, exists wc,
            foldM (fun acc q =>
                     if holds_seat W q then
                       n <- seats W q ;;
                       members <- getitem mpp q ;;
                       Ok (acc ++ slice_to n members)
                     else Ok acc) sub acc = Ok wc).
  { intros sub Hsub. apply foldM_total. intros acc q Hq.
    destruct (holds_seat W q) eqn:Hh; [|eauto].
    apply holds_seat_spec in Hh. destruct (seats_total W q Hh) as [k ->]. simpl.
    unfold mpp. rewrite (getitem_tabulate size parties q (Hsub q Hq)). simpl. eauto. }
  apply Hgen, incl_refl.
Qed.

Lemma seat_bound_total (pick : list Z -> result Z) (X : list PseudoCandidate)
  (parties : list string) :
  (forall i l, exists m, pick (i :: l) = Ok m) ->
  exists S, seat_bound pick X parties = Ok S.
Proof.
  intros Hpick. unfold seat_bound. apply foldM_total. intros acc q _.
  destruct (indexes_of X q) as [|i rest]; [eauto|].
  destruct (Hpick i rest) as [m ->]. simpl. eauto.
Qed.

Lemma Tp_total (risk_limit : Q) (audit_type : AuditType) (df recount : DataFrame)
  (W : list PseudoCandidate) (Wp : list string) :
  (forall q, In q Wp -> In q (map fst W)) ->
  exists Tp,
    mapM (fun q =>
            n <- seats W q ;;
            Ok (q, Plurality_init risk_limit audit_type n
                                  (rows_of_party df q) recount)) Wp = Ok Tp /\
    keys Tp = Wp.
Proof.
  induction Wp as [|q Wp IH]; simpl; intros Hq; [exists []; auto|].
  destruct (seats_total W q (Hq q (or_introl eq_refl))) as [k ->]. simpl.
  destruct IH as [Tp [-> Hkeys]]; [intros q' Hq'; apply Hq; right; exact Hq'|].
  simpl. eexists. split; [reflexivity|]. simpl. rewrite Hkeys. reflexivity.
Qed.

(** [DHondt.__init__] always returns; the fields used below
    are as follows. *)
Lemma DHondt_init_returns (risk_limit : Q) (audit_type : AuditType) (n : Z)
  (preliminary recount : DataFrame) :
  let filled := fillna_party preliminary in
  let vote_count := groupby_sum party filled in
  let pvc := pseudo_table vote_count
               (fun q => Z.min n (Z.of_nat (List.length (members_of filled q))))
               (keys vote_count) in
  exists dh,
    DHondt_init risk_limit audit_type n preliminary recount = Ok dh /\
    dh_vote_count dh = vote_count /\
    dh_parties dh = keys vote_count /\
    dh_pseudo_vote_count dh = pvc /\
    dh_W dh = fst (get_W_L_sets pvc n) /\
    dh_L dh = snd (get_W_L_sets pvc n) /\
    dh_Wp dh = parties_in (dh_W dh) /\
    keys (dh_Tp dh) = dh_Wp dh.
Proof.
  intros filled vote_count pvc. unfold DHondt_init.
  fold filled. fold vote_count.
  rewrite (pseudo_vote_count_closed vote_count (members_of filled)
             (keys vote_count) n (fun q Hq => Hq) _ (incl_refl _)).
  fold pvc. cbn [Py.bind].
  destruct (get_W_L_sets pvc n) as [W L].
  destruct (winning_candidates_total (keys vote_count) (members_of filled) W)
    as [wc ->]. cbn [Py.bind].
  destruct (seat_bound_total max_list W (keys vote_count)) as [Sw ->];
    [intros i l; simpl; eauto|]. cbn [Py.bind].
  destruct (seat_bound_total min_list L (keys vote_count)) as [Sl ->];
    [intros i l; simpl; eauto|]. cbn [Py.bind].
  destruct (Tp_total risk_limit audit_type filled recount W (parties_in W))
    as [Tp [-> HTp]]; [intros q; apply parties_in_spec|]. cbn [Py.bind].
  eexists. split; [reflexivity|]. cbn [dh_vote_count dh_parties dh_pseudo_vote_count
    dh_W dh_L dh_Wp dh_Tp fst snd]. auto 10.
Qed.

End DHondt_totality.

(** ** Votes of a group *)

Section Grouping.
Import Utils Audits Props.

Lemma sum_acc (l : list Z) (a : Z) : fold_left Z.add l a = a + sum l.
Proof.
  unfold sum. revert a. induction l as [|x l IH]; intros a; simpl; [lia|].
  rewrite (IH (a + x)), (IH x). lia.
Qed.

Lemma sum_cons (x : Z) (l : list Z) : sum (x :: l) = x + sum l.
Proof. unfold sum at 1. simpl. apply sum_acc. Qed.

Lemma int64_range (z : Z) : - 2 ^ 63 <= int64 z < 2 ^ 63.
Proof.
  unfold int64.
  pose proof (Z.mod_pos_bound (z + 2 ^ 63) (2 ^ 64) ltac:(reflexivity)) as Hb.
  change (2 ^ 64) with (2 * 2 ^ 63) in *. lia.
Qed.

Lemma int64_small (z : Z) : - 2 ^ 63 <= z < 2 ^ 63 -> int64 z = z.
Proof.
  intros Hz. unfold int64. rewrite Z.mod_small; [lia|].
  change (2 ^ 64) with (2 * 2 ^ 63). lia.
Qed.

Lemma int64_add (a b : Z) : int64 (int64 a + b) = int64 (a + b).
Proof.
  unfold int64. f_equal.
  replace ((a + 2 ^ 63) mod 2 ^ 64 - 2 ^ 63 + b + 2 ^ 63)
    with ((a + 2 ^ 63) mod 2 ^ 64 + b) by lia.
  rewrite Zplus_mod_idemp_l. f_equal. lia.
Qed.

Lemma int64_idem (z : Z) : int64 (int64 z) = int64 z.
Proof. apply int64_small, int64_range. Qed.

Lemma add_votes_get0 (k : string) (v : Z) (acc : dict string Z) (k' : string) :
  get0 (add_votes k v acc) k'
  = if key_eq_dec k' k then int64 (get0 acc k' + v) else get0 acc k'.
Proof.
  unfold get0. induction acc as [|[k0 v0] acc IH]; simpl.
  - destruct (key_eq_dec k' k); reflexivity.
  - destruct (key_eq_dec k k0) as [->|Hne]; simpl.
    + destruct (key_eq_dec k' k0); reflexivity.
    + destruct (key_eq_dec k' k0) as [->|Hne'].
      * destruct (key_eq_dec k0 k); [congruence|reflexivity].
      * exact IH.
Qed.

(** Every value of a grouped count is an [int64]. *)
Lemma add_votes_int64 (k : string) (v : Z) (acc : dict string Z) :
  Forall (fun binding => int64 (snd binding) = snd binding) acc ->
  Forall (fun binding => int64 (snd binding) = snd binding) (add_votes k v acc).
Proof.
  induction acc as [|[k0 v0] acc IH]; simpl; intros Hacc.
  - constructor; [apply int64_idem|constructor].
  - inversion Hacc as [|? ? Hv0 Hrest]; subst.
    destruct (key_eq_dec k k0); constructor; auto. apply int64_idem.
Qed.

Lemma group_votes_int64 (col : Row -> option string) (df : DataFrame) :
  Forall (fun binding => int64 (snd binding) = snd binding) (group_votes col df).
Proof.
  unfold group_votes.
  assert (Hgen : forall acc,
            Forall (fun binding => int64 (snd binding) = snd binding) acc ->
            Forall (fun binding => int64 (snd binding) = snd binding)
                   (fold_left (fun acc r =>
                                 match col r with
                                 | Some k => add_votes k (votes r) acc
                                 | None => acc
                                 end) df acc)).
  { induction df as [|r df IH]; simpl; intros acc Hacc; [exact Hacc|].
    apply IH. destruct (col r); [apply add_votes_int64, Hacc|exact Hacc]. }
  apply Hgen. constructor.
Qed.

Lemma group_votes_acc (col : Row -> option string) (df : DataFrame)
  (acc : dict string Z) (k : string) :
  let out := fold_left (fun acc r =>
                          match col r with
                          | Some k => add_votes k (votes r) acc
                          | None => acc
                          end) df acc in
  int64 (get0 out k)
  = int64 (get0 acc k + sum (map votes (filter (in_group col k) df))) /\
  (In k (keys out) <-> In k (keys acc) \/ exists r, In r df /\ in_group col k r = true).
Proof.
  revert acc. induction df as [|r df IH]; intros acc; simpl.
  - split; [f_equal; unfold sum; simpl; lia|]. split; [auto|].
    intros [Hin|[r [[] _]]]. exact Hin.
  - destruct (IH (match col r with
                  | Some k0 => add_votes k0 (votes r) acc
                  | None => acc
                  end)) as [Hget Hin].
    split.
    + rewrite Hget. unfold in_group at 2. destruct (col r) as [k0|] eqn:Hcol.
      * rewrite add_votes_get0.
        destruct (key_eq_dec k0 k) as [->|Hne].
        -- destruct (key_eq_dec k k); [|congruence]. simpl. rewrite sum_cons.
           rewrite int64_add. f_equal. lia.
        -- destruct (key_eq_dec k k0); [congruence|]. reflexivity.
      * reflexivity.
    + rewrite Hin. unfold in_group at 2. destruct (col r) as [k0|] eqn:Hcol.
      * rewrite add_votes_keys_in. split.
        -- intros [[->|Hk]|[r' [Hr' Hg]]]; eauto.
           right. exists r. split; [auto|]. unfold in_group. rewrite Hcol.
           destruct (key_eq_dec k0 k0); congruence.
        -- intros [Hk|[r' [[<-|Hr'] Hg]]]; eauto.
           unfold in_group in Hg. rewrite Hcol in Hg.
           destruct (key_eq_dec k0 k); [subst; auto|discriminate].
      * split.
        -- intros [Hk|[r' [Hr' Hg]]]; eauto.
        -- intros [Hk|[r' [[<-|Hr'] Hg]]]; eauto.
           unfold in_group in Hg. rewrite Hcol in Hg. discriminate.
Qed.

Lemma getitem_perm {K V : Type} `{Hashable K} (m m' : dict K V) (k : K) (v : V) :
  NoDup (keys m) -> Permutation m m' -> getitem m k = Ok v -> getitem m' k = Ok v.
Proof.
  intros Hnd Hperm Hget. apply In_getitem.
  - eapply Permutation_NoDup; [apply Permutation_map, Hperm|exact Hnd].
  - eapply Permutation_in; [exact Hperm|]. apply getitem_In, Hget.
Qed.

(** A key with at least one row is bound, in the grouped count, to the
    [int64] sum of the votes of its rows. *)
Lemma groupby_sum_get (col : Row -> option string) (df : DataFrame) (k : string) :
  (exists r, In r df /\ in_group col k r = true) ->
  getitem (groupby_sum col df) k
  = Ok (int64 (sum (map votes (filter (in_group col k) df)))).
Proof.
  intros Hrow.
  apply (getitem_perm (group_votes col df)).
  - apply group_votes_NoDup.
  - apply Permutation_sym, groupby_sum_perm.
  - destruct (group_votes_acc col df [] k) as [Hget Hin].
    fold (group_votes col df) in Hget, Hin.
    assert (Hkey : In k (keys (group_votes col df))) by (apply Hin; right; exact Hrow).
    apply getitem_of_key in Hkey. destruct Hkey as [v Hv].
    rewrite Hv. f_equal.
    pose proof (group_votes_int64 col df) as Hall. rewrite Forall_forall in Hall.
    specialize (Hall _ (getitem_In _ _ _ Hv)). simpl in Hall.
    rewrite <- Hall, <- (get0_of _ _ _ Hv), Hget.
    unfold get0. simpl. reflexivity.
Qed.

Lemma groupby_sum_keys (col : Row -> option string) (df : DataFrame) (k : string) :
  In k (keys (groupby_sum col df)) <-> exists r, In r df /\ in_group col k r = true.
Proof.
  destruct (group_votes_acc col df [] k) as [_ Hin].
  fold (group_votes col df) in Hin. simpl in Hin.
  assert (Hperm : Permutation (keys (groupby_sum col df)) (keys (group_votes col df)))
    by apply Permutation_map, groupby_sum_perm.
  split.
  - intros Hk. apply (Permutation_in _ Hperm) in Hk. apply Hin in Hk.
    destruct Hk as [[]|Hk]. exact Hk.
  - intros Hr. apply (Permutation_in _ (Permutation_sym Hperm)). apply Hin. auto.
Qed.

(** After [fillna('')], the rows of the empty party are the rows that had
    no party. *)
Lemma fillna_empty_group (df : DataFrame) :
  map votes (filter (in_group party EmptyString) (fillna_party df))
  = map votes (filter no_party df).
Proof.
  induction df as [|r df IH]; simpl; [reflexivity|].
  unfold in_group at 1, no_party at 1. simpl.
  destruct (party r) as [q|]; simpl.
  - destruct (key_eq_dec q EmptyString); simpl; [f_equal|]; exact IH.
  - f_equal. exact IH.
Qed.

Lemma fillna_empty_row (df : DataFrame) :
  (exists r, In r df /\ no_party r = true) ->
  exists r, In r (fillna_party df) /\ in_group party EmptyString r = true.
Proof.
  intros [r [Hr Hno]].
  exists {| table := table r; candidate := candidate r;
            party := Some (match party r with Some q => q | None => EmptyString end);
            votes := votes r |}.
  split.
  - unfold fillna_party. apply in_map_iff. exists r. auto.
  - unfold in_group, no_party in *. simpl. destruct (party r) as [q|]; [exact Hno|].
    reflexivity.
Qed.

End Grouping.

(** ** Pseudo-candidates and the seats they win *)

Section DHondt_claims.
Import Utils Audits Props.

Lemma get_W_L_sets_perm {K V : Type} `{PyOrd V} (m : dict K V) (n : Z) :
  Permutation (fst (get_W_L_sets m n) ++ snd (get_W_L_sets m n)) (keys m).
Proof.
  unfold get_W_L_sets. simpl. rewrite <- map_app, slices_split.
  apply Permutation_map, sorted_reverse_perm.
Qed.

Lemma pseudo_entries_keys (q : string) (v k : Z) (x : PseudoCandidate) :
  In x (keys (pseudo_entries q v k)) <-> fst x = q /\ 0 <= snd x < k.
Proof.
  unfold pseudo_entries, keys. rewrite map_map. simpl. rewrite in_map_iff.
  destruct x as [q' i]. simpl. split.
  - intros [j [Heq Hj]]. injection Heq as <- <-. apply range_spec in Hj. auto.
  - intros [<- Hi]. exists i. split; [reflexivity|]. apply range_spec, Hi.
Qed.

Lemma pseudo_table_keys (vote_count : dict string Z) (size : string -> Z)
  (parties : list string) (x : PseudoCandidate) :
  In x (keys (pseudo_table vote_count size parties)) <->
  In (fst x) parties /\ fst x <> EmptyString /\ 0 <= snd x < size (fst x).
Proof.
  unfold pseudo_table, keys. rewrite in_map_iff. split.
  - intros [[x' v] [Heq Hin]]. simpl in Heq. subst x'.
    apply in_flat_map in Hin. destruct Hin as [q [Hq Hin]].
    destruct (key_eq_dec q EmptyString) as [->|Hne]; [contradiction|].
    apply (in_map fst) in Hin. apply pseudo_entries_keys in Hin. simpl in Hin.
    destruct Hin as [<- Hi]. auto.
  - intros [Hq [Hne Hi]].
    assert (Hin : In x (keys (pseudo_entries (fst x) (get0 vote_count (fst x))
                                             (size (fst x)))))
      by (apply pseudo_entries_keys; auto).
    unfold keys in Hin. apply in_map_iff in Hin. destruct Hin as [e [He Hin]].
    exists e. split; [exact He|]. apply in_flat_map. exists (fst x).
    split; [exact Hq|]. destruct (key_eq_dec (fst x) EmptyString); [contradiction|].
    exact Hin.
Qed.

(** C10. Whatever the preliminary table, [DHondt.__init__] returns, and
    in the audit it builds: when some row has a missing or empty party,
    the party vote count has the key [''] with the sum of the votes of
    those rows (the [int64] sum that pandas computes); no pseudo-candidate
    [('', i)] exists; none is in [W]; the test [any(p == '' for p, i in W)] that awards seats is false; and
    [''] is neither in [Wp] nor a key of the sub-audits [Tp]. *)
Theorem C10_empty_party_never_wins
  (risk_limit : Q) (audit_type : AuditType) (n_winners : Z)
  (preliminary recount : DataFrame) :
  exists dh,
    DHondt_init risk_limit audit_type n_winners preliminary recount = Ok dh /\
    ((exists r, In r preliminary /\ no_party r = true) ->
     getitem (dh_vote_count dh) EmptyString
     = Ok (int64 (sum (map votes (filter no_party preliminary))))) /\
    (forall i, ~ In (EmptyString, i) (keys (dh_pseudo_vote_count dh))) /\
    (forall i, ~ In (EmptyString, i) (dh_W dh)) /\
    holds_seat (dh_W dh) EmptyString = false /\
    ~ In EmptyString (dh_Wp dh) /\
    ~ In EmptyString (keys (dh_Tp dh)).
Proof.
  destruct (DHondt_init_returns risk_limit audit_type n_winners preliminary recount)
    as [dh [Hinit [Hvc [_ [Hpvc [HW [_ [HWp HTp]]]]]]]].
  exists dh. split; [exact Hinit|].
  assert (Hno : forall i, ~ In (EmptyString, i) (keys (dh_pseudo_vote_count dh))).
  { intros i Hin. rewrite Hpvc in Hin. apply pseudo_table_keys in Hin.
    simpl in Hin. tauto. }
  assert (HnoW : forall i, ~ In (EmptyString, i) (dh_W dh)).
  { intros i Hin. apply (Hno i). rewrite HW in Hin.
    eapply Permutation_in; [apply get_W_L_sets_perm|].
    apply in_or_app. left. rewrite <- Hpvc in Hin. exact Hin. }
  assert (HnoP : ~ In EmptyString (map fst (dh_W dh))).
  { intros Hin. apply in_map_iff in Hin. destruct Hin as [[q i] [Hq Hin]].
    simpl in Hq. subst q. exact (HnoW i Hin). }
  split; [|split; [exact Hno|split; [exact HnoW|split; [|split]]]].
  - intros Hrow. rewrite Hvc, <- fillna_empty_group.
    apply groupby_sum_get, fillna_empty_row, Hrow.
  - destruct (holds_seat (dh_W dh) EmptyString) eqn:Hh; [|reflexivity].
    apply holds_seat_spec in Hh. contradiction.
  - rewrite HWp, parties_in_spec. exact HnoP.
  - rewrite HTp, HWp, parties_in_spec. exact HnoP.
Qed.

Lemma StronglySorted_app {A : Type} (R : A -> A -> Prop) (l1 l2 : list A) :
  StronglySorted R l1 -> StronglySorted R l2 ->
  (forall x y, In x l1 -> In y l2 -> R x y) ->
  StronglySorted R (l1 ++ l2).
Proof.
  intros H1 H2 Hcross. induction H1 as [|a l1 H1 IH Ha]; simpl; [exact H2|].
  constructor.
  - apply IH. intros x y Hx. apply Hcross. right. exact Hx.
  - apply Forall_app. split; [exact Ha|].
    apply Forall_forall. intros y Hy. apply Hcross; [left; reflexivity|exact Hy].
Qed.

Lemma StronglySorted_app_l {A : Type} (R : A -> A -> Prop) (l1 l2 : list A) :
  StronglySorted R (l1 ++ l2) -> StronglySorted R l1.
Proof.
  induction l1 as [|a l1 IH]; simpl; intros Hs; [constructor|].
  apply StronglySorted_inv in Hs. destruct Hs as [Hs Ha].
  constructor; [apply IH, Hs|]. apply Forall_app in Ha. tauto.
Qed.

Lemma StronglySorted_map {A B : Type} (R : B -> B -> Prop) (f : A -> B) (l : list A) :
  StronglySorted (fun x y => R (f x) (f y)) l -> StronglySorted R (map f l).
Proof.
  intros Hs. induction Hs as [|a l Hs IH Ha]; simpl; constructor; [exact IH|].
  apply Forall_map. exact Ha.
Qed.

Lemma StronglySorted_weaken {A : Type} (R R' : A -> A -> Prop) (l : list A) :
  (forall x y, In x l -> In y l -> R x y -> R' x y) ->
  StronglySorted R l -> StronglySorted R' l.
Proof.
  intros Himp Hs. induction Hs as [|a l Hs IH Ha]; constructor.
  - apply IH. intros x y Hx Hy. apply Himp; right; assumption.
  - rewrite Forall_forall in *. intros y Hy.
    apply Himp; [left; reflexivity|right; exact Hy|apply Ha, Hy].
Qed.

Lemma seq_sorted (start len : nat) : StronglySorted lt (seq start len).
Proof.
  revert start. induction len as [|len IH]; intros start; simpl; constructor.
  - apply IH.
  - apply Forall_forall. intros k Hk. apply in_seq in Hk. lia.
Qed.

Lemma range_sorted (k : Z) : StronglySorted Z.lt (range k).
Proof.
  unfold range. apply StronglySorted_map.
  eapply StronglySorted_weaken; [|apply seq_sorted].
  intros x y _ _ Hlt. lia.
Qed.

Lemma pseudo_entries_sorted (q : string) (v k : Z) :
  StronglySorted (fun a b => index_order (fst a) (fst b)) (pseudo_entries q v k).
Proof.
  unfold pseudo_entries.
  apply (StronglySorted_map (fun a b => index_order (fst a) (fst b))).
  eapply StronglySorted_weaken; [|apply range_sorted].
  intros i j _ _ Hlt. unfold index_order. simpl. intros _. exact Hlt.
Qed.

Lemma pseudo_table_sorted (vote_count : dict string Z) (size : string -> Z)
  (parties : list string) :
  NoDup parties ->
  StronglySorted (fun a b => index_order (fst a) (fst b))
                 (pseudo_table vote_count size parties).
Proof.
  induction parties as [|q ps IH]; intros Hnd; [constructor|].
  inversion Hnd as [|? ? Hq Hnd']; subst.
  change (pseudo_table vote_count size (q :: ps))
    with ((if key_eq_dec q EmptyString then []
           else pseudo_entries q (get0 vote_count q) (size q))
          ++ pseudo_table vote_count size ps).
  apply StronglySorted_app.
  - destruct (key_eq_dec q EmptyString); [constructor|apply pseudo_entries_sorted].
  - apply IH, Hnd'.
  - intros x y Hx Hy. unfold index_order. intros Hsame. exfalso. apply Hq.
    assert (Hxq : fst (fst x) = q).
    { destruct (key_eq_dec q EmptyString); [contradiction|].
      apply (in_map fst) in Hx. apply pseudo_entries_keys in Hx. tauto. }
    apply (in_map fst) in Hy. apply pseudo_table_keys in Hy.
    rewrite <- Hxq, Hsame. tauto.
Qed.

(** The value of a pseudo-candidate is the quotient of its party. *)
Lemma pseudo_table_value (vote_count : dict string Z) (size : string -> Z)
  (parties : list string) (a : PseudoCandidate * Q) :
  In a (pseudo_table vote_count size parties) ->
  0 <= snd (fst a) /\
  snd a = (inject_Z (get0 vote_count (fst (fst a))) / inject_Z (d (snd (fst a))))%Q.
Proof.
  unfold pseudo_table. intros Hin. apply in_flat_map in Hin.
  destruct Hin as [q [_ Hin]].
  destruct (key_eq_dec q EmptyString); [contradiction|].
  unfold pseudo_entries in Hin. apply in_map_iff in Hin.
  destruct Hin as [i [<- Hi]]. apply range_spec in Hi. simpl. split; [lia|reflexivity].
Qed.

Lemma quotient_antitone (v i j : Z) :
  0 <= v -> 0 <= i <= j ->
  (inject_Z v / inject_Z (d j) <= inject_Z v / inject_Z (d i))%Q.
Proof.
  intros Hv Hij. unfold d.
  apply Qle_shift_div_l; [unfold Qlt; simpl; lia|].
  unfold Qdiv. rewrite <- Qmult_assoc, (Qmult_comm (/ _)), Qmult_assoc.
  apply Qle_shift_div_r; [unfold Qlt; simpl; lia|].
  rewrite <- !inject_Z_mult, <- Zle_Qle. nia.
Qed.

(** The descending stable sort keeps the pseudo-candidates of a party in
    the order of their indexes: the quotients of a party do not increase
    with the index, and equal quotients keep their place. *)
Lemma ranking_keeps_index_order (vote_count : dict string Z) (size : string -> Z)
  (parties : list string) :
  NoDup parties -> nonneg vote_count ->
  StronglySorted index_order
    (keys (sorted_reverse snd (pseudo_table vote_count size parties))).
Proof.
  intros Hnd Hvotes.
  set (pvc := pseudo_table vote_count size parties).
  unfold keys. apply StronglySorted_map.
  pose proof (stable_sort_stable (fun x y : PseudoCandidate * Q => py_leb (snd y) (snd x))
                (fun a b => index_order (fst a) (fst b)) pvc
                (pseudo_table_sorted vote_count size parties Hnd)) as Hstable.
  fold (sorted_reverse snd pvc) in Hstable.
  eapply StronglySorted_weaken; [|exact Hstable].
  intros a b Ha Hb [Hord|Hlt]; [exact Hord|].
  simpl in Hlt. unfold index_order. intros Hsame.
  destruct (Z_lt_le_dec (snd (fst a)) (snd (fst b))) as [Hidx|Hidx]; [exact Hidx|].
  exfalso.
  assert (Hin : forall x, In x (sorted_reverse snd pvc) -> In x pvc).
  { intros x Hx. exact (Permutation_in _ (sorted_reverse_perm (V := Q) snd pvc) Hx). }
  destruct (pseudo_table_value _ _ _ _ (Hin a Ha)) as [Hia Hva].
  destruct (pseudo_table_value _ _ _ _ (Hin b Hb)) as [Hib Hvb].
  assert (Hle : (snd a <= snd b)%Q).
  { rewrite Hva, Hvb, Hsame. apply quotient_antitone; [|lia].
    unfold get0. destruct (getitem vote_count (fst (fst b))) as [v|] eqn:Hv; [|lia].
    exact (getitem_nonneg _ _ _ Hvotes Hv). }
  apply Qle_bool_iff in Hle. unfold py_leb, Q_PyOrd in Hlt. congruence.
Qed.

Lemma indexes_of_cons (x : PseudoCandidate) (X : list PseudoCandidate) (q : string) :
  indexes_of (x :: X) q
  = if key_eq_dec (fst x) q then snd x :: indexes_of X q else indexes_of X q.
Proof.
  unfold indexes_of. simpl. destruct (key_eq_dec (fst x) q); reflexivity.
Qed.

Lemma indexes_of_sorted (X : list PseudoCandidate) (q : string) :
  StronglySorted index_order X -> StronglySorted Z.lt (indexes_of X q).
Proof.
  intros Hs. induction Hs as [|x X Hs IH Hx]; [constructor|].
  rewrite indexes_of_cons. destruct (key_eq_dec (fst x) q) as [Hq|Hq]; [|exact IH].
  constructor; [exact IH|]. apply Forall_forall. intros j Hj.
  apply indexes_of_In in Hj. rewrite Forall_forall in Hx.
  apply (Hx _ Hj). simpl. exact Hq.
Qed.

(** A strictly increasing list of integers from [a] upwards that has no
    gap is [a, a + 1, ...]. *)
Lemma no_gap_list (l : list Z) (a : Z) :
  StronglySorted Z.lt l ->
  (forall j, In j l -> a <= j) ->
  (forall i j, In j l -> a <= i < j -> In i l) ->
  forall j, In j l <-> a <= j < a + Z.of_nat (List.length l).
Proof.
  intros Hs. revert a. induction Hs as [|x l Hs IH Hx]; intros a Hlow Hgap j.
  - simpl. lia.
  - rewrite Forall_forall in Hx.
    assert (Hxa : x = a).
    { pose proof (Hlow x (or_introl eq_refl)) as Hax.
      destruct (Z.eq_dec x a) as [Heq|Hne]; [exact Heq|].
      destruct (Hgap a x (or_introl eq_refl)) as [Heq|Hin]; [lia|congruence|].
      apply Hx in Hin. lia. }
    subst x.
    assert (IH' : forall j, In j l <-> a + 1 <= j < a + 1 + Z.of_nat (List.length l)).
    { apply IH.
      - intros k Hk. apply Hx in Hk. lia.
      - intros i k Hk Hi. destruct (Hgap i k (or_intror Hk)) as [Heq|Hin]; [lia|lia|].
        exact Hin. }
    simpl List.length. rewrite Nat2Z.inj_succ. simpl. rewrite IH'. lia.
Qed.

Lemma fold_max_spec (l : list Z) (x : Z) :
  let m := fold_left Z.max l x in
  (m = x \/ In m l) /\ x <= m /\ (forall j, In j l -> j <= m).
Proof.
  revert x. induction l as [|y l IH]; intros x; simpl.
  - split; [auto|]. split; [lia|]. intros j [].
  - destruct (IH (Z.max x y)) as [Hin [Hle Hub]]. split; [|split].
    + destruct Hin as [Heq|Hin]; [|auto].
      rewrite Heq. destruct (Z.max_spec x y) as [[_ ->]|[_ ->]]; auto.
    + lia.
    + intros j [<-|Hj]; [lia|apply Hub, Hj].
Qed.

Lemma max_list_spec (l : list Z) (m : Z) :
  max_list l = Ok m -> In m l /\ forall j, In j l -> j <= m.
Proof.
  destruct l as [|x l]; simpl; [discriminate|].
  intros Heq. injection Heq as <-.
  destruct (fold_max_spec l x) as [Hin [Hle Hub]]. split.
  - destruct Hin as [->|Hin]; auto.
  - intros j [<-|Hj]; [exact Hle|apply Hub, Hj].
Qed.

(** The seats of a party: as many as it has pseudo-candidates in [W]. *)
Lemma seats_count (W L : list PseudoCandidate) (q : string) (k : Z) :
  StronglySorted index_order (W ++ L) ->
  (forall i j, In (q, j) (W ++ L) -> 0 <= i < j -> In (q, i) (W ++ L)) ->
  (forall j, In (q, j) (W ++ L) -> 0 <= j) ->
  seats W q = Ok k ->
  k = Z.of_nat (List.length (indexes_of W q)).
Proof.
  intros Hs Hclosed Hlow Hseats. unfold seats in Hseats. inv_bind Hseats.
  injection Hseats as <-. apply max_list_spec in Hx. destruct Hx as [Hin Hub].
  assert (Hrange : forall j, In j (indexes_of W q) <->
                             0 <= j < 0 + Z.of_nat (List.length (indexes_of W q))).
  { apply no_gap_list.
    - apply indexes_of_sorted. eapply StronglySorted_app_l. exact Hs.
    - intros j Hj. apply indexes_of_In in Hj. apply Hlow, in_or_app. auto.
    - intros i j Hj Hi. apply indexes_of_In in Hj. apply indexes_of_In.
      assert (Hqi : In (q, i) (W ++ L))
        by (apply (Hclosed i j); [apply in_or_app; auto|exact Hi]).
      apply in_app_or in Hqi. destruct Hqi as [HiW|HiL]; [exact HiW|].
      pose proof (StronglySorted_app_inv _ _ _ Hs _ _ Hj HiL eq_refl) as Hlt.
      simpl in Hlt. lia. }
  pose proof (proj1 (Hrange x) Hin) as Hxr.
  assert (Hlast : In (Z.of_nat (List.length (indexes_of W q)) - 1) (indexes_of W q))
    by (apply Hrange; lia).
  apply Hub in Hlast. lia.
Qed.

Lemma count_one (f : string -> Z) (q : string) (ps : list string) :
  NoDup ps -> In q ps ->
  sum (map (fun q' => if key_eq_dec q q' then f q' + 1 else f q') ps)
  = sum (map f ps) + 1.
Proof.
  induction ps as [|p ps IH]; intros Hnd Hq; [contradiction|].
  inversion Hnd as [|? ? Hp Hnd']; subst. simpl. rewrite !sum_cons.
  destruct (key_eq_dec q p) as [->|Hne].
  - rewrite (map_ext_in _ f); [lia|].
    intros p' Hp'. destruct (key_eq_dec p p'); [congruence|reflexivity].
  - destruct Hq as [Heq|Hq]; [congruence|]. rewrite (IH Hnd' Hq). lia.
Qed.

(** Counting the pseudo-candidates party by party counts them all. *)
Lemma count_by_party (W : list PseudoCandidate) (ps : list string) :
  NoDup ps -> (forall x, In x W -> In (fst x) ps) ->
  sum (map (fun q => Z.of_nat (List.length (indexes_of W q))) ps)
  = Z.of_nat (List.length W).
Proof.
  intros Hnd. induction W as [|x W IH]; intros Hps.
  - simpl. clear Hnd Hps. induction ps as [|p ps IHps]; [reflexivity|].
    simpl. rewrite sum_cons, IHps. reflexivity.
  - rewrite (map_ext _ (fun q => if key_eq_dec (fst x) q
                                 then Z.of_nat (List.length (indexes_of W q)) + 1
                                 else Z.of_nat (List.length (indexes_of W q)))).
    + rewrite count_one; [|exact Hnd|apply Hps; left; reflexivity].
      rewrite IH; [simpl List.length; lia|].
      intros y Hy. apply Hps. right. exact Hy.
    + intros q. rewrite indexes_of_cons.
      destruct (key_eq_dec (fst x) q); [simpl List.length; lia|reflexivity].
Qed.

Lemma sum_nonneg (l : list Z) : Forall (fun x => 0 <= x) l -> 0 <= sum l.
Proof.
  induction 1 as [|x l Hx _ IH]; [unfold sum; simpl; lia|].
  rewrite sum_cons. lia.
Qed.

Lemma sum_filter_le (f : Row -> bool) (df : DataFrame) :
  (forall r, In r df -> 0 <= votes r) ->
  0 <= sum (map votes (filter f df)) <= sum (map votes df).
Proof.
  induction df as [|r df IH]; intros Hvotes.
  - simpl. change (sum []) with 0. lia.
  - assert (Hr : 0 <= votes r) by (apply Hvotes; left; reflexivity).
    assert (Hrest : 0 <= sum (map votes (filter f df)) <= sum (map votes df))
      by (apply IH; intros r' Hr'; apply Hvotes; right; exact Hr').
    cbn [filter map]. destruct (f r); cbn [map]; rewrite ?sum_cons; lia.
Qed.

(** While the total of the table fits in an [int64], the grouped count
    holds the exact sums. *)
Lemma groupby_sum_exact (col : Row -> option string) (df : DataFrame) (k : string) :
  fits_int64 df ->
  (exists r, In r df /\ in_group col k r = true) ->
  getitem (groupby_sum col df) k = Ok (sum (map votes (filter (in_group col k) df))).
Proof.
  intros [Hvotes Htotal] Hrow. rewrite (groupby_sum_get col df k Hrow). f_equal.
  pose proof (sum_filter_le (in_group col k) df Hvotes) as Hle.
  apply int64_small. lia.
Qed.

Lemma groupby_sum_nonneg (col : Row -> option string) (df : DataFrame) :
  fits_int64 df -> nonneg (groupby_sum col df).
Proof.
  intros Hfits. unfold nonneg. apply Forall_forall. intros [k v] Hin. simpl.
  pose proof (In_getitem _ _ _ (groupby_sum_NoDup col df) Hin) as Hget.
  assert (Hkey : In k (keys (groupby_sum col df))) by (apply (in_map fst) in Hin; exact Hin).
  apply groupby_sum_keys in Hkey. rewrite (groupby_sum_exact col df k Hfits Hkey) in Hget.
  injection Hget as <-. apply (sum_filter_le (in_group col k) df), Hfits.
Qed.

Lemma fillna_votes (df : DataFrame) : fits_int64 df -> fits_int64 (fillna_party df).
Proof.
  intros [Hvotes Htotal]. split.
  - intros r Hr. unfold fillna_party in Hr. apply in_map_iff in Hr.
    destruct Hr as [r0 [<- Hr0]]. simpl. apply Hvotes, Hr0.
  - unfold fillna_party. rewrite map_map. simpl. exact Htotal.
Qed.

(** C4, as stated, fails when a party total wraps around: party X has two
    candidates with 2^62 votes each, party Y one candidate with one vote,
    and [n_winners = 2].  The [int64] total of X is -2^63, so its
    quotients grow with the index: the ranking is (Y, 0), (X, 1), (X, 0),
    [W] holds (X, 1) without (X, 0), and the seat counts are 1 for Y and
    [1 + 1 = 2] for X, three seats for two winners. *)
Lemma C4_counterexample :
  let rows :=
    [ {| table := "t1"%string; candidate := "a"%string;
         party := Some "X"%string; votes := 2 ^ 62 |};
      {| table := "t1"%string; candidate := "b"%string;
         party := Some "X"%string; votes := 2 ^ 62 |};
      {| table := "t1"%string; candidate := "c"%string;
         party := Some "Y"%string; votes := 1 |} ] in
  (forall r, In r rows -> 0 <= votes r) /\
  exists dh awarded,
    DHondt_init (1 # 10) BALLOTPOLLING 2 rows [] = Ok dh /\
    2 <= Z.of_nat (List.length (dh_pseudo_vote_count dh)) /\
    getitem (dh_vote_count dh) "X"%string = Ok (- 2 ^ 63) /\
    dh_W dh = [("Y"%string, 0); ("X"%string, 1)] /\
    mapM (seats (dh_W dh)) (dh_Wp dh) = Ok awarded /\
    sum awarded = 3.
Proof.
  intros rows. split.
  - intros r [<-|[<-|[<-|[]]]]; simpl; lia.
  - destruct (DHondt_init (1 # 10) BALLOTPOLLING 2 rows []) as [dh|ex] eqn:Hinit;
      [|vm_compute in Hinit; discriminate Hinit].
    vm_compute in Hinit. injection Hinit as <-.
    eexists. eexists. split; [reflexivity|].
    split; [vm_compute; discriminate|].
    split; [reflexivity|]. split; [reflexivity|].
    split; [vm_compute; reflexivity|]. reflexivity.
Qed.

(** C4, amended. In a D'Hondt audit built from a preliminary table without
    negative votes whose total number of votes is below 2^63 (no party
    total wraps around), with [n_winners > 0] and at least [n_winners]
    pseudo-candidates, the seat counts
    [max([i for p, i in W if p == party]) + 1] of the winning parties
    [Wp] are all defined and add up to [n_winners]. *)
Theorem C4_seats_sum_to_n_winners
  (risk_limit : Q) (audit_type : AuditType) (n_winners : Z)
  (preliminary recount : DataFrame) (dh : DHondt) :
  DHondt_init risk_limit audit_type n_winners preliminary recount = Ok dh ->
  fits_int64 preliminary ->
  0 < n_winners ->
  n_winners <= Z.of_nat (List.length (dh_pseudo_vote_count dh)) ->
  exists awarded,
    mapM (seats (dh_W dh)) (dh_Wp dh) = Ok awarded /\ sum awarded = n_winners.
Proof.
  intros Hinit Hvotes Hn Hlen.
  destruct (DHondt_init_returns risk_limit audit_type n_winners preliminary recount)
    as [dh' [Hinit' [_ [_ [Hpvc [HW [HL [HWp _]]]]]]]].
  assert (dh' = dh) by congruence. subst dh'. clear Hinit'.
  set (filled := fillna_party preliminary) in *.
  set (vote_count := groupby_sum party filled) in *.
  set (size := fun q => Z.min n_winners
                              (Z.of_nat (List.length (members_of filled q)))) in *.
  set (pvc := pseudo_table vote_count size (keys vote_count)) in *.
  set (ranked := sorted_reverse snd pvc).
  set (W := dh_W dh) in *. set (L := dh_L dh) in *.
  assert (HWL : W ++ L = keys ranked).
  { rewrite HW, HL. unfold get_W_L_sets. simpl. unfold keys.
    rewrite <- map_app, slices_split. reflexivity. }
  assert (Hsorted : StronglySorted index_order (W ++ L)).
  { rewrite HWL. apply ranking_keeps_index_order.
    - apply groupby_sum_NoDup.
    - apply groupby_sum_nonneg, fillna_votes, Hvotes. }
  assert (Hkeys : forall x, In x (W ++ L) <-> In x (keys pvc)).
  { intros x. rewrite HWL.
    assert (Hperm : Permutation (keys ranked) (keys pvc))
      by apply Permutation_map, (sorted_reverse_perm (V := Q)).
    split; intros Hx.
    - exact (Permutation_in _ Hperm Hx).
    - exact (Permutation_in _ (Permutation_sym Hperm) Hx). }
  assert (Hseats : forall q, In q (dh_Wp dh) ->
            seats W q = Ok (Z.of_nat (List.length (indexes_of W q)))).
  { intros q Hq. rewrite HWp in Hq. apply parties_in_spec in Hq.
    destruct (seats_total W q Hq) as [k Hk]. rewrite Hk. f_equal.
    apply (seats_count W L q k Hsorted); [| |exact Hk].
    - intros i j Hj Hi. apply Hkeys. apply Hkeys in Hj.
      unfold pvc in *. apply pseudo_table_keys in Hj. apply pseudo_table_keys.
      simpl in *. intuition lia.
    - intros j Hj. apply Hkeys in Hj. unfold pvc in Hj.
      apply pseudo_table_keys in Hj. simpl in Hj. lia. }
  exists (map (fun q => Z.of_nat (List.length (indexes_of W q))) (dh_Wp dh)).
  split; [apply mapM_total, Hseats|].
  rewrite count_by_party.
  - rewrite HW. unfold get_W_L_sets. simpl. rewrite length_map.
    apply slice_to_length.
    rewrite (Permutation_length (sorted_reverse_perm (V := Q) snd pvc)).
    rewrite <- Hpvc. lia.
  - rewrite HWp. apply parties_in_NoDup.
  - intros x Hx. rewrite HWp. apply parties_in_spec, in_map, Hx.
Qed.

Local Open Scope string_scope.

Lemma C4_seats_sum_to_n_winners_witness :
  let rows :=
    [ {| table := "t1"; candidate := "a"; party := Some "X"; votes := 5 |};
      {| table := "t1"; candidate := "b"; party := Some "X"; votes := 3 |};
      {| table := "t1"; candidate := "c"; party := Some "Y"; votes := 6 |};
      {| table := "t1"; candidate := "e"; party := None; votes := 60 |};
      {| table := "t1"; candidate := "d"; party := Some "Y"; votes := 1 |} ] in
  exists dh awarded,
    DHondt_init (1 # 10) BALLOTPOLLING 3 rows [] = Ok dh /\
    mapM (seats (dh_W dh)) (dh_Wp dh) = Ok awarded /\ sum awarded = 3.
Proof.
  intros rows.
  destruct (DHondt_init (1 # 10) BALLOTPOLLING 3 rows []) as [dh|ex] eqn:Hinit;
    [|vm_compute in Hinit; discriminate Hinit].
  exists dh.
  destruct (C4_seats_sum_to_n_winners (1 # 10) BALLOTPOLLING 3 rows [] dh Hinit)
    as [awarded Hawarded].
  - split; [|vm_compute; reflexivity].
    intros r [<-|[<-|[<-|[<-|[<-|[]]]]]]; simpl; lia.
  - lia.
  - vm_compute in Hinit. injection Hinit as <-. vm_compute. discriminate.
  - exists awarded. split; [reflexivity|exact Hawarded].
Defined.

End DHondt_claims.

(* ================================================================== *)
(** * Further properties: the winner and loser sets                     *)
(* ================================================================== *)

Section Partition_more.
Import Utils Props.

Lemma slice_to_length_any {A : Type} (n : Z) (l : list A) :
  Z.of_nat (List.length (slice_to n l))
  = if n <? 0 then Z.max 0 (Z.of_nat (List.length l) + n)
    else Z.min n (Z.of_nat (List.length l)).
Proof.
  unfold slice_to, slice_index. rewrite length_firstn.
  destruct (n <? 0) eqn:Hneg; [apply Z.ltb_lt in Hneg|apply Z.ltb_ge in Hneg]; lia.
Qed.

(** X1. [get_W_L_sets] splits the ids of a vote count for every integer
    [n_winners], in or out of range: [W] followed by [L] is a
    rearrangement of the keys, no id of [L] has more votes than an id of
    [W], and [W] has [min(n_winners, len)] ids when [n_winners >= 0] and
    [max(len + n_winners, 0)] ids when it is negative (Python's slicing:
    [n_winners = -1] makes every id but the last ranked a winner). *)
Theorem X1_get_W_L_sets_any_n_winners
  {K V : Type} `{Hashable K} `{PyOrdLaws V}
  (vote_count : dict K V) (n_winners : Z) (W L : list K) :
  NoDup (keys vote_count) ->
  get_W_L_sets vote_count n_winners = (W, L) ->
  Permutation (W ++ L) (keys vote_count) /\
  Z.of_nat (List.length W)
  = (if n_winners <? 0
     then Z.max 0 (Z.of_nat (List.length vote_count) + n_winners)
     else Z.min n_winners (Z.of_nat (List.length vote_count))) /\
  (forall w l vw vl,
      In w W -> In l L ->
      getitem vote_count w = Ok vw -> getitem vote_count l = Ok vl ->
      py_leb vl vw = true).
Proof.
  intros Hnd Hget.
  pose proof (get_W_L_sets_perm vote_count n_winners) as Hperm.
  rewrite Hget in Hperm. simpl in Hperm.
  unfold get_W_L_sets in Hget. injection Hget as <- <-.
  set (ranked := sorted_reverse snd vote_count) in *.
  assert (Hranked : Permutation ranked vote_count) by apply sorted_reverse_perm.
  split; [exact Hperm|]. split.
  - rewrite length_map, slice_to_length_any, (Permutation_length Hranked).
    reflexivity.
  - intros w l vw vl Hw Hl Hvw Hvl.
    apply in_map_iff in Hw. destruct Hw as [[w' vw'] [Hw' Hw]].
    apply in_map_iff in Hl. destruct Hl as [[l' vl'] [Hl' Hl]].
    simpl in Hw', Hl'. subst w' l'.
    pose proof (sorted_reverse_sorted snd vote_count) as Hsorted.
    fold ranked in Hsorted.
    rewrite <- (slices_split n_winners ranked) in Hsorted.
    pose proof (StronglySorted_app_inv _ _ _ Hsorted _ _ Hw Hl) as Hle.
    simpl in Hle.
    assert (Hin : forall x, In x (slice_to n_winners ranked)
                            \/ In x (slice_from n_winners ranked) ->
                            In x vote_count).
    { intros x Hx. apply (Permutation_in _ Hranked).
      rewrite <- (slices_split n_winners ranked). apply in_or_app, Hx. }
    pose proof (In_getitem _ _ _ Hnd (Hin _ (or_introl Hw))) as Hw1.
    pose proof (In_getitem _ _ _ Hnd (Hin _ (or_intror Hl))) as Hl1.
    assert (vw' = vw) by congruence. assert (vl' = vl) by congruence.
    subst. exact Hle.
Qed.

Lemma X1_get_W_L_sets_any_n_winners_witness :
  let vote_count := [("a"%string, 10); ("b"%string, 30); ("c"%string, 20)] in
  let W := ["b"%string; "c"%string] in
  let L := ["a"%string] in
  Permutation (W ++ L) (keys vote_count) /\
  Z.of_nat (List.length W) = Z.max 0 (3 + -1) /\
  (forall w l vw vl,
      In w W -> In l L ->
      getitem vote_count w = Ok vw -> getitem vote_count l = Ok vl ->
      (vl <=? vw) = true).
Proof.
  intros vote_count W L.
  apply (X1_get_W_L_sets_any_n_winners (V := Z) vote_count (-1) W L).
  - repeat constructor; simpl; intuition discriminate.
  - reflexivity.
Defined.

Lemma never_second_sorted {A : Type} (x : A) (l : list A) :
  ~ In x l -> StronglySorted (fun _ b => b <> x) l.
Proof.
  induction l as [|y l IH]; intros Hx; constructor.
  - apply IH. intros Hin. apply Hx. right. exact Hin.
  - apply Forall_forall. intros b Hb Heq. subst b. apply Hx. right. exact Hb.
Qed.

(** In a list without repetition in which [x1] comes before [x2], no pair
    of positions holds [x2] first and [x1] second. *)
Lemma order_of_two {A : Type} (x1 x2 : A) (l1 l2 l3 : list A) :
  NoDup (l1 ++ x1 :: l2 ++ x2 :: l3) ->
  StronglySorted (fun a b => ~ (a = x2 /\ b = x1)) (l1 ++ x1 :: l2 ++ x2 :: l3).
Proof.
  induction l1 as [|y l1 IH]; simpl; intros Hnd;
    inversion Hnd as [|? ? Hnotin Hnd']; subst.
  - constructor.
    + eapply StronglySorted_weaken; [|apply never_second_sorted, Hnotin].
      intros a b _ _ Hb [_ Heq]. exact (Hb Heq).
    + apply Forall_forall. intros b Hb [Heq _]. subst x2.
      apply Hnotin, in_or_app. right. left. reflexivity.
  - constructor; [apply IH, Hnd'|].
    apply Forall_forall. intros b Hb [Heq _]. subst y.
    apply Hnotin, in_or_app. right. right. apply in_or_app. right. left. reflexivity.
Qed.

(** X2. Ties and order of the dictionary: when [k1] comes before [k2] in
    the vote count and has at least as many votes, [k2] is never a winner
    without [k1] being one (the sort is stable), whatever [n_winners]. *)
Theorem X2_get_W_L_sets_earlier_id_first
  {K V : Type} `{Hashable K} `{PyOrd V}
  (before between after : dict K V) (k1 k2 : K) (v1 v2 : V)
  (n_winners : Z) (W L : list K) :
  let vote_count := before ++ (k1, v1) :: between ++ (k2, v2) :: after in
  NoDup (keys vote_count) ->
  py_leb v2 v1 = true ->
  get_W_L_sets vote_count n_winners = (W, L) ->
  In k2 W -> In k1 W.
Proof.
  intros vote_count Hnd Hle Hget Hk2.
  unfold get_W_L_sets in Hget. injection Hget as <- <-.
  set (ranked := sorted_reverse snd vote_count) in *.
  assert (Hitems : NoDup vote_count) by exact (NoDup_map_inv _ _ Hnd).
  pose proof (stable_sort_stable (fun x y : K * V => py_leb (snd y) (snd x))
                (fun a b => ~ (a = (k2, v2) /\ b = (k1, v1))) vote_count
                (order_of_two _ _ _ _ _ Hitems)) as Hstable.
  fold (sorted_reverse snd vote_count) in Hstable. fold ranked in Hstable.
  rewrite <- (slices_split n_winners ranked) in Hstable.
  assert (Hranked : Permutation ranked vote_count) by apply sorted_reverse_perm.
  assert (Hx1 : In (k1, v1) ranked).
  { apply (Permutation_in _ (Permutation_sym Hranked)).
    unfold vote_count. apply in_or_app. right. left. reflexivity. }
  rewrite <- (slices_split n_winners ranked) in Hx1. apply in_app_or in Hx1.
  destruct Hx1 as [Hx1|Hx1]; [apply (in_map fst) in Hx1; exact Hx1|].
  exfalso.
  apply in_map_iff in Hk2. destruct Hk2 as [[k2' v2'] [Heq Hx2]].
  simpl in Heq. subst k2'.
  assert (v2' = v2).
  { assert (Hin : In (k2, v2') vote_count).
    { apply (Permutation_in _ Hranked).
      rewrite <- (slices_split n_winners ranked). apply in_or_app. left. exact Hx2. }
    assert (Hin2 : In (k2, v2) vote_count).
    { unfold vote_count. apply in_or_app. right. right. apply in_or_app.
      right. left. reflexivity. }
    apply (In_getitem _ _ _ Hnd) in Hin, Hin2. congruence. }
  subst v2'.
  destruct (StronglySorted_app_inv _ _ _ Hstable _ _ Hx2 Hx1) as [Hp|Hb].
  - apply Hp. auto.
  - simpl in Hb. congruence.
Qed.

Lemma X2_get_W_L_sets_earlier_id_first_witness :
  In "a"%string ["a"%string; "c"%string].
Proof.
  apply (X2_get_W_L_sets_earlier_id_first (V := Z)
           [] [("b"%string, 5)] [("d"%string, 1)] "a"%string "c"%string 7 7
           2 ["a"%string; "c"%string] ["b"%string; "d"%string]).
  - repeat constructor; simpl; intuition discriminate.
  - reflexivity.
  - reflexivity.
  - right. left. reflexivity.
Defined.

End Partition_more.

(* ================================================================== *)
(** * Further properties: the ballot-polling statistic                  *)
(* ================================================================== *)

Section SPRT_more.
Import Utils UtilsRest Audits Props MoreProps.

Lemma sprt_cell_max (vc rc : dict string Z) (alpha : Q) (S1 S2 : option (dict string Z))
  (w l : string) (tv m tv' m' : Q) :
  sprt_cell vc rc alpha S1 S2 w l tv m = (tv', Ok m') ->
  m' = max2 m (1 / tv').
Proof.
  unfold sprt_cell. destruct (sprt_update vc rc alpha S1 S2 w l tv) as [v|ex];
    [|discriminate].
  intros Heq. injection Heq as <- Hm. unfold decimal_div in Hm.
  destruct (Qeq_bool v 0); [destruct (Qeq_bool 1 0); discriminate|].
  simpl in Hm. congruence.
Qed.

Lemma sprt_row_max (vc rc : dict string Z) (alpha : Q) (S1 S2 : option (dict string Z))
  (w : string) (row row' : dict string Q) (m m' : Q) :
  sprt_row vc rc alpha S1 S2 w row m = (row', Ok m') ->
  is_max_of m' (m :: map p_value row').
Proof.
  revert m row'. induction row as [|[l tv] rest IH]; intros m row'; simpl.
  - intros Heq. injection Heq as <- <-. apply is_max_of_single.
  - destruct (sprt_cell vc rc alpha S1 S2 w l tv m) as [tv' [m1|ex]] eqn:Hcell;
      [|discriminate].
    destruct (sprt_row vc rc alpha S1 S2 w rest m1) as [rest' r] eqn:Hrest.
    intros Heq. injection Heq as <- ->.
    apply sprt_cell_max in Hcell. subst m1. simpl.
    apply is_max_of_step. exact (IH _ _ Hrest).
Qed.

Lemma sprt_rows_max (vc rc : dict string Z) (alpha : Q) (S1 S2 : option (dict string Z))
  (T T' : Tmatrix) (m m' : Q) :
  sprt_rows vc rc alpha S1 S2 T m = (T', Ok m') ->
  is_max_of m' (m :: map p_value (cells T')).
Proof.
  revert m T'. induction T as [|[w row] rest IH]; intros m T'; simpl.
  - intros Heq. injection Heq as <- <-. apply is_max_of_single.
  - destruct (sprt_row vc rc alpha S1 S2 w row m) as [row' [m1|ex]] eqn:Hrow;
      [|discriminate].
    destruct (sprt_rows vc rc alpha S1 S2 rest m1) as [rest' r] eqn:Hrest.
    intros Heq. injection Heq as <- ->.
    unfold cells. simpl. rewrite map_app.
    eapply is_max_of_chain; [exact (sprt_row_max _ _ _ _ _ _ _ _ _ _ Hrow)|].
    exact (IH _ _ Hrest).
Qed.

(** X3. When [ballot_polling_SPRT] returns, the [max_p_value] it returns
    is the largest of 0 and of the p-values [1 / T[winner][loser]] of the
    cells of the matrix it returns. *)
Theorem X3_max_p_value_is_largest_p_value
  (vote_count recount : dict string Z) (T T' : Tmatrix) (risk_limit : Q)
  (Sw Sl : option (dict string Z)) (max_p_value : Q) :
  ballot_polling_SPRT vote_count recount T risk_limit Sw Sl = (T', Ok max_p_value) ->
  is_max_of max_p_value (0%Q :: map p_value (cells T')).
Proof. apply sprt_rows_max. Qed.

Lemma X3_max_p_value_is_largest_p_value_witness :
  exists T' m,
    ballot_polling_SPRT [("a"%string, 3); ("b"%string, 1)]
                        [("a"%string, 1); ("b"%string, 0)]
                        [("a"%string, [("b"%string, 1%Q)])] (1 # 2) None None
    = (T', Ok m) /\
    is_max_of m (0%Q :: map p_value (cells T')).
Proof.
  eexists. eexists. split; [vm_compute; reflexivity|].
  apply (X3_max_p_value_is_largest_p_value
           [("a"%string, 3); ("b"%string, 1)] [("a"%string, 1); ("b"%string, 0)]
           [("a"%string, [("b"%string, 1%Q)])] _ (1 # 2) None None).
  vm_compute. reflexivity.
Defined.

Lemma sprt_row_keys (vc rc : dict string Z) (alpha : Q) (S1 S2 : option (dict string Z))
  (w : string) (row : dict string Q) (m : Q) :
  keys (fst (sprt_row vc rc alpha S1 S2 w row m)) = keys row.
Proof.
  revert m. induction row as [|[l tv] rest IH]; intros m; simpl; [reflexivity|].
  destruct (sprt_cell vc rc alpha S1 S2 w l tv m) as [tv' [m1|ex]]; [|reflexivity].
  specialize (IH m1). destruct (sprt_row vc rc alpha S1 S2 w rest m1) as [rest' r].
  simpl in *. rewrite IH. reflexivity.
Qed.

(** X4. [ballot_polling_SPRT] keeps the shape of the matrix: after the
    call, returned or interrupted by an exception, the object [T] has the
    same winners in the same order, each with the same losers in the same
    order; only values change. *)
Theorem X4_shape_is_kept
  (vote_count recount : dict string Z) (T : Tmatrix) (risk_limit : Q)
  (Sw Sl : option (dict string Z)) :
  shape (fst (ballot_polling_SPRT vote_count recount T risk_limit Sw Sl)) = shape T.
Proof.
  unfold ballot_polling_SPRT. generalize 0%Q.
  induction T as [|[w row] rest IH]; intros m; simpl; [reflexivity|].
  pose proof (sprt_row_keys vote_count recount risk_limit Sw Sl w row m) as Hrow.
  destruct (sprt_row vote_count recount risk_limit Sw Sl w row m)
    as [row' [m1|ex]]; simpl in Hrow.
  - specialize (IH m1).
    destruct (sprt_rows vote_count recount risk_limit Sw Sl rest m1) as [rest' r].
    simpl in *. rewrite Hrow, IH. reflexivity.
  - simpl. rewrite Hrow. reflexivity.
Qed.

Lemma Forall2_getitem {A B : Type} (R : string -> A -> B -> Prop)
  (m : dict string A) (m' : dict string B) (k : string) (v : A) :
  Forall2 (fun c c' => fst c' = fst c /\ R (fst c) (snd c) (snd c')) m m' ->
  getitem m k = Ok v ->
  exists v', getitem m' k = Ok v' /\ R k v v'.
Proof.
  intros Hall. induction Hall as [|[k0 a] [k0' b] m m' [Hk HR] _ IH]; simpl;
    [discriminate|].
  simpl in Hk, HR. subst k0'.
  destruct (key_eq_dec k k0) as [->|Hne]; [|exact IH].
  intros Heq. injection Heq as <-. eauto.
Qed.

(** In a call that returns, every cell went through its guarded update. *)
Lemma sprt_returns_cell (vc rc : dict string Z) (alpha : Q)
  (S1 S2 : option (dict string Z)) (T T' : Tmatrix) (m : Q) (w l : string) (v : Q) :
  ballot_polling_SPRT vc rc T alpha S1 S2 = (T', Ok m) ->
  T_get T w l = Ok v ->
  exists v', T_get T' w l = Ok v' /\
             sprt_update vc rc alpha S1 S2 w l v = Ok v' /\ ~ (v' == 0)%Q.
Proof.
  intros Hcall Hget. unfold ballot_polling_SPRT in Hcall.
  apply sprt_rows_ok in Hcall. unfold T_get in *. inv_bind Hget.
  destruct (Forall2_getitem
              (fun w row row' => Forall2 (cell_updated vc rc alpha S1 S2 w) row row')
              T T' w x Hcall Hx) as [row' [Hrow' Hcells]].
  destruct (Forall2_getitem
              (fun l v v' => sprt_update vc rc alpha S1 S2 w l v = Ok v'
                             /\ ~ (v' == 0)%Q)
              x row' l v) as [v' [Hv' HR]]; [|exact Hget|].
  { eapply Forall2_impl; [|exact Hcells]. intros c c' [H1 [H2 H3]]. auto. }
  exists v'. split; [|exact HR].
  transitivity (Py.bind (Ok row') (fun row : dict string Q => getitem row l));
    [f_equal; exact Hrow'|exact Hv'].
Qed.

Lemma gamma_keys (a b : string) (vc : dict string Z)
  (S1 S2 : option (dict string Z)) (y : Q) :
  gamma a b vc S1 S2 = Ok y ->
  has_key vc a /\ has_key vc b /\ get0 vc a + get0 vc b <> 0.
Proof.
  unfold gamma, t, has_key, get0.
  destruct (getitem vc a) as [ta|]; [|discriminate]. simpl.
  destruct (getitem vc b) as [tb|]; [|discriminate]. simpl.
  unfold truediv at 1.
  destruct (ta + tb =? 0) eqn:Hz; [discriminate|]. apply Z.eqb_neq in Hz.
  intros _. eauto.
Qed.

Lemma sprt_factor_keys (vc rc : dict string Z) (S1 S2 : option (dict string Z))
  (w l : string) (f : Q) :
  sprt_factor vc rc S1 S2 w l = Ok f ->
  has_key rc w /\ has_key rc l /\
  has_key vc w /\ has_key vc l /\ get0 vc w + get0 vc l <> 0.
Proof.
  unfold sprt_factor.
  destruct (gamma w l vc S1 S2) as [y1|] eqn:Hy1; [|discriminate].
  apply gamma_keys in Hy1. simpl.
  destruct (gamma l w vc S2 S1) as [y2|]; [|discriminate]. simpl.
  unfold has_key at 1 2.
  destruct (getitem rc w) as [rw|]; [|discriminate]. simpl.
  destruct (decimal_pow y1 rw) as [pa|]; [|discriminate]. simpl.
  destruct (getitem rc l) as [rl|]; [|discriminate]. simpl.
  intros _. split; [eauto|]. split; [eauto|]. exact Hy1.
Qed.

(** X5. Partial data is not passed over: when [ballot_polling_SPRT]
    returns, every pair whose cell was below [1 / risk_limit] has its
    winner and its loser in the recount and in the vote count, with at
    least one vote between the two (a missing id raises [KeyError], two
    candidates without votes raise [ZeroDivisionError]). *)
Theorem X5_returning_call_found_every_id
  (vote_count recount : dict string Z) (T T' : Tmatrix) (risk_limit : Q)
  (Sw Sl : option (dict string Z)) (max_p_value : Q) (w l : string) (v : Q) :
  ballot_polling_SPRT vote_count recount T risk_limit Sw Sl = (T', Ok max_p_value) ->
  T_get T w l = Ok v ->
  (v < 1 / risk_limit)%Q ->
  has_key recount w /\ has_key recount l /\
  has_key vote_count w /\ has_key vote_count l /\
  get0 vote_count w + get0 vote_count l <> 0.
Proof.
  intros Hcall Hget Hlt.
  destruct (sprt_returns_cell _ _ _ _ _ _ _ _ _ _ _ Hcall Hget) as [v' [_ [Hup _]]].
  apply sprt_update_cases in Hup. destruct Hup as [_ [[Hfrozen _]|[_ [f [Hf _]]]]].
  - unfold Qltb in Hfrozen. apply negb_false_iff, Qle_bool_iff in Hfrozen.
    exfalso. exact (Qlt_not_le _ _ Hlt Hfrozen).
  - exact (sprt_factor_keys _ _ _ _ _ _ _ Hf).
Qed.

Lemma X5_returning_call_found_every_id_witness :
  let vote_count := [("a"%string, 3); ("b"%string, 1)] in
  let recount := [("a"%string, 1); ("b"%string, 0)] in
  has_key recount "a" /\ has_key recount "b" /\
  has_key vote_count "a" /\ has_key vote_count "b" /\
  get0 vote_count "a" + get0 vote_count "b" <> 0.
Proof.
  intros vote_count recount.
  eapply (X5_returning_call_found_every_id vote_count recount
            [("a"%string, [("b"%string, 1%Q)])] _ (1 # 2) None None _
            "a"%string "b"%string 1%Q).
  - vm_compute. reflexivity.
  - reflexivity.
  - unfold Qlt. simpl. lia.
Defined.

(** ** Validation *)

Lemma validate_row_true (row : dict string Q) (alpha : Q) :
  validate_row row alpha = Ok true -> Forall (at_threshold alpha) row.
Proof.
  induction row as [|[l tv] rest IH]; simpl; intros Hv; [constructor|].
  destruct (decimal_div 1 alpha) as [thr|] eqn:Hthr; [|discriminate]. simpl in Hv.
  destruct (Qltb tv thr) eqn:Hlt; [discriminate|].
  constructor; [|apply IH, Hv].
  exists thr. split; [exact Hthr|]. simpl.
  unfold Qltb in Hlt. apply negb_false_iff, Qle_bool_iff in Hlt. exact Hlt.
Qed.

Lemma validate_true (T : Tmatrix) (alpha : Q) :
  validate_ballot_polling T alpha = Ok true -> Forall (at_threshold alpha) (cells T).
Proof.
  induction T as [|[w row] rest IH]; simpl; intros Hv; [constructor|].
  destruct (validate_row row alpha) as [[|]|] eqn:Hrow; try discriminate.
  simpl in Hv. unfold cells. simpl. apply Forall_app. split.
  - apply validate_row_true, Hrow.
  - apply IH, Hv.
Qed.

Lemma frozen_update (vc rc : dict string Z) (alpha : Q)
  (S1 S2 : option (dict string Z)) (w : string) (c : string * Q) :
  at_threshold alpha c ->
  sprt_update vc rc alpha S1 S2 w (fst c) (snd c) = Ok (snd c).
Proof.
  intros [thr [Hthr Hle]]. unfold sprt_update. rewrite Hthr. simpl.
  assert (Hlt : Qltb (snd c) thr = false)
    by (unfold Qltb; apply negb_false_iff, Qle_bool_iff, Hle).
  rewrite Hlt. reflexivity.
Qed.

Lemma sprt_row_frozen (vc rc : dict string Z) (alpha : Q)
  (S1 S2 : option (dict string Z)) (w : string) (row : dict string Q) (m : Q) :
  Forall (at_threshold alpha) row ->
  fst (sprt_row vc rc alpha S1 S2 w row m) = row.
Proof.
  intros Hall. revert m. induction Hall as [|[l tv] rest Hc _ IH]; intros m; simpl;
    [reflexivity|].
  pose proof (frozen_update vc rc alpha S1 S2 w (l, tv) Hc) as Hup. simpl in Hup.
  unfold sprt_cell. rewrite Hup. simpl.
  destruct (decimal_div 1 tv) as [pv|]; simpl; [|reflexivity].
  specialize (IH (max2 m pv)).
  destruct (sprt_row vc rc alpha S1 S2 w rest (max2 m pv)) as [rest' r].
  simpl in *. rewrite IH. reflexivity.
Qed.

Lemma sprt_rows_frozen (vc rc : dict string Z) (alpha : Q)
  (S1 S2 : option (dict string Z)) (T : Tmatrix) (m : Q) :
  Forall (at_threshold alpha) (cells T) ->
  fst (sprt_rows vc rc alpha S1 S2 T m) = T.
Proof.
  revert m. induction T as [|[w row] rest IH]; intros m Hall; simpl; [reflexivity|].
  unfold cells in Hall. simpl in Hall. apply Forall_app in Hall.
  destruct Hall as [Hrow Hrest].
  pose proof (sprt_row_frozen vc rc alpha S1 S2 w row m Hrow) as Hfst.
  destruct (sprt_row vc rc alpha S1 S2 w row m) as [row' [m1|ex]]; simpl in Hfst;
    subst row'; [|reflexivity].
  specialize (IH m1 Hrest).
  destruct (sprt_rows vc rc alpha S1 S2 rest m1) as [rest' r].
  simpl in *. rewrite IH. reflexivity.
Qed.

Lemma at_threshold_positive (alpha : Q) (c : string * Q) :
  (0 < alpha)%Q -> at_threshold alpha c -> (0 < snd c)%Q.
Proof.
  intros Ha [thr [Hthr Hle]]. unfold decimal_div in Hthr.
  destruct (Qeq_bool alpha 0); [destruct (Qeq_bool 1 0); discriminate|].
  injection Hthr as <-. eapply Qlt_le_trans; [|exact Hle].
  apply Qlt_shift_div_l; [exact Ha|]. rewrite Qmult_0_l. reflexivity.
Qed.

Lemma sprt_row_frozen_returns (vc rc : dict string Z) (alpha : Q)
  (S1 S2 : option (dict string Z)) (w : string) (row : dict string Q) (m : Q) :
  (0 < alpha)%Q -> Forall (at_threshold alpha) row ->
  exists m', sprt_row vc rc alpha S1 S2 w row m = (row, Ok m').
Proof.
  intros Ha Hall. revert m.
  induction Hall as [|[l tv] rest Hc _ IH]; intros m; simpl; [eauto|].
  pose proof (frozen_update vc rc alpha S1 S2 w (l, tv) Hc) as Hup. simpl in Hup.
  unfold sprt_cell. rewrite Hup. simpl.
  pose proof (at_threshold_positive _ _ Ha Hc) as Hpos. simpl in Hpos.
  unfold decimal_div.
  assert (Hnz : Qeq_bool tv 0 = false).
  { destruct (Qeq_bool tv 0) eqn:Hz; [|reflexivity].
    apply Qeq_bool_eq in Hz. rewrite Hz in Hpos. discriminate Hpos. }
  rewrite Hnz. simpl.
  destruct (IH (max2 m (1 / tv))) as [m' ->]. eauto.
Qed.

Lemma sprt_rows_frozen_returns (vc rc : dict string Z) (alpha : Q)
  (S1 S2 : option (dict string Z)) (T : Tmatrix) (m : Q) :
  (0 < alpha)%Q -> Forall (at_threshold alpha) (cells T) ->
  exists m', sprt_rows vc rc alpha S1 S2 T m = (T, Ok m').
Proof.
  intros Ha. revert m. induction T as [|[w row] rest IH]; intros m Hall; simpl; [eauto|].
  unfold cells in Hall. simpl in Hall. apply Forall_app in Hall.
  destruct Hall as [Hrow Hrest].
  destruct (sprt_row_frozen_returns vc rc alpha S1 S2 w row m Ha Hrow) as [m1 ->].
  destruct (IH m1 Hrest) as [m' ->]. eauto.
Qed.

(** X6. A validated matrix is left alone: when
    [validate_ballot_polling(T, risk_limit)] is [True], a call of
    [ballot_polling_SPRT] with that risk limit leaves every cell of [T]
    as it is, whatever the vote count and the recount are and whether
    the call returns or raises; and when the risk limit is positive the
    call returns. *)
Theorem X6_validated_matrix_is_left_unchanged
  (vote_count recount : dict string Z) (T : Tmatrix) (risk_limit : Q)
  (Sw Sl : option (dict string Z)) :
  validate_ballot_polling T risk_limit = Ok true ->
  fst (ballot_polling_SPRT vote_count recount T risk_limit Sw Sl) = T /\
  ((0 < risk_limit)%Q ->
   exists max_p_value,
     ballot_polling_SPRT vote_count recount T risk_limit Sw Sl
     = (T, Ok max_p_value)).
Proof.
  intros Hvalid. apply validate_true in Hvalid. split.
  - apply sprt_rows_frozen, Hvalid.
  - intros Ha. unfold ballot_polling_SPRT.
    exact (sprt_rows_frozen_returns vote_count recount risk_limit Sw Sl T 0%Q
             Ha Hvalid).
Qed.

Lemma X6_validated_matrix_is_left_unchanged_witness :
  let T := [("a"%string, [("b"%string, 4%Q); ("c"%string, 2%Q)])] in
  fst (ballot_polling_SPRT [("a"%string, 3); ("b"%string, 1); ("c"%string, 1)]
                           [("a"%string, 0); ("b"%string, 5); ("c"%string, 5)]
                           T (1 # 2) None None) = T /\
  ((0 < 1 # 2)%Q ->
   exists max_p_value,
     ballot_polling_SPRT [("a"%string, 3); ("b"%string, 1); ("c"%string, 1)]
                         [("a"%string, 0); ("b"%string, 5); ("c"%string, 5)]
                         T (1 # 2) None None
     = (T, Ok max_p_value)).
Proof.
  intros T.
  apply (X6_validated_matrix_is_left_unchanged
           [("a"%string, 3); ("b"%string, 1); ("c"%string, 1)]
           [("a"%string, 0); ("b"%string, 5); ("c"%string, 5)] T (1 # 2) None None).
  reflexivity.
Defined.

End SPRT_more.

(* ================================================================== *)
(** * Further properties: a fresh plurality audit                       *)
(* ================================================================== *)

Section Plurality_more.
Import Utils UtilsRest Audits Props MoreProps.

Lemma Plurality_init_matrix (risk_limit : Q) (n : Z) (preliminary recount : DataFrame) :
  let self := Plurality_init risk_limit BALLOTPOLLING n preliminary recount in
  let WL := get_W_L_sets (vote_count self) n in
  Audits.T self
  = Matrix (map (fun winner => (winner, map (fun loser => (loser, 1%Q)) (snd WL)))
                (fst WL)) /\
  class_of self = PluralityClass /\
  vote_count self = groupby_sum by_candidate preliminary /\
  candidates self = keys (vote_count self).
Proof.
  unfold Plurality_init.
  destruct (get_W_L_sets (groupby_sum by_candidate preliminary) n) as [W L] eqn:HWL.
  cbn [vote_count Audits.T class_of candidates is_ballot_polling].
  rewrite HWL. cbn [fst snd]. auto.
Qed.

Lemma W_L_lengths {K V : Type} `{PyOrd V} (m : dict K V) (n : Z) :
  0 <= n ->
  Z.of_nat (List.length (fst (get_W_L_sets m n)))
  = Z.min n (Z.of_nat (List.length m)) /\
  Z.of_nat (List.length (snd (get_W_L_sets m n)))
  = Z.of_nat (List.length m) - Z.min n (Z.of_nat (List.length m)).
Proof.
  intros Hn.
  pose proof (Permutation_length (get_W_L_sets_perm m n)) as Hlen.
  rewrite length_app in Hlen. unfold keys in Hlen. rewrite length_map in Hlen.
  assert (HW : Z.of_nat (List.length (fst (get_W_L_sets m n)))
               = Z.min n (Z.of_nat (List.length m))).
  { unfold get_W_L_sets. simpl. rewrite length_map, slice_to_length_any.
    rewrite (Permutation_length (sorted_reverse_perm snd m)).
    destruct (n <? 0) eqn:Hneg; [apply Z.ltb_lt in Hneg; lia|reflexivity]. }
  split; [exact HW|]. lia.
Qed.

(** X8. A fresh audit is not validated: for a risk limit strictly between
    0 and 1 and [1 <= n_winners < number of candidates], the matrix that
    [Plurality.__init__] builds for ballot polling fails
    [validate_ballot_polling]. *)
Theorem X8_fresh_plurality_audit_is_not_validated
  (risk_limit : Q) (n_winners : Z) (preliminary recount : DataFrame) :
  let self := Plurality_init risk_limit BALLOTPOLLING n_winners preliminary recount in
  (0 < risk_limit)%Q -> (risk_limit < 1)%Q ->
  1 <= n_winners < Z.of_nat (List.length (candidates self)) ->
  exists T, Audits.T self = Matrix T /\
            validate_ballot_polling T risk_limit = Ok false.
Proof.
  intros self Ha Ha1 Hn.
  destruct (Plurality_init_matrix risk_limit n_winners preliminary recount)
    as [HT [_ [_ Hcand]]].
  fold self in HT, Hcand. rewrite Hcand in Hn. unfold keys in Hn.
  rewrite length_map in Hn.
  destruct (W_L_lengths (vote_count self) n_winners) as [HW HL]; [lia|].
  eexists. split; [exact HT|].
  destruct (fst (get_W_L_sets (vote_count self) n_winners)) as [|w W];
    [cbn [List.length] in HW; lia|].
  destruct (snd (get_W_L_sets (vote_count self) n_winners)) as [|l L];
    [cbn [List.length] in HL; lia|].
  simpl. unfold decimal_div.
  assert (Hnz : Qeq_bool risk_limit 0 = false).
  { destruct (Qeq_bool risk_limit 0) eqn:Hz; [|reflexivity].
    apply Qeq_bool_eq in Hz. rewrite Hz in Ha. discriminate Ha. }
  rewrite Hnz. simpl.
  assert (Hlt : Qltb 1 (1 / risk_limit) = true).
  { unfold Qltb. apply negb_true_iff. destruct (Qle_bool (1 / risk_limit) 1) eqn:Hle;
      [|reflexivity].
    apply Qle_bool_iff in Hle. exfalso.
    apply (Qmult_le_compat_r _ _ risk_limit) in Hle; [|apply Qlt_le_weak, Ha].
    setoid_replace (1 / risk_limit * risk_limit)%Q with 1%Q in Hle
      by (field; intros Hz; rewrite Hz in Ha; discriminate Ha).
    rewrite Qmult_1_l in Hle. exact (Qlt_not_le _ _ Ha1 Hle). }
  rewrite Hlt. reflexivity.
Qed.

Lemma X8_fresh_plurality_audit_is_not_validated_witness :
  let rows := [ {| table := "t1"%string; candidate := "a"%string;
                   party := None; votes := 3 |};
                {| table := "t1"%string; candidate := "b"%string;
                   party := None; votes := 1 |} ] in
  let self := Plurality_init (1 # 10) BALLOTPOLLING 1 rows [] in
  exists T, Audits.T self = Matrix T /\
            validate_ballot_polling T (1 # 10) = Ok false.
Proof.
  intros rows self.
  apply (X8_fresh_plurality_audit_is_not_validated (1 # 10) 1 rows []).
  - reflexivity.
  - reflexivity.
  - simpl. lia.
Defined.

Lemma sprt_rows_no_cell (vc rc : dict string Z) (alpha : Q)
  (S1 S2 : option (dict string Z)) (W : list string) (m : Q) :
  sprt_rows vc rc alpha S1 S2 (map (fun w => (w, [])) W) m
  = (map (fun w => (w, [])) W, Ok m).
Proof.
  induction W as [|w W IH]; simpl; [reflexivity|]. rewrite IH. reflexivity.
Qed.

Lemma validate_no_cell (W : list string) (alpha : Q) :
  validate_ballot_polling (map (fun w => (w, [])) W) alpha = Ok true.
Proof. induction W as [|w W IH]; simpl; [reflexivity|exact IH]. Qed.

(** X9. Asking for at least as many winners as there are candidates
    leaves no loser: every row of the matrix of the plurality audit is
    empty, the ballot-polling branch of [verify] returns the matrix as it
    is with [max_p_value = 0] whatever the recount table holds, and
    [validate_ballot_polling] accepts it for every risk limit. *)
Theorem X9_plurality_without_loser_is_validated_at_once
  (risk_limit : Q) (n_winners : Z) (preliminary recount : DataFrame) :
  let self := Plurality_init risk_limit BALLOTPOLLING n_winners preliminary recount in
  Z.of_nat (List.length (candidates self)) <= n_winners ->
  exists T, Audits.T self = Matrix T /\
            verify_ballot_polling self T = (T, Ok 0%Q) /\
            forall alpha, validate_ballot_polling T alpha = Ok true.
Proof.
  intros self Hn.
  destruct (Plurality_init_matrix risk_limit n_winners preliminary recount)
    as [HT [Hclass [_ Hcand]]].
  fold self in HT, Hclass, Hcand. rewrite Hcand in Hn. unfold keys in Hn.
  rewrite length_map in Hn.
  destruct (W_L_lengths (vote_count self) n_winners) as [_ HL]; [lia|].
  eexists. split; [exact HT|].
  destruct (snd (get_W_L_sets (vote_count self) n_winners)) as [|l L];
    [|cbn [List.length] in HL; lia].
  simpl. split.
  - unfold verify_ballot_polling, ballot_polling, vote_count_transform,
      vote_recount_transform. rewrite Hclass.
    unfold ballot_polling_SPRT. apply sprt_rows_no_cell.
  - apply validate_no_cell.
Qed.

Lemma X9_plurality_without_loser_is_validated_at_once_witness :
  let rows := [ {| table := "t1"%string; candidate := "a"%string;
                   party := None; votes := 3 |};
                {| table := "t1"%string; candidate := "b"%string;
                   party := None; votes := 1 |} ] in
  let self := Plurality_init (1 # 10) BALLOTPOLLING 2 rows [] in
  exists T, Audits.T self = Matrix T /\
            verify_ballot_polling self T = (T, Ok 0%Q) /\
            forall alpha, validate_ballot_polling T alpha = Ok true.
Proof.
  intros rows self.
  apply (X9_plurality_without_loser_is_validated_at_once (1 # 10) 2 rows []).
  simpl. lia.
Defined.

End Plurality_more.

(* ================================================================== *)
(** * Further properties: MICRO, its bound and the batch factor         *)
(* ================================================================== *)

Section MICRO_more.
Import Utils UtilsRest Props MoreProps.

Lemma max2_ge_l (a b : Q) : (a <= max2 a b)%Q.
Proof. destruct (max2_cases a b) as [[-> _]|[-> Hle]]; [apply Qle_refl|exact Hle]. Qed.

Lemma inner_loop_ge (term : string -> string -> result Q) (a : string)
  (lb : list string) (s m : Q) :
  inner_loop term a lb s = Ok m -> (s <= m)%Q.
Proof.
  revert s. induction lb as [|b lb IH]; intros s.
  - intros Heq. injection Heq as <-. apply Qle_refl.
  - rewrite inner_loop_cons. destruct (key_eq_dec a b); [apply IH|].
    destruct (term a b) as [q|]; simpl; [|discriminate].
    intros Hm. eapply Qle_trans; [apply (max2_ge_l s q)|apply IH, Hm].
Qed.

Lemma max_loop_ge (term : string -> string -> result Q) (la lb : list string) (s m : Q) :
  max_loop term la lb s = Ok m -> (s <= m)%Q.
Proof.
  revert s. induction la as [|a la IH]; intros s.
  - intros Heq. injection Heq as <-. apply Qle_refl.
  - rewrite max_loop_cons.
    destruct (inner_loop term a lb s) as [m1|] eqn:Hinner; simpl; [|discriminate].
    intros Hm. eapply Qle_trans; [exact (inner_loop_ge _ _ _ _ _ Hinner)|apply IH, Hm].
Qed.

(** X10. Neither [MICRO] nor [MICRO_upper_bound] ever returns a negative
    number: both start from 0 and only take maxima. *)
Theorem X10_MICRO_and_bound_are_not_negative
  (reported table_report recount W L : dict string Z)
  (Wp Lp : list string) (Sw Sl : option (dict string Z)) (m u : Q) :
  (MICRO reported table_report recount W L = Ok m -> (0 <= m)%Q) /\
  (MICRO_upper_bound reported Wp Lp Sw Sl = Ok u -> (0 <= u)%Q).
Proof.
  split.
  - change (MICRO reported table_report recount W L)
      with (max_loop (MICRO_term reported table_report recount W L)
                     (keys W) (keys L) 0%Q).
    apply max_loop_ge.
  - change (MICRO_upper_bound reported Wp Lp Sw Sl)
      with (max_loop (MICRO_upper_bound_term reported (default_S Sw Wp)
                                             (default_S Sl Lp)) Wp Lp 0%Q).
    apply max_loop_ge.
Qed.

Lemma MICRO_term_keys (reported table_report recount W L : dict string Z)
  (w l : string) (q : Q) :
  MICRO_term reported table_report recount W L w l = Ok q ->
  micro_defined reported table_report recount W L w l /\
  q = micro_ratio reported table_report recount W L w l.
Proof.
  unfold MICRO_term, e, t, micro_defined, micro_ratio, micro_x, micro_y, has_key, get0.
  destruct (getitem L l) as [sl|]; [|discriminate]. simpl.
  destruct (getitem table_report w) as [aw|]; [|discriminate]. simpl.
  destruct (getitem recount w) as [bw|]; [|discriminate]. simpl.
  destruct (getitem W w) as [sw|]; [|discriminate]. simpl.
  destruct (getitem table_report l) as [al|]; [|discriminate]. simpl.
  destruct (getitem recount l) as [bl|]; [|discriminate]. simpl.
  destruct (getitem reported w) as [rw|]; [|discriminate]. simpl.
  destruct (getitem reported l) as [rl|]; [|discriminate]. simpl.
  unfold truediv. destruct (_ =? 0) eqn:Hz; [discriminate|].
  apply Z.eqb_neq in Hz. intros Heq. injection Heq as <-.
  split; [|reflexivity].
  repeat (split; [eexists; reflexivity|]). exact Hz.
Qed.

(** X11. [MICRO] does not pass over missing data: when it returns, every
    winner and loser with distinct ids has a total in the contest
    mapping, in the table report and in the table recount, and the
    denominator of the pair is not zero (otherwise [KeyError] or
    [ZeroDivisionError] is raised). *)
Theorem X11_MICRO_returns_only_on_complete_data
  (reported table_report recount W L : dict string Z) (m : Q) (w l : string) :
  MICRO reported table_report recount W L = Ok m ->
  In w (keys W) -> In l (keys L) -> w <> l ->
  micro_defined reported table_report recount W L w l.
Proof.
  intros Hm Hw Hl Hne.
  change (MICRO reported table_report recount W L)
    with (max_loop (MICRO_term reported table_report recount W L)
                   (keys W) (keys L) 0%Q) in Hm.
  destruct (max_loop_returns _ _ _ _ _ Hm w l Hw Hl Hne) as [q Hq].
  apply MICRO_term_keys in Hq. tauto.
Qed.

Lemma X11_MICRO_returns_only_on_complete_data_witness :
  micro_defined [("a"%string, 60); ("b"%string, 40)]
                [("a"%string, 6); ("b"%string, 4)]
                [("a"%string, 5); ("b"%string, 5)]
                [("a"%string, 0)] [("b"%string, 0)] "a" "b".
Proof.
  eapply (X11_MICRO_returns_only_on_complete_data
            [("a"%string, 60); ("b"%string, 40)] [("a"%string, 6); ("b"%string, 4)]
            [("a"%string, 5); ("b"%string, 5)] [("a"%string, 0)] [("b"%string, 0)]).
  - vm_compute. reflexivity.
  - left. reflexivity.
  - left. reflexivity.
  - discriminate.
Defined.

(** X12. A table whose recount is its report has no overstatement:
    [MICRO(reported, table, table, W, L)] returns 0 whenever the ratio of
    every pair of distinct ids exists. *)
Theorem X12_MICRO_of_a_matching_table_is_zero
  (reported table W L : dict string Z) :
  (forall w l, In w (keys W) -> In l (keys L) -> w <> l ->
               micro_defined reported table table W L w l) ->
  exists m, MICRO reported table table W L = Ok m /\ (m == 0)%Q.
Proof.
  intros Hdef.
  change (MICRO reported table table W L)
    with (max_loop (MICRO_term reported table table W L) (keys W) (keys L) 0%Q).
  destruct (max_loop_ok (MICRO_term reported table table W L)
              (micro_ratio reported table table W L) (keys W) (keys L) 0%Q)
    as [m [Hm [[q [Hq Hmq]] _]]].
  { intros w l Hw Hl Hne. apply MICRO_term_defined; auto. }
  exists m. split; [exact Hm|]. rewrite Hmq.
  destruct Hq as [<-|Hq]; [reflexivity|].
  apply in_map_iff in Hq. destruct Hq as [[w l] [<- _]].
  unfold micro_ratio, micro_x. simpl.
  rewrite !Z.sub_diag, !Z.mul_0_r. simpl.
  unfold Qdiv. rewrite Qmult_0_l. reflexivity.
Qed.

Lemma X12_MICRO_of_a_matching_table_is_zero_witness :
  exists m,
    MICRO [("a"%string, 60); ("b"%string, 40)] [("a"%string, 6); ("b"%string, 4)]
          [("a"%string, 6); ("b"%string, 4)] [("a"%string, 0)] [("b"%string, 0)]
    = Ok m /\ (m == 0)%Q.
Proof.
  apply (X12_MICRO_of_a_matching_table_is_zero
           [("a"%string, 60); ("b"%string, 40)] [("a"%string, 6); ("b"%string, 4)]
           [("a"%string, 0)] [("b"%string, 0)]).
  intros w l [<-|[]] [<-|[]] _.
  repeat split; try (eexists; reflexivity). vm_compute. discriminate.
Defined.

(** X13. With every winner ahead of every loser the bound is usable as a
    divisor: when each pair of distinct ids has seat indexes that are
    not negative, reported totals and a strictly positive denominator,
    and there is at least one such pair, [MICRO_upper_bound] returns a
    strictly positive number that is at least the term of every pair. *)
Theorem X13_bound_is_positive_when_winners_lead
  (reported : dict string Z) (Wp Lp : list string) (Sw Sl : option (dict string Z))
  (w0 l0 : string) :
  (forall w l, In w Wp -> In l Lp -> w <> l ->
               bound_keys reported (default_S Sw Wp) (default_S Sl Lp) w l /\
               0 <= get0 (default_S Sw Wp) w /\ 0 <= get0 (default_S Sl Lp) l /\
               0 < micro_y reported (default_S Sw Wp) (default_S Sl Lp) w l) ->
  In w0 Wp -> In l0 Lp -> w0 <> l0 ->
  exists u,
    MICRO_upper_bound reported Wp Lp Sw Sl = Ok u /\ (0 < u)%Q /\
    forall w l, In w Wp -> In l Lp -> w <> l ->
                (bound_term reported (default_S Sw Wp) (default_S Sl Lp) w l <= u)%Q.
Proof.
  intros Hpairs Hw0 Hl0 Hne0.
  change (MICRO_upper_bound reported Wp Lp Sw Sl)
    with (max_loop (MICRO_upper_bound_term reported (default_S Sw Wp) (default_S Sl Lp))
                   Wp Lp 0%Q).
  set (S1 := default_S Sw Wp) in *. set (S2 := default_S Sl Lp) in *.
  destruct (max_loop_ok (MICRO_upper_bound_term reported S1 S2)
              (bound_term reported S1 S2) Wp Lp 0%Q) as [u [Hu [_ Hub]]].
  { intros w l Hw Hl Hne. destruct (Hpairs w l Hw Hl Hne) as [Hk [_ [_ Hy]]].
    rewrite (MICRO_upper_bound_term_cases _ _ _ _ _ Hk).
    destruct (_ =? 0) eqn:Hz; [apply Z.eqb_eq in Hz; lia|reflexivity]. }
  assert (Hterm : forall w l, In w Wp -> In l Lp -> w <> l ->
                              (bound_term reported S1 S2 w l <= u)%Q).
  { intros w l Hw Hl Hne. apply Hub. right.
    apply in_map_iff. exists (w, l). split; [reflexivity|].
    unfold distinct_pairs. apply in_flat_map. exists w. split; [exact Hw|].
    apply in_map. unfold others. apply filter_In. split; [exact Hl|].
    destruct (key_eq_dec w l); [contradiction|reflexivity]. }
  exists u. split; [exact Hu|]. split; [|exact Hterm].
  eapply Qlt_le_trans; [|exact (Hterm w0 l0 Hw0 Hl0 Hne0)].
  destruct (Hpairs w0 l0 Hw0 Hl0 Hne0) as [_ [Hsw [Hsl Hy]]].
  unfold bound_term. apply Qlt_shift_div_l.
  - unfold Qlt. simpl. lia.
  - rewrite Qmult_0_l. unfold Qlt, d. simpl. lia.
Qed.

Lemma X13_bound_is_positive_when_winners_lead_witness :
  let reported := [("a"%string, 60); ("b"%string, 40)] in
  let Wp := ["a"%string] in
  let Lp := ["b"%string] in
  exists u,
    MICRO_upper_bound reported Wp Lp None None = Ok u /\ (0 < u)%Q /\
    forall w l, In w Wp -> In l Lp -> w <> l ->
                (bound_term reported (default_S None Wp) (default_S None Lp) w l
                 <= u)%Q.
Proof.
  intros reported Wp Lp.
  apply (X13_bound_is_positive_when_winners_lead reported Wp Lp None None
           "a"%string "b"%string).
  - intros w l [<-|[]] [<-|[]] _.
    split; [repeat split; eexists; reflexivity|]. vm_compute. intuition discriminate.
  - left. reflexivity.
  - left. reflexivity.
  - discriminate.
Defined.

Lemma scale_le (g x : Q) : (0 <= g)%Q -> (x <= 1)%Q -> (g * x <= g)%Q.
Proof.
  intros Hg Hx. assert (H : (x * g <= 1 * g)%Q) by (apply Qmult_le_compat_r; assumption).
  rewrite Qmult_1_l in H. rewrite Qmult_comm. exact H.
Qed.

Lemma one_minus_le (y : Q) : (0 <= y)%Q -> (1 - y <= 1)%Q.
Proof.
  intros Hy. apply Qle_minus_iff.
  setoid_replace (1 + - (1 - y))%Q with y by ring. exact Hy.
Qed.

Lemma float_div_Ok (a b : Q) :
  ~ (b == 0)%Q -> float_div a b = Ok (a / b)%Q.
Proof.
  intros Hb. unfold float_div. destruct (Qeq_bool b 0) eqn:Hz; [|reflexivity].
  apply Qeq_bool_eq in Hz. contradiction.
Qed.

(** X14. No table counts for more than a table without discrepancy: with
    [um > 0], [U > 1] and [gamma >= 0], the factor that
    [batch_comparison_SPRT] returns is
    [gamma * (1 - micro / um) / (1 - 1 / U) + 1 - gamma] for the [micro]
    of the table, and it is at most [gamma / (1 - 1 / U) + 1 - gamma]. *)
Theorem X14_batch_factor_is_at_most_the_matching_factor
  (reported_count table_report table_recount W L : dict string Z)
  (um U gamma factor : Q) :
  (0 < um)%Q -> (1 < U)%Q -> (0 <= gamma)%Q ->
  batch_comparison_SPRT reported_count table_report table_recount W L um U gamma
  = Ok factor ->
  exists micro,
    MICRO reported_count table_report table_recount W L = Ok micro /\
    factor = (gamma * (1 - micro / um) / (1 - 1 / U) + 1 - gamma)%Q /\
    (factor <= gamma / (1 - 1 / U) + 1 - gamma)%Q.
Proof.
  intros Hum HU Hgamma Hf. unfold batch_comparison_SPRT in Hf.
  destruct (MICRO reported_count table_report table_recount W L) as [micro|] eqn:Hm;
    [|discriminate].
  simpl in Hf.
  assert (Hum0 : ~ (um == 0)%Q) by (intros Hz; rewrite Hz in Hum; discriminate Hum).
  assert (HU0 : ~ (U == 0)%Q).
  { intros Hz. rewrite Hz in HU. discriminate HU. }
  assert (Hpos : (0 < 1 - 1 / U)%Q).
  { assert (HU1 : (0 < U)%Q) by (eapply Qlt_trans; [|exact HU]; reflexivity).
    assert (Hinv : (1 / U < 1)%Q).
    { apply Qlt_shift_div_r; [exact HU1|]. rewrite Qmult_1_l. exact HU. }
    apply Qlt_minus_iff in Hinv. exact Hinv. }
  assert (Hden : ~ (1 - 1 / U == 0)%Q)
    by (intros Hz; rewrite Hz in Hpos; discriminate Hpos).
  rewrite (float_div_Ok micro um Hum0) in Hf. simpl in Hf.
  rewrite (float_div_Ok 1 U HU0) in Hf. simpl in Hf.
  rewrite (float_div_Ok _ _ Hden) in Hf. simpl in Hf.
  injection Hf as <-.
  exists micro. split; [reflexivity|]. split; [reflexivity|].
  assert (Hmicro : (0 <= micro)%Q).
  { change (MICRO reported_count table_report table_recount W L)
      with (max_loop (MICRO_term reported_count table_report table_recount W L)
                     (keys W) (keys L) 0%Q) in Hm.
    exact (max_loop_ge _ _ _ _ _ Hm). }
  apply Qplus_le_l, Qplus_le_l.
  unfold Qdiv. apply Qmult_le_compat_r;
    [|apply Qlt_le_weak, Qinv_lt_0_compat; exact Hpos].
  apply scale_le; [exact Hgamma|]. apply one_minus_le.
  apply Qmult_le_0_compat; [exact Hmicro|].
  apply Qinv_le_0_compat, Qlt_le_weak, Hum.
Qed.

Lemma X14_batch_factor_is_at_most_the_matching_factor_witness :
  let reported := [("a"%string, 60); ("b"%string, 40)] in
  let table_report := [("a"%string, 6); ("b"%string, 4)] in
  let table_recount := [("a"%string, 5); ("b"%string, 5)] in
  let W := [("a"%string, 0)] in
  let L := [("b"%string, 0)] in
  exists factor,
    batch_comparison_SPRT reported table_report table_recount W L 1 4 (1 # 2)
    = Ok factor /\
    exists micro,
      MICRO reported table_report table_recount W L = Ok micro /\
      factor = ((1 # 2) * (1 - micro / 1) / (1 - 1 / 4) + 1 - (1 # 2))%Q /\
      (factor <= (1 # 2) / (1 - 1 / 4) + 1 - (1 # 2))%Q.
Proof.
  intros reported table_report table_recount W L.
  eexists. split; [vm_compute; reflexivity|].
  apply (X14_batch_factor_is_at_most_the_matching_factor
           reported table_report table_recount W L 1 4 (1 # 2)).
  - reflexivity.
  - reflexivity.
  - unfold Qle. simpl. lia.
  - vm_compute. reflexivity.
Defined.

End MICRO_more.

(* ================================================================== *)
(** * Further properties: the super-majority collapse                   *)
(* ================================================================== *)

Section SuperMajority_more.
Import Utils Audits Props MoreProps.

Lemma sum_app (l1 l2 : list Z) : sum (l1 ++ l2) = sum l1 + sum l2.
Proof.
  induction l1 as [|x l1 IH]; cbn [app].
  - change (sum []) with 0. lia.
  - rewrite !sum_cons, IH. lia.
Qed.

Lemma sum_perm (l1 l2 : list Z) : Permutation l1 l2 -> sum l1 = sum l2.
Proof.
  induction 1 as [|x l1 l2 _ IH|x y l|l1 l2 l3 _ IH1 _ IH2].
  - reflexivity.
  - rewrite !sum_cons, IH. reflexivity.
  - rewrite !sum_cons. lia.
  - congruence.
Qed.

(** X15. The collapse loses no vote: for a mapping defined on the
    candidates of a [SuperMajority] audit, the buckets ['w'] and ['l']
    returned by [_vote_count_transform] add up to the total of the
    mapping over the candidates. *)
Theorem X15_collapse_keeps_the_total
  (risk_limit : Q) (audit_type : AuditType) (preliminary recount : DataFrame)
  (m : dict string Z) :
  let self := SuperMajority_init risk_limit audit_type preliminary recount in
  (forall c, In c (candidates self) -> has_key m c) ->
  exists w l,
    vote_count_transform self m = Ok [("w"%string, w); ("l"%string, l)] /\
    w + l = sum (map (get0 m) (candidates self)).
Proof.
  intros self Hkeys.
  destruct (Plurality_init_fields risk_limit audit_type 1 preliminary recount)
    as [_ [Hvc' Hcand']].
  assert (Hvc : vote_count self = groupby_sum by_candidate preliminary) by exact Hvc'.
  assert (Hcand : candidates self = keys (vote_count self))
    by (rewrite Hvc; exact Hcand').
  assert (Hnd : NoDup (keys (vote_count self)))
    by (rewrite Hvc; apply groupby_sum_NoDup).
  change (vote_count_transform self m)
    with (SuperMajority_vote_count_transform self m).
  rewrite (SuperMajority_transform_ranking self m Hnd).
  pose proof (get_W_L_sets_perm (vote_count self) (n_winners self)) as Hperm.
  destruct (get_W_L_sets (vote_count self) (n_winners self)) as [W L].
  simpl in Hperm.
  assert (Hsub : forall c, In c (W ++ L) -> has_key m c).
  { intros c Hc. apply Hkeys. rewrite Hcand.
    exact (Permutation_in _ Hperm Hc). }
  rewrite !mapM_getitem;
    [|intros c Hc; apply Hsub, in_or_app; auto
     |intros c Hc; apply Hsub, in_or_app; auto].
  simpl. eexists. eexists. split; [reflexivity|].
  rewrite <- sum_app, <- map_app.
  apply sum_perm, Permutation_map, Hperm.
Qed.

Lemma X15_collapse_keeps_the_total_witness :
  let rows := [ {| table := "t1"%string; candidate := "a"%string;
                   party := None; votes := 5 |};
                {| table := "t1"%string; candidate := "b"%string;
                   party := None; votes := 3 |};
                {| table := "t2"%string; candidate := "c"%string;
                   party := None; votes := 1 |} ] in
  let self := SuperMajority_init (1 # 10) BALLOTPOLLING rows [] in
  let m := [("a"%string, 1); ("b"%string, 4); ("c"%string, 2)] in
  exists w l,
    vote_count_transform self m = Ok [("w"%string, w); ("l"%string, l)] /\
    w + l = sum (map (get0 m) (candidates self)).
Proof.
  intros rows self m.
  apply (X15_collapse_keeps_the_total (1 # 10) BALLOTPOLLING rows [] m).
  intros c [<-|[<-|[<-|[]]]]; eexists; reflexivity.
Defined.

End SuperMajority_more.

(* ================================================================== *)
(** * Further properties: the seats of a D'Hondt audit                  *)
(* ================================================================== *)

Section DHondt_more.
Import Utils Audits Props MoreProps.

Lemma getitem_setitem {K V : Type} `{Hashable K} (m : dict K V) (k k' : K) (v : V) :
  getitem (setitem m k v) k' = if key_eq_dec k' k then Ok v else getitem m k'.
Proof.
  induction m as [|[k0 v0] m IH]; simpl.
  - destruct (key_eq_dec k' k); reflexivity.
  - destruct (key_eq_dec k k0) as [->|Hne]; simpl.
    + destruct (key_eq_dec k' k0); reflexivity.
    + destruct (key_eq_dec k' k0) as [->|Hne'].
      * destruct (key_eq_dec k0 k); [congruence|reflexivity].
      * exact IH.
Qed.

Lemma in_keys_setitem {K V : Type} `{Hashable K} (m : dict K V) (k k' : K) (v : V) :
  In k' (keys (setitem m k v)) <-> k' = k \/ In k' (keys m).
Proof.
  induction m as [|[k0 v0] m IH]; simpl.
  - intuition congruence.
  - destruct (key_eq_dec k k0) as [->|Hne]; simpl.
    + intuition congruence.
    + fold (keys (setitem m k v)). fold (keys m). rewrite IH. intuition congruence.
Qed.

Lemma has_key_keys (m : dict string Z) (k : string) :
  has_key m k <-> In k (keys m).
Proof.
  split.
  - intros [v Hv]. apply getitem_In in Hv. apply (in_map fst) in Hv. exact Hv.
  - apply getitem_of_key.
Qed.

(** What [DHondt.__init__] stores in the fields of the audit. *)
Lemma DHondt_init_fields (risk_limit : Q) (audit_type : AuditType) (n : Z)
  (preliminary recount : DataFrame) (dh : DHondt) :
  DHondt_init risk_limit audit_type n preliminary recount = Ok dh ->
  let filled := fillna_party preliminary in
  let parties := keys (groupby_sum party filled) in
  let mpp := map (fun q => (q, members_of filled q)) parties in
  dh_risk_limit dh = risk_limit /\
  dh_vote_count dh = groupby_sum party filled /\
  dh_parties dh = parties /\
  dh_members_per_party dh = mpp /\
  dh_party_members dh
  = fold_left (fun acc q =>
                 fold_left (fun acc c => setitem acc c q) (members_of filled q) acc)
              parties [] /\
  get_W_L_sets (dh_pseudo_vote_count dh) n = (dh_W dh, dh_L dh) /\
  winning_candidates parties mpp (dh_W dh) = Ok (dh_winning_candidates dh) /\
  seat_bound max_list (dh_W dh) parties = Ok (dh_Sw dh) /\
  seat_bound min_list (dh_L dh) parties = Ok (dh_Sl dh) /\
  dh_Lp dh = parties_in (dh_L dh) /\
  dh_Wp dh = parties_in (dh_W dh) /\
  dh_T dh = (if is_ballot_polling audit_type
             then Matrix (map (fun winner =>
                    (winner,
                     map (fun loser => (loser, 1%Q))
                         (filter (fun loser =>
                                    if key_eq_dec winner loser then false else true)
                                 (dh_Lp dh)))) (dh_Wp dh))
             else Beta 1%Q).
Proof.
  intros Hinit filled parties mpp. unfold DHondt_init in Hinit.
  fold filled in Hinit. fold parties in Hinit. fold mpp in Hinit.
  destruct (pseudo_vote_count (groupby_sum party filled) mpp n parties)
    as [pvc|]; [|discriminate]. cbn [Py.bind] in Hinit.
  destruct (get_W_L_sets pvc n) as [W L] eqn:HWL.
  destruct (winning_candidates parties mpp W) as [wc|] eqn:Hwc; [|discriminate].
  cbn [Py.bind] in Hinit.
  destruct (seat_bound max_list W parties) as [Sw|] eqn:HSw; [|discriminate].
  cbn [Py.bind] in Hinit.
  destruct (seat_bound min_list L parties) as [Sl|] eqn:HSl; [|discriminate].
  cbn [Py.bind] in Hinit.
  destruct (mapM _ (parties_in W)) as [Tp|]; [|discriminate].
  cbn [Py.bind] in Hinit. injection Hinit as <-.
  cbn [dh_risk_limit dh_vote_count dh_parties dh_members_per_party dh_party_members
       dh_pseudo_vote_count dh_W dh_L dh_winning_candidates dh_Sw dh_Sl dh_Lp
       dh_Wp dh_T].
  repeat split; assumption || reflexivity.
Qed.

(** The ranking of the pseudo-candidates of an audit whose table has no
    negative votes and a total below 2^63: [W] followed by [L] lists, for every party with a name, the indexes below its size,
    and those of one party in increasing order. *)
Lemma DHondt_ranking (risk_limit : Q) (audit_type : AuditType) (n : Z)
  (preliminary recount : DataFrame) (dh : DHondt) :
  DHondt_init risk_limit audit_type n preliminary recount = Ok dh ->
  fits_int64 preliminary ->
  let filled := fillna_party preliminary in
  let size := fun q => Z.min n (Z.of_nat (List.length (members_of filled q))) in
  StronglySorted index_order (dh_W dh ++ dh_L dh) /\
  (forall x, In x (dh_W dh ++ dh_L dh) <->
             In (fst x) (dh_parties dh) /\ fst x <> EmptyString /\
             0 <= snd x < size (fst x)).
Proof.
  intros Hinit Hvotes filled size.
  destruct (DHondt_init_returns risk_limit audit_type n preliminary recount)
    as [dh' [Hinit' [_ [Hparties [Hpvc [HW [HL _]]]]]]].
  assert (dh' = dh) by congruence. subst dh'. clear Hinit'.
  fold filled in Hparties, Hpvc, HW, HL. fold size in Hpvc, HW, HL.
  set (vote_count := groupby_sum party filled) in *.
  set (pvc := pseudo_table vote_count size (keys vote_count)) in *.
  assert (HWL : dh_W dh ++ dh_L dh = keys (sorted_reverse snd pvc)).
  { rewrite HW, HL. unfold get_W_L_sets. simpl. unfold keys.
    rewrite <- map_app, slices_split. reflexivity. }
  split.
  - rewrite HWL. apply ranking_keeps_index_order.
    + apply groupby_sum_NoDup.
    + apply groupby_sum_nonneg, fillna_votes, Hvotes.
  - intros x. rewrite HWL, Hparties.
    assert (Hperm : Permutation (keys (sorted_reverse snd pvc)) (keys pvc))
      by apply Permutation_map, (sorted_reverse_perm (V := Q)).
    rewrite <- (pseudo_table_keys vote_count size (keys vote_count) x).
    split; intros Hx.
    + exact (Permutation_in _ Hperm Hx).
    + exact (Permutation_in _ (Permutation_sym Hperm) Hx).
Qed.

(** The pseudo-candidates of a party in [W] are its first ones. *)
Lemma ranking_prefix (W L : list PseudoCandidate) (parties : list string)
  (size : string -> Z) :
  StronglySorted index_order (W ++ L) ->
  (forall x, In x (W ++ L) <->
             In (fst x) parties /\ fst x <> EmptyString /\ 0 <= snd x < size (fst x)) ->
  forall q i j, In (q, j) W -> 0 <= i <= j -> In (q, i) W.
Proof.
  intros Hsorted Hkeys q i j Hj Hi.
  assert (Hall : In (q, i) (W ++ L)).
  { apply Hkeys. assert (Hj' : In (q, j) (W ++ L)) by (apply in_or_app; auto).
    apply Hkeys in Hj'. simpl in *. intuition lia. }
  apply in_app_or in Hall. destruct Hall as [HiW|HiL]; [exact HiW|].
  pose proof (StronglySorted_app_inv _ _ _ Hsorted _ _ Hj HiL eq_refl) as Hlt.
  simpl in Hlt. lia.
Qed.

(** X16. In a D'Hondt audit built from a table without negative votes
    whose total is below 2^63 (no [int64] party total wraps around),
    the seats of a party are its first pseudo-candidates: when [(p, j)]
    is in [W], so is every [(p, i)] with [0 <= i <= j]; and when [(p, i)]
    is in [L], so is every pseudo-candidate [(p, j)] of the party with
    [i <= j]. *)
Theorem X16_party_wins_its_first_quotients
  (risk_limit : Q) (audit_type : AuditType) (n_winners : Z)
  (preliminary recount : DataFrame) (dh : DHondt) :
  DHondt_init risk_limit audit_type n_winners preliminary recount = Ok dh ->
  fits_int64 preliminary ->
  (forall q i j, In (q, j) (dh_W dh) -> 0 <= i <= j -> In (q, i) (dh_W dh)) /\
  (forall q i j, In (q, i) (dh_L dh) -> i <= j ->
                 In (q, j) (keys (dh_pseudo_vote_count dh)) -> In (q, j) (dh_L dh)).
Proof.
  intros Hinit Hvotes.
  destruct (DHondt_ranking _ _ _ _ _ _ Hinit Hvotes) as [Hsorted Hkeys].
  destruct (DHondt_init_fields _ _ _ _ _ _ Hinit)
    as [_ [_ [_ [_ [_ [HWL _]]]]]].
  split.
  - exact (ranking_prefix _ _ (dh_parties dh)
             (fun q' => Z.min n_winners (Z.of_nat (List.length (members_of (fillna_party preliminary) q'))))
             Hsorted Hkeys).
  - intros q i j Hi Hij Hj.
    assert (Hall : In (q, j) (dh_W dh ++ dh_L dh)).
    { pose proof (get_W_L_sets_perm (dh_pseudo_vote_count dh) n_winners) as Hperm.
      rewrite HWL in Hperm. simpl in Hperm.
      exact (Permutation_in _ (Permutation_sym Hperm) Hj). }
    apply in_app_or in Hall. destruct Hall as [HjW|HjL]; [|exact HjL].
    pose proof (StronglySorted_app_inv _ _ _ Hsorted _ _ HjW Hi eq_refl) as Hlt.
    simpl in Hlt. lia.
Qed.

Lemma X16_party_wins_its_first_quotients_witness :
  let rows :=
    [ {| table := "t1"%string; candidate := "a"%string;
         party := Some "X"%string; votes := 5 |};
      {| table := "t1"%string; candidate := "b"%string;
         party := Some "X"%string; votes := 3 |};
      {| table := "t1"%string; candidate := "c"%string;
         party := Some "Y"%string; votes := 6 |};
      {| table := "t1"%string; candidate := "d"%string;
         party := Some "Y"%string; votes := 1 |} ] in
  exists dh,
    DHondt_init (1 # 10) BALLOTPOLLING 3 rows [] = Ok dh /\
    (forall q i j, In (q, j) (dh_W dh) -> 0 <= i <= j -> In (q, i) (dh_W dh)) /\
    (forall q i j, In (q, i) (dh_L dh) -> i <= j ->
                   In (q, j) (keys (dh_pseudo_vote_count dh)) -> In (q, j) (dh_L dh)).
Proof.
  intros rows.
  destruct (DHondt_init (1 # 10) BALLOTPOLLING 3 rows []) as [dh|ex] eqn:Hinit;
    [|vm_compute in Hinit; discriminate Hinit].
  exists dh. split; [reflexivity|].
  apply (X16_party_wins_its_first_quotients (1 # 10) BALLOTPOLLING 3 rows [] dh Hinit).
  split; [|vm_compute; reflexivity].
  intros r [<-|[<-|[<-|[<-|[]]]]]; simpl; lia.
Defined.

(** ** The dictionaries [Sw] and [Sl] *)

Lemma seat_bound_acc (pick : list Z -> result Z) (X : list PseudoCandidate)
  (sub : list string) :
  forall (acc S : dict string Z) (q : string) (s : Z),
    foldM (fun acc q =>
             match indexes_of X q with
             | [] => Ok acc
             | i :: rest => m <- pick (i :: rest) ;; Ok (setitem acc q m)
             end) sub acc = Ok S ->
    getitem S q = Ok s ->
    getitem acc q = Ok s \/
    (In q sub /\ pick (indexes_of X q) = Ok s /\ indexes_of X q <> []).
Proof.
  induction sub as [|a sub IH]; intros acc S q s Hfold Hget.
  - simpl in Hfold. injection Hfold as <-. auto.
  - cbn [foldM] in Hfold. apply bind_Ok in Hfold.
    destruct Hfold as [acc1 [Hstep Hfold]].
    destruct (IH acc1 S q s Hfold Hget) as [Hacc1|[Hin Hpick]];
      [|right; split; [right; exact Hin|exact Hpick]].
    destruct (indexes_of X a) as [|i rest] eqn:Hidx.
    + injection Hstep as <-. auto.
    + apply bind_Ok in Hstep. destruct Hstep as [m [Hm Hstep]].
      injection Hstep as <-. rewrite getitem_setitem in Hacc1.
      destruct (key_eq_dec q a) as [->|Hne]; [|auto].
      right. rewrite Hidx. split; [left; reflexivity|].
      split; [congruence|discriminate].
Qed.

Lemma seat_bound_has (pick : list Z -> result Z) (X : list PseudoCandidate)
  (sub : list string) :
  forall (acc S : dict string Z) (q : string),
    foldM (fun acc q =>
             match indexes_of X q with
             | [] => Ok acc
             | i :: rest => m <- pick (i :: rest) ;; Ok (setitem acc q m)
             end) sub acc = Ok S ->
    In q (keys acc) \/ (In q sub /\ indexes_of X q <> []) ->
    In q (keys S).
Proof.
  induction sub as [|a sub IH]; intros acc S q Hfold Hq.
  - simpl in Hfold. injection Hfold as <-. destruct Hq as [Hq|[[] _]]. exact Hq.
  - cbn [foldM] in Hfold. apply bind_Ok in Hfold.
    destruct Hfold as [acc1 [Hstep Hfold]].
    apply (IH acc1 S q Hfold).
    destruct (indexes_of X a) as [|i rest] eqn:Hidx.
    + injection Hstep as <-. destruct Hq as [Hq|[[->|Hin] Hne]]; auto.
      contradiction.
    + apply bind_Ok in Hstep. destruct Hstep as [m [Hm Hstep]].
      injection Hstep as <-. rewrite in_keys_setitem.
      destruct Hq as [Hq|[[->|Hin] Hne]]; auto.
Qed.

Lemma fold_min_spec (l : list Z) (x : Z) :
  let m := fold_left Z.min l x in
  (m = x \/ In m l) /\ m <= x /\ (forall j, In j l -> m <= j).
Proof.
  revert x. induction l as [|y l IH]; intros x; simpl.
  - split; [auto|]. split; [lia|]. intros j [].
  - destruct (IH (Z.min x y)) as [Hin [Hle Hlb]]. split; [|split].
    + destruct Hin as [Heq|Hin]; [|auto].
      rewrite Heq. destruct (Z.min_spec x y) as [[_ ->]|[_ ->]]; auto.
    + lia.
    + intros j [<-|Hj]; [lia|apply Hlb, Hj].
Qed.

Lemma min_list_spec (l : list Z) (m : Z) :
  min_list l = Ok m -> In m l /\ forall j, In j l -> m <= j.
Proof.
  destruct l as [|x l]; simpl; [discriminate|].
  intros Heq. injection Heq as <-.
  destruct (fold_min_spec l x) as [Hin [Hle Hlb]]. split.
  - destruct Hin as [->|Hin]; auto.
  - intros j [<-|Hj]; [exact Hle|apply Hlb, Hj].
Qed.

(** X17. In a D'Hondt audit built from a table without negative votes
    whose total is below 2^63 (no [int64] party total wraps around),
    [Sw] has an entry exactly for the parties of [Wp], and [Sw[p]] is the
    last seat of the party: the pseudo-candidates of [p] in [W] are
    [(p, 0), ..., (p, Sw[p])]. *)
Theorem X17_Sw_is_the_last_seat_won
  (risk_limit : Q) (audit_type : AuditType) (n_winners : Z)
  (preliminary recount : DataFrame) (dh : DHondt) :
  DHondt_init risk_limit audit_type n_winners preliminary recount = Ok dh ->
  fits_int64 preliminary ->
  (forall q, In q (keys (dh_Sw dh)) <-> In q (dh_Wp dh)) /\
  (forall q s, getitem (dh_Sw dh) q = Ok s ->
               forall i, In (q, i) (dh_W dh) <-> 0 <= i <= s).
Proof.
  intros Hinit Hvotes.
  destruct (DHondt_ranking _ _ _ _ _ _ Hinit Hvotes) as [Hsorted Hkeys].
  destruct (DHondt_init_fields _ _ _ _ _ _ Hinit)
    as [_ [_ [Hparties [_ [_ [_ [_ [HSw _]]]]]]]].
  destruct (DHondt_init_returns risk_limit audit_type n_winners preliminary recount)
    as [dh' [Hinit' [_ [_ [_ [_ [_ [HWp _]]]]]]]].
  assert (dh' = dh) by congruence. subst dh'. clear Hinit'.
  unfold seat_bound in HSw.
  assert (Hlast : forall q s, getitem (dh_Sw dh) q = Ok s ->
            In (q, s) (dh_W dh) /\ forall i, In (q, i) (dh_W dh) -> i <= s).
  { intros q s Hs.
    destruct (seat_bound_acc _ _ _ _ _ _ _ HSw Hs) as [Hnil|[_ [Hpick _]]];
      [discriminate Hnil|].
    apply max_list_spec in Hpick. destruct Hpick as [Hin Hub]. split.
    - apply indexes_of_In, Hin.
    - intros i Hi. apply Hub, indexes_of_In, Hi. }
  split.
  - intros q. rewrite HWp, parties_in_spec. split.
    + intros Hq. apply getitem_of_key in Hq. destruct Hq as [s Hs].
      apply Hlast in Hs. destruct Hs as [Hin _].
      apply (in_map fst) in Hin. exact Hin.
    + intros Hq. apply in_map_iff in Hq. destruct Hq as [[q' i] [Heq Hin]].
      simpl in Heq. subst q'.
      apply (seat_bound_has _ _ _ _ _ _ HSw). right. split.
      * assert (Hall : In (q, i) (dh_W dh ++ dh_L dh)) by (apply in_or_app; auto).
        apply Hkeys in Hall. simpl in Hall. rewrite <- Hparties. tauto.
      * apply indexes_of_In in Hin. intros Hnil. rewrite Hnil in Hin. exact Hin.
  - intros q s Hs i. destruct (Hlast q s Hs) as [Hin Hub]. split.
    + intros Hi. split; [|apply Hub, Hi].
      assert (Hall : In (q, i) (dh_W dh ++ dh_L dh)) by (apply in_or_app; auto).
      apply Hkeys in Hall. simpl in Hall. lia.
    + intros Hi.
      exact (ranking_prefix _ _ (dh_parties dh)
               (fun q' => Z.min n_winners (Z.of_nat (List.length (members_of (fillna_party preliminary) q'))))
               Hsorted Hkeys q i s Hin Hi).
Qed.

Lemma X17_Sw_is_the_last_seat_won_witness :
  let rows :=
    [ {| table := "t1"%string; candidate := "a"%string;
         party := Some "X"%string; votes := 5 |};
      {| table := "t1"%string; candidate := "b"%string;
         party := Some "X"%string; votes := 3 |};
      {| table := "t1"%string; candidate := "c"%string;
         party := Some "Y"%string; votes := 6 |};
      {| table := "t1"%string; candidate := "d"%string;
         party := Some "Y"%string; votes := 1 |} ] in
  exists dh,
    DHondt_init (1 # 10) BALLOTPOLLING 3 rows [] = Ok dh /\
    (forall q, In q (keys (dh_Sw dh)) <-> In q (dh_Wp dh)) /\
    (forall q s, getitem (dh_Sw dh) q = Ok s ->
                 forall i, In (q, i) (dh_W dh) <-> 0 <= i <= s).
Proof.
  intros rows.
  destruct (DHondt_init (1 # 10) BALLOTPOLLING 3 rows []) as [dh|ex] eqn:Hinit;
    [|vm_compute in Hinit; discriminate Hinit].
  exists dh. split; [reflexivity|].
  apply (X17_Sw_is_the_last_seat_won (1 # 10) BALLOTPOLLING 3 rows [] dh Hinit).
  split; [|vm_compute; reflexivity].
  intros r [<-|[<-|[<-|[<-|[]]]]]; simpl; lia.
Defined.

(** X18. In a D'Hondt audit built from a table without negative votes
    whose total is below 2^63 (no [int64] party total wraps around),
    [Sl[p]] is the first lost pseudo-candidate of the party, and it comes
    right after the last seat: [Sl[p] = Sw[p] + 1] for a party that holds
    a seat, and [Sl[p] = 0] for a party without one. *)
Theorem X18_Sl_is_the_seat_after_Sw
  (risk_limit : Q) (audit_type : AuditType) (n_winners : Z)
  (preliminary recount : DataFrame) (dh : DHondt) :
  DHondt_init risk_limit audit_type n_winners preliminary recount = Ok dh ->
  fits_int64 preliminary ->
  forall q s', getitem (dh_Sl dh) q = Ok s' ->
    In (q, s') (dh_L dh) /\
    (forall i, In (q, i) (dh_L dh) -> s' <= i) /\
    s' = match getitem (dh_Sw dh) q with
         | Ok s => s + 1
         | Raise _ => 0
         end.
Proof.
  intros Hinit Hvotes q s' Hs'.
  destruct (DHondt_ranking _ _ _ _ _ _ Hinit Hvotes) as [Hsorted Hkeys].
  destruct (DHondt_init_fields _ _ _ _ _ _ Hinit)
    as [_ [_ [Hparties [_ [_ [_ [_ [HSw [HSl _]]]]]]]]].
  unfold seat_bound in HSw, HSl.
  destruct (seat_bound_acc _ _ _ _ _ _ _ HSl Hs') as [Hnil|[_ [Hpick _]]];
    [discriminate Hnil|].
  apply min_list_spec in Hpick. destruct Hpick as [Hin Hlb].
  apply indexes_of_In in Hin.
  assert (HlbL : forall i, In (q, i) (dh_L dh) -> s' <= i)
    by (intros i Hi; apply Hlb, indexes_of_In, Hi).
  split; [exact Hin|]. split; [exact HlbL|].
  assert (Hall : In (q, s') (dh_W dh ++ dh_L dh)) by (apply in_or_app; auto).
  apply Hkeys in Hall. simpl in Hall. destruct Hall as [Hq [Hne Hrange]].
  assert (Hmid : forall i, 0 <= i < s' -> In (q, i) (dh_W dh)).
  { intros i Hi.
    assert (Hi' : In (q, i) (dh_W dh ++ dh_L dh))
      by (apply Hkeys; simpl; intuition lia).
    apply in_app_or in Hi'. destruct Hi' as [HiW|HiL]; [exact HiW|].
    apply HlbL in HiL. lia. }
  destruct (getitem (dh_Sw dh) q) as [s|ex] eqn:Hs.
  - destruct (seat_bound_acc _ _ _ _ _ _ _ HSw Hs) as [Hnil|[_ [Hpick _]]];
      [discriminate Hnil|].
    apply max_list_spec in Hpick. destruct Hpick as [HsW Hub].
    apply indexes_of_In in HsW.
    pose proof (StronglySorted_app_inv _ _ _ Hsorted _ _ HsW Hin eq_refl) as Hlt.
    simpl in Hlt.
    assert (Hs0 : In (q, s) (dh_W dh ++ dh_L dh)) by (apply in_or_app; auto).
    apply Hkeys in Hs0. simpl in Hs0.
    destruct (Z.eq_dec s' (s + 1)) as [Heq|Hneq]; [exact Heq|].
    assert (Hnext : In (q, s + 1) (dh_W dh)) by (apply Hmid; lia).
    apply indexes_of_In, Hub in Hnext. lia.
  - destruct (Z.eq_dec s' 0) as [Heq|Hneq]; [exact Heq|].
    assert (Hzero : In (q, 0) (dh_W dh)) by (apply Hmid; lia).
    assert (Hhas : In q (keys (dh_Sw dh))).
    { apply (seat_bound_has _ _ _ _ _ _ HSw). right. split.
      - rewrite <- Hparties. exact Hq.
      - apply indexes_of_In in Hzero. intros Hnil. rewrite Hnil in Hzero.
        exact Hzero. }
    apply getitem_of_key in Hhas. destruct Hhas as [s Hs0]. congruence.
Qed.

Lemma X18_Sl_is_the_seat_after_Sw_witness :
  let rows :=
    [ {| table := "t1"%string; candidate := "a"%string;
         party := Some "X"%string; votes := 5 |};
      {| table := "t1"%string; candidate := "b"%string;
         party := Some "X"%string; votes := 3 |};
      {| table := "t1"%string; candidate := "c"%string;
         party := Some "Y"%string; votes := 6 |};
      {| table := "t1"%string; candidate := "d"%string;
         party := Some "Y"%string; votes := 1 |} ] in
  exists dh,
    DHondt_init (1 # 10) BALLOTPOLLING 3 rows [] = Ok dh /\
    getitem (dh_Sl dh) "Y"%string = Ok 1 /\
    In ("Y"%string, 1) (dh_L dh) /\
    (forall i, In ("Y"%string, i) (dh_L dh) -> 1 <= i) /\
    1 = match getitem (dh_Sw dh) "Y"%string with
        | Ok s => s + 1
        | Raise _ => 0
        end.
Proof.
  intros rows.
  destruct (DHondt_init (1 # 10) BALLOTPOLLING 3 rows []) as [dh|ex] eqn:Hinit;
    [|vm_compute in Hinit; discriminate Hinit].
  exists dh. split; [reflexivity|].
  assert (Hvotes : fits_int64 rows).
  { split; [|vm_compute; reflexivity].
    intros r [<-|[<-|[<-|[<-|[]]]]]; simpl; lia. }
  assert (HSl : getitem (dh_Sl dh) "Y"%string = Ok 1)
    by (vm_compute in Hinit; injection Hinit as <-; reflexivity).
  split; [exact HSl|].
  exact (X18_Sl_is_the_seat_after_Sw (1 # 10) BALLOTPOLLING 3 rows [] dh Hinit Hvotes
           "Y"%string 1 HSl).
Defined.

(** ** The winning candidates *)

Lemma indexes_of_nil (W : list PseudoCandidate) (q : string) :
  holds_seat W q = false -> indexes_of W q = [].
Proof.
  intros Hno. destruct (indexes_of W q) as [|i rest] eqn:Hidx; [reflexivity|].
  assert (Hin : In (q, i) W) by (apply indexes_of_In; rewrite Hidx; left; reflexivity).
  apply (in_map fst) in Hin. apply holds_seat_spec in Hin. simpl in Hin. congruence.
Qed.

Lemma winning_candidates_length (W : list PseudoCandidate)
  (mpp : dict string (list string)) (sub : list string) :
  (forall q, In q sub -> holds_seat W q = true ->
     seats W q = Ok (Z.of_nat (List.length (indexes_of W q))) /\
     exists members, getitem mpp q = Ok members /\
                     (List.length (indexes_of W q) <= List.length members)%nat) ->
  forall acc wc,
    foldM (fun acc q =>
             if holds_seat W q then
               n <- seats W q ;;
               members <- getitem mpp q ;;
               Ok (acc ++ slice_to n members)
             else Ok acc) sub acc = Ok wc ->
    Z.of_nat (List.length wc)
    = Z.of_nat (List.length acc)
      + sum (map (fun q => Z.of_nat (List.length (indexes_of W q))) sub).
Proof.
  induction sub as [|a sub IH]; intros Hsub acc wc Hfold.
  - simpl in Hfold. injection Hfold as <-. change (sum (map _ [])) with 0. lia.
  - cbn [foldM] in Hfold. apply bind_Ok in Hfold.
    destruct Hfold as [acc1 [Hstep Hfold]].
    rewrite (IH (fun q Hq => Hsub q (or_intror Hq)) acc1 wc Hfold).
    cbn [map]. rewrite sum_cons.
    destruct (holds_seat W a) eqn:Hholds.
    + destruct (Hsub a (or_introl eq_refl) Hholds) as [Hseats [members [Hget Hlen]]].
      rewrite Hseats, Hget in Hstep. cbn [Py.bind] in Hstep. injection Hstep as <-.
      rewrite length_app, Nat2Z.inj_add, slice_to_length; lia.
    + injection Hstep as <-. rewrite (indexes_of_nil W a Hholds). simpl. lia.
Qed.

Lemma winning_candidates_members (W : list PseudoCandidate)
  (mpp : dict string (list string)) (sub : list string) :
  forall acc wc c,
    foldM (fun acc q =>
             if holds_seat W q then
               n <- seats W q ;;
               members <- getitem mpp q ;;
               Ok (acc ++ slice_to n members)
             else Ok acc) sub acc = Ok wc ->
    In c wc ->
    In c acc \/
    exists q members, In q sub /\ holds_seat W q = true /\
                      getitem mpp q = Ok members /\ In c members.
Proof.
  induction sub as [|a sub IH]; intros acc wc c Hfold Hc.
  - simpl in Hfold. injection Hfold as <-. auto.
  - cbn [foldM] in Hfold. apply bind_Ok in Hfold.
    destruct Hfold as [acc1 [Hstep Hfold]].
    destruct (IH acc1 wc c Hfold Hc) as [Hacc1|[q [members [Hq Hrest]]]];
      [|right; exists q, members; split; [right; exact Hq|exact Hrest]].
    destruct (holds_seat W a) eqn:Hholds; [|injection Hstep as <-; auto].
    apply bind_Ok in Hstep. destruct Hstep as [k [Hk Hstep]].
    apply bind_Ok in Hstep. destruct Hstep as [members [Hget Hstep]].
    injection Hstep as <-. apply in_app_or in Hacc1.
    destruct Hacc1 as [Hacc|Hslice]; [auto|]. right.
    exists a, members. split; [left; reflexivity|]. split; [exact Hholds|].
    split; [exact Hget|]. unfold slice_to in Hslice.
    rewrite <- (firstn_skipn (slice_index k members) members).
    apply in_or_app. left. exact Hslice.
Qed.

(** X19. In a D'Hondt audit built from a table without negative votes
    whose total is below 2^63 (no [int64] party total wraps around),
    with [0 <= n_winners] and at least [n_winners] pseudo-candidates,
    [winning_candidates] names exactly [n_winners] candidates, and each
    of them is a member of a party of [Wp]. *)
Theorem X19_as_many_winning_candidates_as_seats
  (risk_limit : Q) (audit_type : AuditType) (n_winners : Z)
  (preliminary recount : DataFrame) (dh : DHondt) :
  DHondt_init risk_limit audit_type n_winners preliminary recount = Ok dh ->
  fits_int64 preliminary ->
  0 <= n_winners ->
  n_winners <= Z.of_nat (List.length (dh_pseudo_vote_count dh)) ->
  Z.of_nat (List.length (dh_winning_candidates dh)) = n_winners /\
  (forall c, In c (dh_winning_candidates dh) ->
     exists q, In q (dh_Wp dh) /\
               In c (members_of (fillna_party preliminary) q)).
Proof.
  intros Hinit Hvotes Hn Hlen.
  destruct (DHondt_ranking _ _ _ _ _ _ Hinit Hvotes) as [Hsorted Hkeys].
  destruct (DHondt_init_fields _ _ _ _ _ _ Hinit)
    as [_ [_ [Hparties [_ [_ [HWL [Hwc _]]]]]]].
  destruct (DHondt_init_returns risk_limit audit_type n_winners preliminary recount)
    as [dh' [Hinit' [_ [_ [_ [_ [_ [HWp _]]]]]]]].
  assert (dh' = dh) by congruence. subst dh'. clear Hinit'.
  set (filled := fillna_party preliminary) in *.
  set (parties := keys (groupby_sum party filled)) in *.
  unfold winning_candidates in Hwc.
  assert (Hmembers : forall q, In q parties ->
            getitem (map (fun q => (q, members_of filled q)) parties) q
            = Ok (members_of filled q))
    by (intros q Hq; apply getitem_tabulate, Hq).
  assert (Hcond : forall q, In q parties -> holds_seat (dh_W dh) q = true ->
            seats (dh_W dh) q = Ok (Z.of_nat (List.length (indexes_of (dh_W dh) q))) /\
            exists members,
              getitem (map (fun q => (q, members_of filled q)) parties) q = Ok members /\
              (List.length (indexes_of (dh_W dh) q) <= List.length members)%nat).
  { intros q Hq Hholds. apply holds_seat_spec in Hholds.
    destruct (seats_total (dh_W dh) q Hholds) as [k Hk].
    assert (Hcount : k = Z.of_nat (List.length (indexes_of (dh_W dh) q))).
    { apply (seats_count (dh_W dh) (dh_L dh) q k Hsorted); [| |exact Hk].
      - intros i j Hj Hi. apply Hkeys. apply Hkeys in Hj. simpl in *.
        intuition lia.
      - intros j Hj. apply Hkeys in Hj. simpl in Hj. lia. }
    split; [rewrite Hk, Hcount; reflexivity|].
    exists (members_of filled q). split; [apply Hmembers, Hq|].
    unfold seats in Hk. apply bind_Ok in Hk. destruct Hk as [m [Hm Hk]].
    injection Hk as Hk. apply max_list_spec in Hm. destruct Hm as [Hm _].
    apply indexes_of_In in Hm.
    assert (Hall : In (q, m) (dh_W dh ++ dh_L dh)) by (apply in_or_app; auto).
    apply Hkeys in Hall. simpl in Hall. lia. }
  split.
  - rewrite (winning_candidates_length _ _ _ Hcond [] _ Hwc).
    rewrite count_by_party.
    + pose proof (f_equal fst HWL) as HW. simpl in HW. rewrite <- HW.
      unfold get_W_L_sets. simpl. rewrite length_map.
      apply slice_to_length.
      rewrite (Permutation_length (sorted_reverse_perm (V := Q) snd _)). lia.
    + apply groupby_sum_NoDup.
    + intros x Hx. rewrite <- Hparties.
      assert (Hall : In x (dh_W dh ++ dh_L dh)) by (apply in_or_app; auto).
      apply Hkeys in Hall. tauto.
  - intros c Hc.
    destruct (winning_candidates_members _ _ _ _ _ _ Hwc Hc)
      as [[]|[q [members [Hq [Hholds [Hget Hin]]]]]].
    rewrite (Hmembers q Hq) in Hget. injection Hget as <-.
    exists q. split; [|exact Hin].
    rewrite HWp. apply parties_in_spec, holds_seat_spec, Hholds.
Qed.

Lemma X19_as_many_winning_candidates_as_seats_witness :
  let rows :=
    [ {| table := "t1"%string; candidate := "a"%string;
         party := Some "X"%string; votes := 5 |};
      {| table := "t1"%string; candidate := "b"%string;
         party := Some "X"%string; votes := 3 |};
      {| table := "t1"%string; candidate := "c"%string;
         party := Some "Y"%string; votes := 6 |};
      {| table := "t1"%string; candidate := "d"%string;
         party := Some "Y"%string; votes := 1 |} ] in
  exists dh,
    DHondt_init (1 # 10) BALLOTPOLLING 3 rows [] = Ok dh /\
    Z.of_nat (List.length (dh_winning_candidates dh)) = 3 /\
    (forall c, In c (dh_winning_candidates dh) ->
       exists q, In q (dh_Wp dh) /\ In c (members_of (fillna_party rows) q)).
Proof.
  intros rows.
  destruct (DHondt_init (1 # 10) BALLOTPOLLING 3 rows []) as [dh|ex] eqn:Hinit;
    [|vm_compute in Hinit; discriminate Hinit].
  exists dh. split; [reflexivity|].
  apply (X19_as_many_winning_candidates_as_seats
           (1 # 10) BALLOTPOLLING 3 rows [] dh Hinit).
  - split; [|vm_compute; reflexivity].
    intros r [<-|[<-|[<-|[<-|[]]]]]; simpl; lia.
  - lia.
  - vm_compute in Hinit. injection Hinit as <-. vm_compute. discriminate.
Defined.

End DHondt_more.

(* ================================================================== *)
(** * Further properties: the recount of a D'Hondt audit                *)
(* ================================================================== *)

Section Recount_more.
Import Utils Audits Props AuditsRest MoreProps.

Lemma get0_setitem (m : dict string Z) (k k' : string) (v : Z) :
  get0 (setitem m k v) k' = if key_eq_dec k' k then v else get0 m k'.
Proof.
  unfold get0. rewrite getitem_setitem. destruct (key_eq_dec k' k); reflexivity.
Qed.

Lemma get0_missing (m : dict string Z) (k : string) :
  ~ In k (keys m) -> get0 m k = 0.
Proof.
  intros Hno. unfold get0. destruct (getitem m k) as [v|ex] eqn:Hv; [|reflexivity].
  exfalso. apply Hno. apply getitem_In in Hv. apply (in_map fst) in Hv. exact Hv.
Qed.

(** One iteration adds the votes of the candidate to its party. *)
Lemma recount_step_spec (pm : dict string string) (recount acc acc1 : dict string Z)
  (c : string) :
  recount_step pm recount acc c = Ok acc1 ->
  exists qc,
    getitem pm c = Ok qc /\
    (forall q, In q (keys acc1) <-> q = qc \/ In q (keys acc)) /\
    (forall q, get0 acc1 q
               = get0 acc q + (if key_eq_dec qc q then get0 recount c else 0)).
Proof.
  unfold recount_step. intros Hstep.
  destruct (getitem pm c) as [qc|] eqn:Hqc; [|discriminate].
  cbn [Py.bind] in Hstep. exists qc. split; [reflexivity|].
  set (tr0 := if contains (keys acc) qc then acc else setitem acc qc 0) in *.
  assert (Hkeys0 : forall q, In q (keys tr0) <-> q = qc \/ In q (keys acc)).
  { intros q. unfold tr0. destruct (contains (keys acc) qc) eqn:Hc.
    - apply contains_spec in Hc. intuition congruence.
    - apply in_keys_setitem. }
  assert (Hget0 : forall q, get0 tr0 q = get0 acc q).
  { intros q. unfold tr0. destruct (contains (keys acc) qc) eqn:Hc; [reflexivity|].
    rewrite get0_setitem. destruct (key_eq_dec q qc) as [->|Hne]; [|reflexivity].
    symmetry. apply get0_missing. intros Hin. apply contains_spec in Hin. congruence. }
  destruct (getitem tr0 qc) as [cur|] eqn:Hcur; [|discriminate].
  cbn [Py.bind] in Hstep.
  destruct (getitem recount c) as [v|] eqn:Hv; [|discriminate].
  cbn [Py.bind] in Hstep. injection Hstep as <-. split.
  - intros q. rewrite in_keys_setitem, Hkeys0. tauto.
  - intros q. rewrite get0_setitem, (get0_of _ _ _ Hv).
    destruct (key_eq_dec q qc) as [->|Hne].
    + destruct (key_eq_dec qc qc) as [_|Hne]; [|congruence].
      rewrite <- Hget0, (get0_of _ _ _ Hcur). reflexivity.
    + destruct (key_eq_dec qc q) as [Heq|_]; [congruence|].
      rewrite Hget0. lia.
Qed.

Lemma recount_fold (pm : dict string string) (recount : dict string Z)
  (l : list string) :
  forall acc tr,
    foldM (recount_step pm recount) l acc = Ok tr ->
    (forall c, In c l -> In c (keys pm)) /\
    (forall q, In q (keys tr) <->
               In q (keys acc) \/ exists c, In c l /\ getitem pm c = Ok q) /\
    (forall q, get0 tr q
               = get0 acc q + sum (map (get0 recount) (members_in pm q l))).
Proof.
  induction l as [|c l IH]; intros acc tr Hfold.
  - simpl in Hfold. injection Hfold as <-. split; [intros c []|]. split.
    + intros q. split; [auto|]. intros [Hq|[c [[] _]]]. exact Hq.
    + intros q. change (sum (map _ (members_in pm q []))) with 0. lia.
  - cbn [foldM] in Hfold. apply bind_Ok in Hfold.
    destruct Hfold as [acc1 [Hstep Hfold]].
    destruct (recount_step_spec _ _ _ _ _ Hstep) as [qc [Hqc [Hk1 Hv1]]].
    destruct (IH acc1 tr Hfold) as [Hknown [Hk Hv]]. split; [|split].
    + intros c' [<-|Hc']; [|apply Hknown, Hc'].
      apply getitem_In in Hqc. apply (in_map fst) in Hqc. exact Hqc.
    + intros q. rewrite Hk, Hk1. split.
      * intros [[->|Hq]|[c' [Hc' Hq]]].
        -- right. exists c. split; [left; reflexivity|exact Hqc].
        -- auto.
        -- right. exists c'. split; [right; exact Hc'|exact Hq].
      * intros [Hq|[c' [[<-|Hc'] Hq]]].
        -- auto.
        -- left. left. congruence.
        -- right. exists c'. auto.
    + intros q. rewrite Hv, Hv1. unfold members_in. cbn [filter]. rewrite Hqc.
      destruct (key_eq_dec qc q); [cbn [map]; rewrite sum_cons|]; lia.
Qed.

Lemma recount_fold_raise (pm : dict string string) (recount : dict string Z)
  (l : list string) :
  (forall c, In c l -> In c (keys recount)) ->
  forall acc ex,
    foldM (recount_step pm recount) l acc = Raise ex ->
    ex = KeyError /\ exists c, In c l /\ ~ In c (keys pm).
Proof.
  induction l as [|c l IH]; intros Hl acc ex Hfold; [discriminate Hfold|].
  cbn [foldM] in Hfold.
  destruct (recount_step pm recount acc c) as [acc1|ex1] eqn:Hstep.
  - cbn [Py.bind] in Hfold.
    destruct (IH (fun c' Hc' => Hl c' (or_intror Hc')) acc1 ex Hfold)
      as [Hex [c' [Hc' Hno]]].
    split; [exact Hex|]. exists c'. split; [right; exact Hc'|exact Hno].
  - cbn [Py.bind] in Hfold. injection Hfold as <-.
    unfold recount_step in Hstep.
    destruct (getitem pm c) as [qc|exq] eqn:Hqc.
    + exfalso. cbn [Py.bind] in Hstep.
      set (tr0 := if contains (keys acc) qc then acc else setitem acc qc 0) in *.
      assert (Hin0 : In qc (keys tr0)).
      { unfold tr0. destruct (contains (keys acc) qc) eqn:Hc.
        - apply contains_spec, Hc.
        - apply in_keys_setitem. auto. }
      apply getitem_of_key in Hin0. destruct Hin0 as [cur Hcur].
      rewrite Hcur in Hstep. cbn [Py.bind] in Hstep.
      destruct (getitem_of_key recount c (Hl c (or_introl eq_refl))) as [v Hv].
      rewrite Hv in Hstep. discriminate Hstep.
    + cbn [Py.bind] in Hstep. injection Hstep as <-.
      assert (Hno : ~ In c (keys pm)).
      { intros Hin. apply getitem_of_key in Hin. destruct Hin as [q Hq]. congruence. }
      split.
      * clear -Hqc. induction pm as [|[k v] pm IHpm]; simpl in Hqc.
        -- congruence.
        -- destruct (key_eq_dec c k); [discriminate|auto].
      * exists c. split; [left; reflexivity|exact Hno].
Qed.

(** X20. [DHondt._vote_recount_transform] groups the recount by party:
    when it returns, the parties of the result are those of the
    candidates of the recount, and the entry of a party is the sum of the
    recounted votes of its candidates. *)
Theorem X20_recount_is_grouped_by_party
  (self : DHondt) (recount transformed : dict string Z) :
  DHondt_vote_recount_transform self recount = Ok transformed ->
  (forall q, In q (keys transformed) <->
             exists c, In c (keys recount) /\
                       getitem (dh_party_members self) c = Ok q) /\
  (forall q, get0 transformed q
             = sum (map (get0 recount)
                        (members_in (dh_party_members self) q (keys recount)))).
Proof.
  unfold DHondt_vote_recount_transform. intros Hfold.
  destruct (recount_fold _ _ _ _ _ Hfold) as [_ [Hk Hv]]. split.
  - intros q. rewrite Hk. simpl. tauto.
  - intros q. rewrite Hv. unfold get0. simpl. lia.
Qed.

Lemma X20_recount_is_grouped_by_party_witness :
  let self :=
    {| dh_risk_limit := 1 # 10; dh_audit_type := BALLOTPOLLING; dh_n_winners := 1;
       dh_preliminary := []; dh_vote_count := [("X"%string, 8); ("Y"%string, 7)];
       dh_candidates := ["a"%string; "b"%string; "c"%string];
       dh_parties := ["X"%string; "Y"%string];
       dh_party_members := [("a"%string, "X"%string); ("b"%string, "X"%string);
                            ("c"%string, "Y"%string)];
       dh_members_per_party := [("X"%string, ["a"%string; "b"%string]);
                                ("Y"%string, ["c"%string])];
       dh_pseudo_vote_count := [(("X"%string, 0), 8 # 1); (("Y"%string, 0), 7 # 1)];
       dh_W := [("X"%string, 0)]; dh_L := [("Y"%string, 0)];
       dh_winning_candidates := ["a"%string];
       dh_Sw := [("X"%string, 0)]; dh_Sl := [("Y"%string, 0)];
       dh_Wp := ["X"%string]; dh_Lp := ["Y"%string];
       dh_T := Matrix [("X"%string, [("Y"%string, 1%Q)])]; dh_Tp := [] |} in
  let recount := [("c"%string, 2); ("a"%string, 3); ("b"%string, 1)] in
  let transformed := [("Y"%string, 2); ("X"%string, 4)] in
  DHondt_vote_recount_transform self recount = Ok transformed /\
  (forall q, In q (keys transformed) <->
             exists c, In c (keys recount) /\
                       getitem (dh_party_members self) c = Ok q) /\
  (forall q, get0 transformed q
             = sum (map (get0 recount)
                        (members_in (dh_party_members self) q (keys recount)))).
Proof.
  intros self recount transformed.
  assert (Htr : DHondt_vote_recount_transform self recount = Ok transformed)
    by reflexivity.
  split; [exact Htr|].
  exact (X20_recount_is_grouped_by_party self recount transformed Htr).
Defined.

(** X21. [DHondt._vote_recount_transform] returns when every candidate of
    the recount has a party in [party_members]; otherwise it raises
    [KeyError], and a candidate of the recount has no party. *)
Theorem X21_recount_fails_only_on_an_unknown_candidate
  (self : DHondt) (recount : dict string Z) :
  match DHondt_vote_recount_transform self recount with
  | Ok _ => forall c, In c (keys recount) -> In c (keys (dh_party_members self))
  | Raise ex =>
      ex = KeyError /\
      exists c, In c (keys recount) /\ ~ In c (keys (dh_party_members self))
  end.
Proof.
  unfold DHondt_vote_recount_transform.
  destruct (foldM (recount_step (dh_party_members self) recount) (keys recount) [])
    as [tr|ex] eqn:Hfold.
  - exact (proj1 (recount_fold _ _ _ _ _ Hfold)).
  - exact (recount_fold_raise _ _ _ (fun c Hc => Hc) _ _ Hfold).
Qed.

(** ** The party of a candidate *)

Lemma unique_acc (l acc : list string) (c : string) :
  In c (fold_left (fun acc c => if contains acc c then acc else acc ++ [c]) l acc)
  <-> In c acc \/ In c l.
Proof.
  revert acc. induction l as [|x l IH]; intros acc; simpl; [tauto|].
  rewrite IH. destruct (contains acc x) eqn:Hx.
  - apply contains_spec in Hx. intuition congruence.
  - rewrite in_app_iff. simpl. intuition congruence.
Qed.

Lemma unique_In (l : list string) (c : string) : In c (unique l) <-> In c l.
Proof. unfold unique. rewrite unique_acc. simpl. tauto. Qed.

Lemma members_of_spec (df : DataFrame) (q c : string) :
  In c (members_of df q) <->
  exists r, In r df /\ party r = Some q /\ candidate r = c.
Proof.
  unfold members_of. rewrite unique_In, in_map_iff.
  assert (Hrows : forall r, In r (sorted_reverse votes (rows_of_party df q)) <->
                            In r df /\ party r = Some q).
  { intros r. split.
    - intros Hr.
      apply (Permutation_in _ (sorted_reverse_perm (V := Z) votes _)) in Hr.
      unfold rows_of_party in Hr. apply filter_In in Hr. destruct Hr as [Hr Hp].
      split; [exact Hr|]. destruct (party r) as [q'|]; [|discriminate].
      destruct (key_eq_dec q' q) as [->|]; [reflexivity|discriminate].
    - intros [Hr Hp].
      apply (Permutation_in _ (Permutation_sym (sorted_reverse_perm (V := Z) votes _))).
      unfold rows_of_party. apply filter_In. split; [exact Hr|]. rewrite Hp.
      destruct (key_eq_dec q q); [reflexivity|congruence]. }
  split.
  - intros [r [Hc Hr]]. apply Hrows in Hr. exists r. tauto.
  - intros [r [Hr [Hp Hc]]]. exists r. split; [exact Hc|]. apply Hrows. auto.
Qed.

Lemma assign_party_keys (q : string) (l : list string) :
  forall (acc : dict string string) (c : string),
    In c (keys (fold_left (fun acc c => setitem acc c q) l acc))
    <-> In c (keys acc) \/ In c l.
Proof.
  induction l as [|x l IH]; intros acc c; simpl; [tauto|].
  rewrite IH, in_keys_setitem. intuition congruence.
Qed.

Lemma assign_party_get (q : string) (l : list string) :
  forall (acc : dict string string) (c q' : string),
    getitem (fold_left (fun acc c => setitem acc c q) l acc) c = Ok q' ->
    getitem acc c = Ok q' \/ (q' = q /\ In c l).
Proof.
  induction l as [|x l IH]; intros acc c q' Hget; simpl in Hget; [auto|].
  destruct (IH _ _ _ Hget) as [Hacc|[Hq Hin]]; [|right; split; [exact Hq|right; exact Hin]].
  rewrite getitem_setitem in Hacc. destruct (key_eq_dec c x) as [->|Hne]; [|auto].
  injection Hacc as <-. right. split; [reflexivity|left; reflexivity].
Qed.

Lemma party_members_keys (members : string -> list string) (parties : list string) :
  forall (acc : dict string string) (c : string),
    In c (keys (fold_left (fun acc q =>
                             fold_left (fun acc c => setitem acc c q) (members q) acc)
                          parties acc))
    <-> In c (keys acc) \/ exists q, In q parties /\ In c (members q).
Proof.
  induction parties as [|p parties IH]; intros acc c; simpl.
  - split; [auto|]. intros [Hc|[q [[] _]]]. exact Hc.
  - rewrite IH, assign_party_keys. split.
    + intros [[Hc|Hc]|[q [Hq Hc]]]; [auto| |].
      * right. exists p. auto.
      * right. exists q. auto.
    + intros [Hc|[q [[<-|Hq] Hc]]]; [auto|auto|].
      right. exists q. auto.
Qed.

Lemma party_members_get (members : string -> list string) (parties : list string) :
  forall (acc : dict string string) (c q : string),
    getitem (fold_left (fun acc q =>
                          fold_left (fun acc c => setitem acc c q) (members q) acc)
                       parties acc) c = Ok q ->
    getitem acc c = Ok q \/ (In q parties /\ In c (members q)).
Proof.
  induction parties as [|p parties IH]; intros acc c q Hget; simpl in Hget; [auto|].
  destruct (IH _ _ _ Hget) as [Hacc|[Hq Hc]];
    [|right; split; [right; exact Hq|exact Hc]].
  destruct (assign_party_get _ _ _ _ _ Hacc) as [Hacc0|[-> Hc]]; [auto|].
  right. split; [left; reflexivity|exact Hc].
Qed.

Lemma fillna_rows (df : DataFrame) (r : Row) :
  In r (fillna_party df) <->
  exists r0, In r0 df /\
    r = {| table := table r0; candidate := candidate r0;
           party := Some (party_or_empty r0); votes := votes r0 |}.
Proof.
  unfold fillna_party. rewrite in_map_iff. split.
  - intros [r0 [<- Hr0]]. exists r0. auto.
  - intros [r0 [Hr0 ->]]. exists r0. auto.
Qed.

(** X22. In a D'Hondt audit, [party_members] has an entry exactly for the
    candidates of the preliminary table, and the party it gives to a
    candidate is the party (the empty name when it is missing) of one of
    the candidate's rows. *)
Theorem X22_party_members_covers_the_candidates
  (risk_limit : Q) (audit_type : AuditType) (n_winners : Z)
  (preliminary recount : DataFrame) (dh : DHondt) :
  DHondt_init risk_limit audit_type n_winners preliminary recount = Ok dh ->
  (forall c, In c (keys (dh_party_members dh)) <->
             exists r, In r preliminary /\ candidate r = c) /\
  (forall c q, getitem (dh_party_members dh) c = Ok q ->
               In q (dh_parties dh) /\
               exists r, In r preliminary /\ candidate r = c /\ party_or_empty r = q).
Proof.
  intros Hinit.
  destruct (DHondt_init_fields _ _ _ _ _ _ Hinit)
    as [_ [_ [Hparties [_ [Hpm _]]]]].
  set (filled := fillna_party preliminary) in *.
  split.
  - intros c. rewrite Hpm, party_members_keys. simpl. split.
    + intros [[]|[q [_ Hc]]]. apply members_of_spec in Hc.
      destruct Hc as [r [Hr [_ Hc]]]. apply fillna_rows in Hr.
      destruct Hr as [r0 [Hr0 ->]]. exists r0. auto.
    + intros [r0 [Hr0 Hc]]. right. exists (party_or_empty r0).
      assert (Hr : In {| table := table r0; candidate := candidate r0;
                         party := Some (party_or_empty r0); votes := votes r0 |} filled)
        by (apply fillna_rows; exists r0; auto).
      split.
      * apply groupby_sum_keys. eexists. split; [exact Hr|].
        unfold in_group. simpl.
        destruct (key_eq_dec (party_or_empty r0) (party_or_empty r0));
          [reflexivity|congruence].
      * apply members_of_spec. eexists. split; [exact Hr|]. simpl. auto.
  - intros c q Hget. rewrite Hpm in Hget.
    destruct (party_members_get _ _ _ _ _ Hget) as [Hnil|[Hq Hc]];
      [discriminate Hnil|].
    split; [rewrite Hparties; exact Hq|].
    apply members_of_spec in Hc. destruct Hc as [r [Hr [Hp Hc]]].
    apply fillna_rows in Hr. destruct Hr as [r0 [Hr0 ->]]. simpl in Hp, Hc.
    exists r0. split; [exact Hr0|]. split; [exact Hc|congruence].
Qed.

Lemma X22_party_members_covers_the_candidates_witness :
  let rows :=
    [ {| table := "t1"%string; candidate := "a"%string;
         party := Some "X"%string; votes := 5 |};
      {| table := "t1"%string; candidate := "b"%string;
         party := None; votes := 3 |};
      {| table := "t1"%string; candidate := "c"%string;
         party := Some "Y"%string; votes := 6 |} ] in
  exists dh,
    DHondt_init (1 # 10) BALLOTPOLLING 1 rows [] = Ok dh /\
    (forall c, In c (keys (dh_party_members dh)) <->
               exists r, In r rows /\ candidate r = c) /\
    (forall c q, getitem (dh_party_members dh) c = Ok q ->
                 In q (dh_parties dh) /\
                 exists r, In r rows /\ candidate r = c /\ party_or_empty r = q).
Proof.
  intros rows.
  destruct (DHondt_init (1 # 10) BALLOTPOLLING 1 rows []) as [dh|ex] eqn:Hinit;
    [|vm_compute in Hinit; discriminate Hinit].
  exists dh. split; [reflexivity|].
  exact (X22_party_members_covers_the_candidates
           (1 # 10) BALLOTPOLLING 1 rows [] dh Hinit).
Defined.

(** ** Totals *)

Lemma total_setitem (m : dict string Z) (k : string) (v : Z) :
  sum (map snd (setitem m k v)) = sum (map snd m) - get0 m k + v.
Proof.
  induction m as [|[k0 v0] m IH].
  - cbn [setitem map snd]. rewrite sum_cons. change (sum []) with 0.
    change (get0 [] k) with 0. lia.
  - unfold get0 in *. cbn [setitem getitem].
    destruct (key_eq_dec k k0) as [->|Hne]; cbn [map snd].
    + rewrite !sum_cons. lia.
    + rewrite !sum_cons, IH. lia.
Qed.

Lemma total_by_keys (m : dict string Z) :
  NoDup (keys m) -> sum (map (get0 m) (keys m)) = sum (map snd m).
Proof.
  induction m as [|[k v] m IH]; intros Hnd; [reflexivity|].
  simpl in Hnd. inversion Hnd as [|? ? Hk Hnd']; subst.
  simpl. rewrite !sum_cons, <- (IH Hnd'). unfold get0 at 1. simpl.
  destruct (key_eq_dec k k) as [_|Hne]; [|congruence]. f_equal. f_equal.
  apply map_ext_in. intros k' Hk'. unfold get0. simpl.
  destruct (key_eq_dec k' k) as [->|_]; [contradiction|reflexivity].
Qed.

Lemma recount_step_total (pm : dict string string) (recount acc acc1 : dict string Z)
  (c : string) :
  recount_step pm recount acc c = Ok acc1 ->
  sum (map snd acc1) = sum (map snd acc) + get0 recount c.
Proof.
  unfold recount_step. intros Hstep.
  destruct (getitem pm c) as [qc|] eqn:Hqc; [|discriminate].
  cbn [Py.bind] in Hstep.
  set (tr0 := if contains (keys acc) qc then acc else setitem acc qc 0) in *.
  assert (Htot0 : sum (map snd tr0) = sum (map snd acc)).
  { unfold tr0. destruct (contains (keys acc) qc) eqn:Hc; [reflexivity|].
    rewrite total_setitem, get0_missing; [lia|].
    intros Hin. apply contains_spec in Hin. congruence. }
  destruct (getitem tr0 qc) as [cur|] eqn:Hcur; [|discriminate].
  cbn [Py.bind] in Hstep.
  destruct (getitem recount c) as [v|] eqn:Hv; [|discriminate].
  cbn [Py.bind] in Hstep. injection Hstep as <-.
  rewrite total_setitem, (get0_of _ _ _ Hcur), (get0_of _ _ _ Hv), Htot0. lia.
Qed.

Lemma recount_fold_total (pm : dict string string) (recount : dict string Z)
  (l : list string) :
  forall acc tr,
    foldM (recount_step pm recount) l acc = Ok tr ->
    sum (map snd tr) = sum (map snd acc) + sum (map (get0 recount) l).
Proof.
  induction l as [|c l IH]; intros acc tr Hfold.
  - simpl in Hfold. injection Hfold as <-. change (sum (map _ [])) with 0. lia.
  - cbn [foldM] in Hfold. apply bind_Ok in Hfold.
    destruct Hfold as [acc1 [Hstep Hfold]].
    rewrite (IH _ _ Hfold), (recount_step_total _ _ _ _ _ Hstep).
    cbn [map]. rewrite sum_cons. lia.
Qed.

(** X23. In a D'Hondt audit, a recount whose candidates all appear in the
    preliminary table is transformed without error: the result has only
    parties of the audit, and its votes add up to those of the recount. *)
Theorem X23_recount_of_known_candidates_keeps_the_total
  (risk_limit : Q) (audit_type : AuditType) (n_winners : Z)
  (preliminary recount_df : DataFrame) (dh : DHondt) (recount : dict string Z) :
  DHondt_init risk_limit audit_type n_winners preliminary recount_df = Ok dh ->
  NoDup (keys recount) ->
  (forall c, In c (keys recount) -> exists r, In r preliminary /\ candidate r = c) ->
  exists transformed,
    DHondt_vote_recount_transform dh recount = Ok transformed /\
    (forall q, In q (keys transformed) -> In q (dh_parties dh)) /\
    sum (map snd transformed) = sum (map snd recount).
Proof.
  intros Hinit Hnd Hknown.
  destruct (DHondt_init_fields _ _ _ _ _ _ Hinit)
    as [_ [_ [Hparties [_ [Hpm _]]]]].
  set (filled := fillna_party preliminary) in *.
  assert (Hkeys : forall c, In c (keys recount) -> In c (keys (dh_party_members dh))).
  { intros c Hc. destruct (Hknown c Hc) as [r0 [Hr0 Hcand]].
    rewrite Hpm. apply party_members_keys. right. exists (party_or_empty r0).
    assert (Hr : In {| table := table r0; candidate := candidate r0;
                       party := Some (party_or_empty r0); votes := votes r0 |} filled)
      by (apply fillna_rows; exists r0; auto).
    split.
    - apply groupby_sum_keys. eexists. split; [exact Hr|].
      unfold in_group. simpl.
      destruct (key_eq_dec (party_or_empty r0) (party_or_empty r0));
        [reflexivity|congruence].
    - apply members_of_spec. eexists. split; [exact Hr|]. simpl. auto. }
  unfold DHondt_vote_recount_transform.
  destruct (foldM (recount_step (dh_party_members dh) recount) (keys recount) [])
    as [tr|ex] eqn:Hfold.
  - exists tr. split; [reflexivity|]. split.
    + intros q Hq. destruct (recount_fold _ _ _ _ _ Hfold) as [_ [Hk _]].
      apply Hk in Hq. destruct Hq as [[]|[c [_ Hget]]].
      rewrite Hpm in Hget.
      destruct (party_members_get _ _ _ _ _ Hget) as [Hnil|[Hq _]];
        [discriminate Hnil|].
      rewrite Hparties. exact Hq.
    + rewrite (recount_fold_total _ _ _ _ _ Hfold).
      change (sum (map snd [])) with 0. rewrite (total_by_keys _ Hnd). lia.
  - exfalso.
    destruct (recount_fold_raise _ _ _ (fun c Hc => Hc) _ _ Hfold)
      as [_ [c [Hc Hno]]].
    exact (Hno (Hkeys c Hc)).
Qed.

Lemma X23_recount_of_known_candidates_keeps_the_total_witness :
  let rows :=
    [ {| table := "t1"%string; candidate := "a"%string;
         party := Some "X"%string; votes := 5 |};
      {| table := "t1"%string; candidate := "b"%string;
         party := None; votes := 3 |};
      {| table := "t1"%string; candidate := "c"%string;
         party := Some "Y"%string; votes := 6 |} ] in
  let recount := [("c"%string, 2); ("a"%string, 3)] in
  exists dh transformed,
    DHondt_init (1 # 10) BALLOTPOLLING 1 rows [] = Ok dh /\
    DHondt_vote_recount_transform dh recount = Ok transformed /\
    (forall q, In q (keys transformed) -> In q (dh_parties dh)) /\
    sum (map snd transformed) = sum (map snd recount).
Proof.
  intros rows recount.
  destruct (DHondt_init (1 # 10) BALLOTPOLLING 1 rows []) as [dh|ex] eqn:Hinit;
    [|vm_compute in Hinit; discriminate Hinit].
  exists dh.
  destruct (X23_recount_of_known_candidates_keeps_the_total
              (1 # 10) BALLOTPOLLING 1 rows [] dh recount Hinit)
    as [transformed Htr].
  - repeat constructor; simpl; intuition discriminate.
  - intros c [<-|[<-|[]]];
      [exists {| table := "t1"%string; candidate := "c"%string;
                 party := Some "Y"%string; votes := 6 |}
      |exists {| table := "t1"%string; candidate := "a"%string;
                 party := Some "X"%string; votes := 5 |}];
      (split; [simpl; auto|reflexivity]).
  - exists transformed. split; [reflexivity|exact Htr].
Defined.

(** ** Accumulating the recount *)

Lemma update_accum_loop_ok (recount : dict string Z) (l : list string) :
  (forall c, In c l -> In c (keys recount)) ->
  forall accum,
    (forall c, In c l -> In c (keys accum)) ->
    exists accum',
      update_accum_loop recount l accum = (accum', Ok tt) /\
      keys accum' = keys accum /\
      forall c, get0 accum' c
                = get0 accum c
                  + sum (map (get0 recount)
                             (filter (fun c' => if key_eq_dec c' c then true else false) l)).
Proof.
  induction l as [|x l IH]; intros Hl accum Hacc.
  - exists accum. split; [reflexivity|]. split; [reflexivity|].
    intros c. change (sum (map _ (filter _ []))) with 0. lia.
  - cbn [update_accum_loop]. unfold add_to.
    destruct (getitem_of_key accum x (Hacc x (or_introl eq_refl))) as [cur Hcur].
    destruct (getitem_of_key recount x (Hl x (or_introl eq_refl))) as [v Hv].
    rewrite Hcur, Hv. cbn [Py.bind].
    assert (Hsame : keys (setitem accum x (cur + v)) = keys accum).
    { clear -Hcur. induction accum as [|[k0 v0] accum IHa]; [discriminate Hcur|].
      simpl in *. destruct (key_eq_dec x k0) as [->|Hne]; [reflexivity|].
      simpl. f_equal. apply IHa, Hcur. }
    destruct (IH (fun c Hc => Hl c (or_intror Hc)) (setitem accum x (cur + v)))
      as [accum' [Hrun [Hkeys Hval]]].
    { intros c Hc. rewrite Hsame. apply Hacc. right. exact Hc. }
    exists accum'. split; [exact Hrun|]. split; [congruence|].
    intros c. rewrite Hval, get0_setitem. cbn [filter].
    destruct (key_eq_dec c x) as [->|Hne].
    + destruct (key_eq_dec x x) as [_|Hne]; [|congruence].
      cbn [map]. rewrite sum_cons, (get0_of _ _ _ Hcur), (get0_of _ _ _ Hv). lia.
    + destruct (key_eq_dec x c) as [Heq|_]; [congruence|]. reflexivity.
Qed.

Lemma filter_one (l : list string) (c : string) :
  NoDup l ->
  filter (fun c' => if key_eq_dec c' c then true else false) l
  = if in_dec key_eq_dec c l then [c] else [].
Proof.
  induction l as [|x l IH]; intros Hnd; [reflexivity|].
  inversion Hnd as [|? ? Hx Hnd']; subst. cbn [filter]. rewrite (IH Hnd').
  destruct (key_eq_dec x c) as [->|Hne].
  - destruct (in_dec key_eq_dec c l) as [Hin|_]; [contradiction|].
    destruct (in_dec key_eq_dec c (c :: l)) as [_|Hno]; [reflexivity|].
    exfalso. apply Hno. left. reflexivity.
  - destruct (in_dec key_eq_dec c l) as [Hin|Hno];
      destruct (in_dec key_eq_dec c (x :: l)) as [Hin'|Hno']; try reflexivity.
    + exfalso. apply Hno'. right. exact Hin.
    + destruct Hin' as [Heq|Hin']; [congruence|contradiction].
Qed.

(** X24. [Audit._update_accum_recount] on ballot-polling data: when every
    candidate of the recount has an entry in the accumulated recount, the
    call returns, the accumulated recount keeps its keys in their order,
    and each entry has grown by the recounted votes of its candidate (by
    nothing for a candidate that is not in the recount). *)
Theorem X24_accumulated_recount_adds_entry_by_entry
  (accum_recount recount : dict string Z) :
  NoDup (keys recount) ->
  (forall c, In c (keys recount) -> In c (keys accum_recount)) ->
  exists accum',
    update_accum_recount accum_recount recount = (accum', Ok tt) /\
    keys accum' = keys accum_recount /\
    forall c, get0 accum' c = get0 accum_recount c + get0 recount c.
Proof.
  intros Hnd Hsub. unfold update_accum_recount.
  destruct (update_accum_loop_ok recount (keys recount) (fun c Hc => Hc)
              accum_recount Hsub) as [accum' [Hrun [Hkeys Hval]]].
  exists accum'. split; [exact Hrun|]. split; [exact Hkeys|].
  intros c. rewrite Hval, (filter_one _ c Hnd).
  destruct (in_dec key_eq_dec c (keys recount)) as [Hin|Hno].
  - cbn [map]. rewrite sum_cons. change (sum []) with 0. lia.
  - change (sum (map _ [])) with 0. rewrite (get0_missing recount c Hno). lia.
Qed.

Lemma X24_accumulated_recount_adds_entry_by_entry_witness :
  let accum := [("a"%string, 4); ("b"%string, 0); ("c"%string, 7)] in
  let recount := [("c"%string, 2); ("a"%string, 3)] in
  exists accum',
    update_accum_recount accum recount = (accum', Ok tt) /\
    keys accum' = keys accum /\
    forall c, get0 accum' c = get0 accum c + get0 recount c.
Proof.
  intros accum recount.
  apply (X24_accumulated_recount_adds_entry_by_entry accum recount).
  - repeat constructor; simpl; intuition discriminate.
  - intros c [<-|[<-|[]]]; simpl; auto.
Defined.

Lemma update_accum_loop_app (recount : dict string Z) (l1 l2 : list string) :
  forall accum accum1,
    update_accum_loop recount l1 accum = (accum1, Ok tt) ->
    update_accum_loop recount (l1 ++ l2) accum = update_accum_loop recount l2 accum1.
Proof.
  induction l1 as [|x l1 IH]; intros accum accum1 Hrun.
  - simpl in Hrun. injection Hrun as <-. reflexivity.
  - cbn [update_accum_loop app] in *.
    destruct (add_to accum recount x) as [accum0|ex]; [|discriminate Hrun].
    apply IH, Hrun.
Qed.

(** X25. [Audit._update_accum_recount] is not all-or-nothing: when the
    candidates of the recount up to some candidate have entries in the
    accumulated recount and that candidate has none, the call raises
    [KeyError] after the votes of the earlier candidates have been added
    to the dictionary. *)
Theorem X25_unknown_candidate_leaves_a_partial_update
  (accum_recount before after : dict string Z) (c : string) (v : Z) :
  let recount := before ++ (c, v) :: after in
  NoDup (keys recount) ->
  (forall c', In c' (keys before) -> In c' (keys accum_recount)) ->
  ~ In c (keys accum_recount) ->
  exists accum',
    update_accum_recount accum_recount recount = (accum', Raise KeyError) /\
    keys accum' = keys accum_recount /\
    forall c', get0 accum' c' = get0 accum_recount c' + get0 before c'.
Proof.
  intros recount Hnd Hsub Hno. unfold update_accum_recount.
  assert (Hkeys : keys recount = keys before ++ c :: keys after).
  { unfold recount, keys. rewrite map_app. reflexivity. }
  assert (Hnd1 : NoDup (keys before)).
  { rewrite Hkeys in Hnd. apply NoDup_app_remove_r in Hnd. exact Hnd. }
  assert (Hget : forall c', In c' (keys before) ->
                            get0 recount c' = get0 before c').
  { intros c' Hc'. unfold recount, get0. clear -Hc'.
    induction before as [|[k0 v0] before IHb]; [contradiction|].
    simpl. destruct (key_eq_dec c' k0) as [_|Hne]; [reflexivity|].
    destruct Hc' as [Heq|Hc']; [simpl in Heq; congruence|]. apply IHb, Hc'. }
  destruct (update_accum_loop_ok recount (keys before)) with (accum := accum_recount)
    as [accum1 [Hrun [Hk1 Hv1]]].
  { intros c' Hc'. rewrite Hkeys. apply in_or_app. auto. }
  { exact Hsub. }
  exists accum1. split; [|split; [exact Hk1|]].
  - rewrite Hkeys, (update_accum_loop_app _ _ _ _ _ Hrun).
    cbn [update_accum_loop]. unfold add_to.
    assert (Hmiss : getitem accum1 c = Raise KeyError).
    { assert (Hno1 : ~ In c (keys accum1)) by (rewrite Hk1; exact Hno).
      clear -Hno1. induction accum1 as [|[k0 v0] accum1 IHa]; [reflexivity|].
      simpl in *. destruct (key_eq_dec c k0) as [->|Hne]; [tauto|].
      apply IHa. tauto. }
    rewrite Hmiss. reflexivity.
  - intros c'. rewrite Hv1, (filter_one _ c' Hnd1).
    destruct (in_dec key_eq_dec c' (keys before)) as [Hin|Hnotin].
    + cbn [map]. rewrite sum_cons, (Hget c' Hin). change (sum []) with 0. lia.
    + change (sum (map _ [])) with 0. rewrite (get0_missing before c' Hnotin). lia.
Qed.

Lemma X25_unknown_candidate_leaves_a_partial_update_witness :
  let accum := [("a"%string, 4); ("b"%string, 0)] in
  let before := [("b"%string, 2)] in
  let after := [("a"%string, 3)] in
  exists accum',
    update_accum_recount accum (before ++ ("z"%string, 1) :: after)
    = (accum', Raise KeyError) /\
    keys accum' = keys accum /\
    forall c', get0 accum' c' = get0 accum c' + get0 before c'.
Proof.
  intros accum before after.
  apply (X25_unknown_candidate_leaves_a_partial_update accum before after "z"%string 1).
  - repeat constructor; simpl; intuition discriminate.
  - intros c' [<-|[]]; simpl; auto.
  - simpl. intuition discriminate.
Defined.

End Recount_more.

(* ================================================================== *)
(** * Further properties: a super-majority round on an incomplete recount *)
(* ================================================================== *)

Section SuperMajority_round.
Import Utils Audits Props MoreProps.


Lemma mapM_getitem_missing (m : dict string Z) (l : list string) (c : string) :
  In c l -> ~ In c (keys m) ->
  mapM (fun c => getitem m c) l = Raise KeyError.
Proof.
  intros Hc Hno. induction l as [|x l IH]; [contradiction|].
  cbn [mapM]. destruct (getitem m x) as [v|ex] eqn:Hx.
  - destruct Hc as [->|Hc].
    + exfalso. apply Hno. apply getitem_In in Hx. apply (in_map fst) in Hx. exact Hx.
    + cbn [Py.bind]. rewrite (IH Hc). reflexivity.
  - cbn [Py.bind]. f_equal. clear -Hx.
    induction m as [|[k v] m IHm]; simpl in Hx; [congruence|].
    destruct (key_eq_dec x k); [discriminate|auto].
Qed.

(** X29. A super-majority round needs every candidate in the recount:
    when a candidate of the preliminary table has no entry in the
    recount, [_ballot_polling] raises [KeyError] and leaves the matrix as
    it was. *)
Theorem X29_super_majority_needs_every_candidate
  (risk_limit : Q) (audit_type : AuditType) (preliminary recount_df : DataFrame)
  (recount : dict string Z) (T : Tmatrix) (c : string) :
  let self := SuperMajority_init risk_limit audit_type preliminary recount_df in
  In c (candidates self) ->
  ~ In c (keys recount) ->
  ballot_polling self recount T = (T, Raise KeyError).
Proof.
  intros self Hc Hno.
  destruct (Plurality_init_fields risk_limit audit_type 1 preliminary recount_df)
    as [_ [Hvc' Hcand']].
  assert (Hvc : vote_count self = groupby_sum by_candidate preliminary) by exact Hvc'.
  assert (Hcand : candidates self = keys (vote_count self))
    by (rewrite Hvc; exact Hcand').
  assert (Hnd : NoDup (keys (vote_count self)))
    by (rewrite Hvc; apply groupby_sum_NoDup).
  unfold ballot_polling.
  change (vote_count_transform self (vote_count self))
    with (SuperMajority_vote_count_transform self (vote_count self)).
  change (vote_recount_transform self recount)
    with (SuperMajority_vote_count_transform self recount).
  rewrite !(SuperMajority_transform_ranking self _ Hnd).
  pose proof (get_W_L_sets_perm (vote_count self) (n_winners self)) as Hperm.
  destruct (get_W_L_sets (vote_count self) (n_winners self)) as [W L].
  cbn [fst snd] in Hperm.
  assert (Hsub : forall c', In c' (W ++ L) -> has_key (vote_count self) c').
  { intros c' Hc'. apply has_key_keys. exact (Permutation_in _ Hperm Hc'). }
  rewrite (mapM_getitem (vote_count self) W), (mapM_getitem (vote_count self) L);
    [|intros c' Hc'; apply Hsub, in_or_app; auto
     |intros c' Hc'; apply Hsub, in_or_app; auto].
  cbn [Py.bind].
  assert (HcWL : In c (W ++ L)).
  { rewrite Hcand in Hc. exact (Permutation_in _ (Permutation_sym Hperm) Hc). }
  destruct (mapM (fun c0 => getitem recount c0) W) as [w|ex] eqn:HW.
  - cbn [Py.bind]. apply in_app_or in HcWL. destruct HcWL as [HcW|HcL].
    + rewrite (mapM_getitem_missing recount W c HcW Hno) in HW. discriminate HW.
    + rewrite (mapM_getitem_missing recount L c HcL Hno). reflexivity.
  - cbn [Py.bind]. f_equal. f_equal. clear -HW.
    revert ex HW. induction W as [|x W IH]; intros ex HW; [discriminate HW|].
    cbn [mapM] in HW. destruct (getitem recount x) as [v|ex'] eqn:Hx.
    + cbn [Py.bind] in HW. destruct (mapM (fun c0 => getitem recount c0) W) as [vs|ex''].
      * discriminate HW.
      * cbn [Py.bind] in HW. injection HW as <-. apply IH. reflexivity.
    + cbn [Py.bind] in HW. injection HW as <-. clear -Hx.
      induction recount as [|[k v] m IHm]; simpl in Hx; [congruence|].
      destruct (key_eq_dec x k); [discriminate|auto].
Qed.

Lemma X29_super_majority_needs_every_candidate_witness :
  let preliminary :=
    [ {| table := "t1"%string; candidate := "a"%string; party := None; votes := 5 |};
      {| table := "t1"%string; candidate := "b"%string; party := None; votes := 3 |} ] in
  let self := SuperMajority_init (1 # 10) BALLOTPOLLING preliminary [] in
  let T := [("w"%string, [("l"%string, 1%Q)])] in
  ballot_polling self [("a"%string, 2)] T = (T, Raise KeyError).
Proof.
  intros preliminary self T.
  apply (X29_super_majority_needs_every_candidate
           (1 # 10) BALLOTPOLLING preliminary [] [("a"%string, 2)] T "b"%string).
  - simpl. auto.
  - simpl. intuition discriminate.
Defined.

End SuperMajority_round.
